(** * HE2 Toolbox (Blender edition): template resolution and parameter transfer

    A shallow embedding of the schema resolver, the parameter marshaller,
    the re-nesting function and the parameter transfer matcher of

      - [he2_toolbox_blender/modules/hson_template.py]
      - [he2_toolbox_blender/modules/hson_module.py]
      - [he2_toolbox_blender/modules/blendhog_addon.py]
      - [he2_toolbox_blender/modules/xml_module.py]
      - [he2_toolbox_blender/__init__.py]

    together with the properties stated about them.

    Conventions of the embedding.
      - A Python [str] is a Rocq [string]; the text is taken to be ASCII
        (characters above 127 are left alone by [PyStr.lower] and are never
        white space, letters or digits here).
      - A value produced by [json.load] is a [json].  A Python float is
        identified by its [repr], the text [str()] prints for it.
      - A Python [dict] whose iteration order matters is an association
        list with unique keys ([dict_get], [dict_set]); the struct and
        enum tables, which the code only looks up and updates by key, are
        [gmap]s; Python sets are [gset]s.
      - Code that can raise returns an [outcome]. *)

From Stdlib Require Import ZArith Ascii String DecimalString DecimalPos.
From stdpp Require Import base option list strings gmap.

Local Open Scope Z_scope.
Local Open Scope nat_scope.

Set Warnings "-register-all,-clear-no-such-hyp".

(** ** Python strings *)

Module PyStr.

Definition code (c : ascii) : nat := nat_of_ascii c.

Definition between (lo hi : nat) (c : ascii) : bool :=
  (lo <=? code c) && (code c <=? hi).

Definition is_digit (c : ascii) : bool := between 48 57 c.
Definition is_upper (c : ascii) : bool := between 65 90 c.
Definition is_lower (c : ascii) : bool := between 97 122 c.
Definition is_alpha (c : ascii) : bool := is_upper c || is_lower c.

(** White space of [str.strip()] in the ASCII range. *)
Definition is_space (c : ascii) : bool :=
  between 9 13 c || between 28 32 c.

Definition lower_char (c : ascii) : ascii :=
  if is_upper c then ascii_of_nat (code c + 32) else c.

(** [s.lower()] *)
Fixpoint lower (s : string) : string :=
  match s with
  | EmptyString => EmptyString
  | String c s' => String (lower_char c) (lower s')
  end.

Fixpoint filter_chars (keep : ascii → bool) (s : string) : string :=
  match s with
  | EmptyString => EmptyString
  | String c s' =>
      if keep c then String c (filter_chars keep s') else filter_chars keep s'
  end.

Fixpoint all_chars (p : ascii → bool) (s : string) : bool :=
  match s with
  | EmptyString => true
  | String c s' => p c && all_chars p s'
  end.

Fixpoint lstrip_with (drop : ascii → bool) (s : string) : string :=
  match s with
  | EmptyString => EmptyString
  | String c s' => if drop c then lstrip_with drop s' else s
  end.

Definition rstrip_with (drop : ascii → bool) (s : string) : string :=
  String.rev (lstrip_with drop (String.rev s)).

Definition strip_with (drop : ascii → bool) (s : string) : string :=
  rstrip_with drop (lstrip_with drop s).

(** [s.strip()] *)
Definition strip (s : string) : string := strip_with is_space s.

(** [s.startswith(p)] and [s.endswith(p)] *)
Definition startswith (p s : string) : bool := String.prefix p s.
Definition endswith (p s : string) : bool :=
  String.prefix (String.rev p) (String.rev s).

(** [sub in s] for two strings *)
Fixpoint contains (sub s : string) : bool :=
  String.prefix sub s ||
  match s with
  | EmptyString => false
  | String _ s' => contains sub s'
  end.

(** [s.split(c)] for a one-character separator. *)
Fixpoint split_char (sep : ascii) (s : string) : list string :=
  match s with
  | EmptyString => [EmptyString]
  | String c s' =>
      if Ascii.eqb c sep then EmptyString :: split_char sep s'
      else match split_char sep s' with
           | [] => [String c EmptyString]
           | w :: ws => String c w :: ws
           end
  end.

(** [s.split(sep)] for a non-empty separator; [skip] counts the
    characters of a separator occurrence still to be passed over. *)
Fixpoint split_go (sep : string) (skip : nat) (s : string) : list string :=
  match s with
  | EmptyString => [EmptyString]
  | String c s' =>
      match skip with
      | S k => split_go sep k s'
      | O =>
          if String.prefix sep s
          then EmptyString :: split_go sep (String.length sep - 1) s'
          else match split_go sep 0 s' with
               | [] => [String c EmptyString]
               | w :: ws => String c w :: ws
               end
      end
  end.

Definition split (sep s : string) : list string := split_go sep 0 s.

(** [sep.join(parts)] *)
Definition join (sep : string) (parts : list string) : string :=
  String.concat sep parts.

(** [parts[-1]] *)
Definition last_part (parts : list string) : string :=
  List.last parts EmptyString.

(** [int(digits)] for a string of decimal digits. *)
Definition digit_value (c : ascii) : nat := code c - 48.

Fixpoint int_of_digits_go (acc : nat) (s : string) : nat :=
  match s with
  | EmptyString => acc
  | String c s' => int_of_digits_go (10 * acc + digit_value c) s'
  end.

Definition int_of_digits (s : string) : nat := int_of_digits_go 0 s.

(** [str(n)] for an integer. *)
Definition str_of_Z (z : Z) : string := NilZero.string_of_int (Z.to_int z).
Definition str_of_nat (n : nat) : string := str_of_Z (Z.of_nat n).

Fixpoint take_while (p : ascii → bool) (s : string) : string :=
  match s with
  | EmptyString => EmptyString
  | String c s' => if p c then String c (take_while p s') else EmptyString
  end.

Fixpoint drop_while (p : ascii → bool) (s : string) : string :=
  match s with
  | EmptyString => EmptyString
  | String c s' => if p c then drop_while p s' else s
  end.

End PyStr.

(** ** Python values *)

Module Py.

(** What [json.load] produces.  [JFloat r] is the float whose [repr]
    is [r]. *)
Inductive json : Type :=
| JNull
| JBool (b : bool)
| JInt (z : Z)
| JFloat (r : string)
| JStr (s : string)
| JList (l : list json)
| JDict (d : list (string * json)).

(** An insertion-ordered [dict] with string keys. *)
Definition dict (V : Type) : Type := list (string * V).

Fixpoint dict_get {V} (k : string) (d : dict V) : option V :=
  match d with
  | [] => None
  | (k', v) :: d' => if String.eqb k k' then Some v else dict_get k d'
  end.

(** [d[k] = v]: an existing key keeps its place, a new key goes last. *)
Fixpoint dict_set {V} (k : string) (v : V) (d : dict V) : dict V :=
  match d with
  | [] => [(k, v)]
  | (k', v') :: d' =>
      if String.eqb k k' then (k, v) :: d' else (k', v') :: dict_set k v d'
  end.

Definition dict_mem {V} (k : string) (d : dict V) : bool :=
  match dict_get k d with Some _ => true | None => false end.

Definition dict_keys {V} (d : dict V) : list string := map fst d.

(** [d.update(e)] *)
Definition dict_update {V} (d e : dict V) : dict V :=
  fold_left (λ acc kv, dict_set (fst kv) (snd kv) acc) e d.

(** Truth value of an object ([if x:]). *)
Definition truthy (v : json) : bool :=
  match v with
  | JNull => false
  | JBool b => b
  | JInt z => negb (Z.eqb z 0)
  | JFloat r => negb (String.eqb r "0.0" || String.eqb r "-0.0")
  | JStr s => negb (String.eqb s "")
  | JList l => match l with [] => false | _ => true end
  | JDict d => match d with [] => false | _ => true end
  end.

(** [len(x)]; [None] where Python raises [TypeError]. *)
Definition py_len (v : json) : option nat :=
  match v with
  | JStr s => Some (String.length s)
  | JList l => Some (length l)
  | JDict d => Some (length d)
  | _ => None
  end.

(** [str(x)] for a scalar; the [repr] of a list or dict is not
    modelled ([None]). *)
Definition py_str (v : json) : option string :=
  match v with
  | JNull => Some "None"
  | JBool true => Some "True"
  | JBool false => Some "False"
  | JInt z => Some (PyStr.str_of_Z z)
  | JFloat r => Some r
  | JStr s => Some s
  | JList _ | JDict _ => None
  end.


Definition is_list (v : json) : bool :=
  match v with JList _ => true | _ => false end.

Definition is_dict (v : json) : bool :=
  match v with JDict _ => true | _ => false end.

(** [x in ["", None]] *)
Definition is_empty_or_none (v : json) : bool :=
  match v with
  | JNull => true
  | JStr s => String.eqb s ""
  | _ => false
  end.

(** How a computation of the embedding ends. *)
Inductive outcome (A : Type) : Type :=
| Ok (a : A)          (* it returns [a] *)
| Raise               (* a Python exception is raised *)
| Unmodelled          (* it leaves the fragment that is modelled *)
| OutOfFuel.          (* a loop did not finish within the fuel given *)

Arguments Ok {A} a.
Arguments Raise {A}.
Arguments Unmodelled {A}.
Arguments OutOfFuel {A}.

Definition bind {A B} (m : outcome A) (k : A → outcome B) : outcome B :=
  match m with
  | Ok a => k a
  | Raise => Raise
  | Unmodelled => Unmodelled
  | OutOfFuel => OutOfFuel
  end.

(** A [for] loop over [l] that threads a state and stops at the first
    iteration that does not return. *)
Fixpoint for_each {A S} (body : A → S → outcome S) (l : list A) (s : S)
  : outcome S :=
  match l with
  | [] => Ok s
  | a :: l' => bind (body a s) (for_each body l')
  end.

End Py.

Notation "'let!' x ':=' m 'in' k" := (Py.bind m (λ x, k))
  (at level 10, x name, m at level 100, k at level 200).

Import Py.

(** ** The template schema

    The template file is well formed: a field has a string [name] and
    [type], an optional string [subtype] and an optional integer
    [array_size]; a struct definition carries the keys [parent] and
    [fields] and no other; an enum definition carries [default_key] and
    [values] and no other; the raw value of an enum option is a scalar. *)

Module Schema.

Record field : Type := Field {
  f_name : string;
  f_type : string;
  f_subtype : option string;
  f_array_size : option Z
}.

Record struct_def : Type := StructDef {
  s_parent : option string;
  s_fields : option (list field)
}.

Inductive scalar : Type :=
| SNull
| SBool (b : bool)
| SInt (z : Z)
| SFloat (r : string)
| SStr (s : string).

Record enum_info : Type := EnumInfo {
  e_name : option string;
  e_description : option string;
  e_value : option scalar
}.

Record enum_def : Type := EnumDef {
  e_default_key : option string;
  e_values : option (dict enum_info)
}.

(** [str(x)] for a scalar. *)
Definition str_scalar (v : scalar) : string :=
  match v with
  | SNull => "None"
  | SBool true => "True"
  | SBool false => "False"
  | SInt z => PyStr.str_of_Z z
  | SFloat r => r
  | SStr s => s
  end.

(** [str(info.get("value", ""))] *)
Definition raw_value_str (info : enum_info) : string :=
  match e_value info with
  | Some v => str_scalar v
  | None => ""
  end.

(** The empty dict [{}] that [structs.get(name, {})] falls back to. *)
Definition empty_struct : struct_def := StructDef None None.

(** Truth value of a definition: a dict is true when it has a key. *)
Definition struct_truthy (sd : struct_def) : bool :=
  match s_parent sd, s_fields sd with
  | None, None => false
  | _, _ => true
  end.

Definition enum_truthy (ed : enum_def) : bool :=
  match e_default_key ed, e_values ed with
  | None, None => false
  | _, _ => true
  end.

(** [if parent:] on [struct_def.get("parent")] *)
Definition truthy_name (o : option string) : option string :=
  match o with
  | Some s => if String.eqb s "" then None else Some s
  | None => None
  end.

(** [struct_def.get("fields", [])] *)
Definition fields_or_empty (sd : struct_def) : list field :=
  default [] (s_fields sd).

(** [enum_def.get("values", {})] *)
Definition values_or_empty (ed : enum_def) : dict enum_info :=
  default [] (e_values ed).

End Schema.

Import Schema.

(** ** The parameter records of [__init__.py]

    [HSONParameterListItem] (an enum option with its [selected] flag),
    [HSONParametersListValues] (of which only [liststring] is read here)
    and [HSONParametersPropertyGroup].  A Blender float property is, like
    a Python float, identified by the text it prints as. *)

Module Props.

Record enum_item : Type := EnumItem {
  ei_selected : bool;
  ei_value : string
}.

Record hson_param : Type := HsonParam {
  p_name : string;
  float_value : string;
  int_value : Z;
  bool_value : bool;
  string_value : string;
  list_value : list string;
  enum_items : list enum_item
}.

Definition with_string_value (s : string) (p : hson_param) : hson_param :=
  HsonParam (p_name p) (float_value p) (int_value p) (bool_value p) s
    (list_value p) (enum_items p).

Definition with_enum_items (l : list enum_item) (p : hson_param)
  : hson_param :=
  HsonParam (p_name p) (float_value p) (int_value p) (bool_value p)
    (string_value p) (list_value p) l.

(** [update_enum_selection(self, context)] (lines 24-43), where [self]
    is the option at [self_idx] of [p] and [p] belongs to
    [context.object]: when [self] is selected its siblings are cleared
    and its value becomes the parameter's string.  The callback that the
    clearing of a sibling triggers in turn finds that sibling not
    selected and does nothing. *)
Definition update_enum_selection (self_idx : nat) (p : hson_param)
  : hson_param :=
  match enum_items p !! self_idx with
  | Some self =>
      if PyStr.contains "enum" (p_name p) && ei_selected self then
        with_string_value (ei_value self)
          (with_enum_items
             (imap (λ i it,
                      if Nat.eqb i self_idx then it
                      else EnumItem false (ei_value it))
                   (enum_items p))
             p)
      else p
  | None => p
  end.

(** [enum_items[idx].selected = flag].  Blender runs the [update]
    callback of the property on assignment; [ctx_is_obj] tells whether
    [context.object] is the object that owns [p] (otherwise the callback
    finds no owner, or fails, and its [except] clause swallows that). *)
Definition set_selected (ctx_is_obj : bool) (idx : nat) (flag : bool)
    (p : hson_param) : hson_param :=
  let p' :=
    with_enum_items
      (alter (λ it, EnumItem flag (ei_value it)) idx (enum_items p)) p in
  if ctx_is_obj then update_enum_selection idx p' else p'.

Definition selected_count (p : hson_param) : nat :=
  length (filter (λ it, ei_selected it = true) (enum_items p)).

End Props.

Import Props.

(** ** [hson_template.py] *)

Module HsonTemplate.

(** *** Schema resolver: [get_struct_fields] (lines 203-216)

    [_visited] is the set the recursive calls share; nothing reads it
    after a call returns, so it is passed down only.  [fuel] bounds the
    depth of the recursion. *)
Fixpoint get_struct_fields_rec (fuel : nat) (structs : gmap string struct_def)
    (struct_name : string) (visited : gset string) : outcome (list field) :=
  match fuel with
  | O => OutOfFuel
  | S fuel' =>
      if decide (struct_name ∈ visited) then Ok []
      else
        let visited' := {[struct_name]} ∪ visited in
        let struct_def := default empty_struct (structs !! struct_name) in
        match truthy_name (s_parent struct_def) with
        | Some parent =>
            let! inherited :=
              get_struct_fields_rec fuel' structs parent visited' in
            Ok (inherited ++ fields_or_empty struct_def)
        | None => Ok (fields_or_empty struct_def)
        end
  end.

(** The call [get_struct_fields(object_struct, template_data)], with
    enough fuel for any struct table (see [get_struct_fields_fuel]). *)
Definition get_struct_fields (structs : gmap string struct_def)
    (struct_name : string) : outcome (list field) :=
  get_struct_fields_rec (size structs + 2) structs struct_name ∅.

(** *** Re-nesting: [nest_parameters] (lines 32-60) *)

(** [re.match(r"^([a-zA-Z_]+)(\d+)$", part)]: the groups [(base, idx)].
    [$] also matches just before a newline that ends the string. *)
Definition is_name_char (c : ascii) : bool :=
  PyStr.is_alpha c || Ascii.eqb c "_"%char.

Definition index_part (part : string) : option (string * nat) :=
  let base := PyStr.take_while is_name_char part in
  let rest := PyStr.drop_while is_name_char part in
  let digits := PyStr.take_while PyStr.is_digit rest in
  let tail := PyStr.drop_while PyStr.is_digit rest in
  if String.eqb base "" then None
  else if String.eqb digits "" then None
  else if String.eqb tail "" || String.eqb tail (String "010"%char "")
       then Some (base, PyStr.int_of_digits digits)
       else None.

(** [while len(current) <= idx: current.append({})] *)
Definition pad_dicts (l : list json) (idx : nat) : list json :=
  l ++ replicate (S idx - length l) (JDict []).

(** The body of the loop over [parts] for one key, from the node
    [current] on.  It returns the node as the loop leaves it and whether
    the loop finished without raising: an exception leaves the
    assignments made before it in place. *)
Fixpoint insert_parts (parts : list string) (value : json) (current : json)
  : json * bool :=
  match parts with
  | [] => (current, true)
  | part :: rest =>
      match current with
      | JDict d =>
          match index_part part with
          | Some (base, idx) =>
              let existing :=
                match dict_get base d with
                | Some (JList l) => l
                | _ => []
                end in
              let padded := pad_dicts existing idx in
              match rest with
              | [] =>
                  (JDict (dict_set base (JList (<[idx := value]> padded)) d),
                   true)
              | _ :: _ =>
                  let '(elt, ok) :=
                    insert_parts rest value (default (JDict []) (padded !! idx)) in
                  (JDict (dict_set base (JList (<[idx := elt]> padded)) d), ok)
              end
          | None =>
              match rest with
              | [] => (JDict (dict_set part value d), true)
              | _ :: _ =>
                  let sub :=
                    match dict_get part d with
                    | Some (JDict s) => JDict s
                    | _ => JDict []
                    end in
                  let '(sub', ok) := insert_parts rest value sub in
                  (JDict (dict_set part sub' d), ok)
              end
          end
      | _ => (current, false)
      end
  end.

(** The loop over [flat_params.items()]; the [except] clause returns
    what has been built when a key raises. *)
Fixpoint nest_items (items : dict json) (nested : json) : json :=
  match items with
  | [] => nested
  | (key, value) :: items' =>
      let '(nested', ok) :=
        insert_parts (PyStr.split_char ":" key) value nested in
      if ok then nest_items items' nested' else nested'
  end.

Definition nest_parameters (flat_params : dict json) : json :=
  nest_items flat_params (JDict []).

(** *** Parameter marshaller: the field loop of
    [apply_hson_template_to_object] (lines 235-343) *)

(** What the loop reads and writes: the struct table of the template
    (shared, not copied), [params] and [types]. *)
Record state : Type := State {
  st_structs : gmap string struct_def;
  st_params : dict json;
  st_types : dict string
}.

Definition in_strs (s : string) (l : list string) : bool :=
  existsb (String.eqb s) l.

Definition recognized : list string :=
  ["int"; "int8"; "int16"; "int32"; "int64";
   "uint32"; "uint8"; "uint16"; "uint64";
   "float"; "float32"; "bool"; "string"; "vector"; "array"; "vector3"].

Definition primitives : list string :=
  ["uint32"; "uint8"; "uint16"; "uint64"; "int"; "float"; "bool";
   "string"; "vector3"; "object_reference"].

(** [imported_params[k]] when [imported_params and k in imported_params] *)
Definition imported_value (imported : option (dict json)) (k : string)
  : option json :=
  match imported with
  | Some d => dict_get k d
  | None => None
  end.

(** [0.0 if "float" in t else (0 if "int" in t else (False if "bool" in t else ""))] *)
Definition zero_value (t_lower : string) : json :=
  if PyStr.contains "float" t_lower then JFloat "0.0"
  else if PyStr.contains "int" t_lower then JInt 0
  else if PyStr.contains "bool" t_lower then JBool false
  else JStr "".

(** [default_val] of the primitive-array branch (lines 261-264) *)
Definition array_default (subtype_lower : string) : json :=
  if in_strs subtype_lower
       ["int"; "uint32"; "uint8"; "uint16"; "uint64";
        "int8"; "int16"; "int32"; "int64"]
  then JInt 0
  else if in_strs subtype_lower ["float"; "float32"] then JFloat "0.0"
  else if String.eqb subtype_lower "bool" then JBool false
  else JStr "".

(** [arr] (lines 254-256) *)
Definition array_source (tobj : dict json) (imported : option (dict json))
    (fname : string) : json :=
  match imported_value imported fname with
  | Some v => v
  | None => default (JList []) (dict_get fname tobj)
  end.

(** [while len(new_val) < size: new_val.append(default_val)] on a list *)
Definition pad_list (l : list json) (size : Z) (default_val : json)
  : list json :=
  l ++ replicate (Z.to_nat (size - Z.of_nat (length l))) default_val.

(** [new_val] of the primitive-array branch (lines 260-266) *)
Definition primitive_array_value (arr : json) (size : Z) (default_val : json)
  : outcome json :=
  let! keep :=
    if truthy arr then
      match py_len arr with
      | Some n => Ok (size <=? Z.of_nat n)%Z
      | None => Raise
      end
    else Ok false in
  if keep then Ok arr else Ok (JList (pad_list [] size default_val)).

(** Lines 275-289 and 328-343: one sub-field of a sub-struct.  [src] is
    the dict the explicit value is read from, when there is one. *)
Definition process_sub_field (new_key : string) (src : option (dict json))
    (imported : option (dict json)) (sub_field : field)
    (pt : dict json * dict string) : outcome (dict json * dict string) :=
  let sub_fname := f_name sub_field in
  let sub_ftype := f_type sub_field in
  let sub_ftype_lower := PyStr.lower sub_ftype in
  let v0 :=
    match src with
    | Some d => default (JStr "") (dict_get sub_fname d)
    | None => zero_value sub_ftype_lower
    end in
  let v1 := default v0 (imported_value imported new_key) in
  let! v2 :=
    if PyStr.contains "::" sub_ftype then
      if is_empty_or_none v1 then Ok (JStr "")
      else match py_str v1 with
           | Some s => Ok (JStr s)
           | None => Unmodelled
           end
    else Ok v1 in
  let v3 :=
    if String.eqb sub_ftype_lower "string" && negb (is_list v2)
    then JList [v2] else v2 in
  Ok (dict_set new_key v3 (fst pt), dict_set new_key sub_ftype (snd pt)).

(** [arr[idx]] when [isinstance(arr, list) and len(arr) > idx and
    isinstance(arr[idx], dict)] *)
Definition array_element_dict (arr : json) (idx : nat) : option (dict json) :=
  match arr with
  | JList l =>
      match l !! idx with
      | Some (JDict d) => Some d
      | _ => None
      end
  | _ => None
  end.

(** The field list the array-of-struct branch iterates (line 273) *)
Definition array_struct_fields (sub_struct_def : struct_def) : list field :=
  fields_or_empty sub_struct_def.

(** Lines 272-289 *)
Definition process_struct_array (fname : string) (arr : json) (size : Z)
    (imported : option (dict json)) (sub_struct_def : struct_def)
    (pt : dict json * dict string) : outcome (dict json * dict string) :=
  for_each
    (λ idx,
       for_each
         (λ sub_field,
            process_sub_field
              (fname +:+ PyStr.str_of_nat idx +:+ ":" +:+ f_name sub_field)
              (array_element_dict arr idx) imported sub_field)
         (array_struct_fields sub_struct_def))
    (seq 0 (Z.to_nat size)) pt.

(** Lines 251-292: an [array] field that declares a [subtype] *)
Definition process_array_field (tobj : dict json)
    (imported : option (dict json)) (f : field) (subtype : string)
    (st : state) : outcome state :=
  let fname := f_name f in
  let subtype_lower := PyStr.lower subtype in
  let arr := array_source tobj imported fname in
  let size := default 1%Z (f_array_size f) in
  if in_strs subtype_lower primitives then
    let! new_val :=
      primitive_array_value arr size (array_default subtype_lower) in
    Ok (State (st_structs st)
              (dict_set fname new_val (st_params st))
              (dict_set fname subtype (st_types st)))
  else
    match st_structs st !! subtype with
    | Some sub_struct_def =>
        if struct_truthy sub_struct_def then
          let! pt :=
            process_struct_array fname arr size imported sub_struct_def
              (st_params st, st_types st) in
          Ok (State (st_structs st) (fst pt) (snd pt))
        else
          Ok (State (st_structs st)
                    (dict_set fname arr (st_params st))
                    (dict_set fname "array" (st_types st)))
    | None =>
        Ok (State (st_structs st)
                  (dict_set fname arr (st_params st))
                  (dict_set fname "array" (st_types st)))
    end.

(** [enum_def] of lines 299-302 and of lines 163-166, 352-355 *)
Definition lookup_enum (enums : gmap string enum_def) (ftype : string)
  : option enum_def :=
  match enums !! ftype with
  | Some ed =>
      if enum_truthy ed then Some ed
      else enums !! PyStr.last_part (PyStr.split "::" ftype)
  | None => enums !! PyStr.last_part (PyStr.split "::" ftype)
  end.

(** [x in ev]; a list or a dict is unhashable and raises. *)
Definition key_in (v : json) (ev : dict enum_info) : outcome bool :=
  match v with
  | JStr s => Ok (dict_mem s ev)
  | JList _ | JDict _ => Raise
  | _ => Ok false
  end.

(** The first key whose raw value prints as [s] (lines 306-309) *)
Definition match_raw_value (ev : dict enum_info) (s : string)
  : option string :=
  fst <$> find (λ kv, String.eqb (raw_value_str (snd kv)) s) ev.

(** [list(ev.keys())[0] if ev else ""] *)
Definition first_key (ev : dict enum_info) : string :=
  match ev with
  | [] => ""
  | (k, _) :: _ => k
  end.

(** Lines 304-311 *)
Definition resolve_enum_value (ev : dict enum_info) (new_val : json)
  : outcome json :=
  let! is_key := key_in new_val ev in
  let! v1 :=
    if is_key then Ok new_val
    else match py_str new_val with
         | None => Unmodelled
         | Some s =>
             if dict_mem s ev then Ok new_val
             else Ok (match match_raw_value ev s with
                      | Some k => JStr k
                      | None => new_val
                      end)
         end in
  let! is_key' := key_in v1 ev in
  if is_key' then Ok v1 else Ok (JStr (first_key ev)).

(** [new_val] of lines 294-297 *)
Definition plain_source (tobj : dict json) (imported : option (dict json))
    (fname ftype_lower : string) : json :=
  let default_val :=
    default (zero_value ftype_lower) (dict_get fname tobj) in
  default default_val (imported_value imported fname).

(** [new_val] of lines 294-313: a recognized primitive or an enum
    reference *)
Definition plain_value (enums : gmap string enum_def) (tobj : dict json)
    (imported : option (dict json)) (fname ftype : string) : outcome json :=
  let ftype_lower := PyStr.lower ftype in
  let v0 := plain_source tobj imported fname ftype_lower in
  let! v1 :=
    if PyStr.contains "::" ftype then
      match lookup_enum enums ftype with
      | Some ed =>
          if enum_truthy ed then resolve_enum_value (values_or_empty ed) v0
          else Ok v0
      | None => Ok v0
      end
    else Ok v0 in
  Ok (if String.eqb ftype_lower "string" && negb (is_list v1)
      then JList [v1] else v1).

(** Lines 293-315 *)
Definition process_plain_field (enums : gmap string enum_def)
    (tobj : dict json) (imported : option (dict json)) (fname ftype : string)
    (st : state) : outcome state :=
  let! new_val := plain_value enums tobj imported fname ftype in
  Ok (State (st_structs st)
            (dict_set fname new_val (st_params st))
            (dict_set fname ftype (st_types st))).

(** Lines 319-326: the [while parent] loop.  It extends the field list
    of the struct named [target] in the template itself. *)
Fixpoint merge_parent_fields (fuel : nat) (structs : gmap string struct_def)
    (target : string) (parent : option string)
  : outcome (gmap string struct_def) :=
  match truthy_name parent with
  | None => Ok structs
  | Some p =>
      match fuel with
      | O => OutOfFuel
      | S fuel' =>
          match structs !! p with
          | Some parent_struct_def =>
              if struct_truthy parent_struct_def then
                match structs !! target with
                | Some sub_struct_def =>
                    match s_fields sub_struct_def with
                    | Some fs =>
                        merge_parent_fields fuel'
                          (<[target :=
                               StructDef (s_parent sub_struct_def)
                                 (Some (fs ++ fields_or_empty parent_struct_def))]>
                             structs)
                          target (s_parent parent_struct_def)
                    | None => Raise
                    end
                | None => Raise
                end
              else Ok structs
          | None => Ok structs
          end
      end
  end.

(** [template_obj[fname]] when [fname in template_obj and
    isinstance(template_obj[fname], dict)] *)
Definition object_default_dict (tobj : dict json) (fname : string)
  : option (dict json) :=
  match dict_get fname tobj with
  | Some (JDict d) => Some d
  | _ => None
  end.

(** The field list the inline-struct branch iterates (line 327), with
    the struct table as the [while] loop leaves it *)
Definition inline_struct_fields (fuel : nat) (structs : gmap string struct_def)
    (ftype : string) : outcome (gmap string struct_def * list field) :=
  match structs !! ftype with
  | Some sub_struct_def =>
      if struct_truthy sub_struct_def then
        let! structs' :=
          merge_parent_fields fuel structs ftype (s_parent sub_struct_def) in
        Ok (structs',
            fields_or_empty (default empty_struct (structs' !! ftype)))
      else Ok (structs, [])
  | None => Ok (structs, [])
  end.

(** Lines 316-343: any other type names an inline sub-struct *)
Definition process_struct_field (fuel : nat) (tobj : dict json)
    (imported : option (dict json)) (fname ftype : string) (st : state)
  : outcome state :=
  let! sf := inline_struct_fields fuel (st_structs st) ftype in
  let! pt :=
    for_each
      (λ sub_field,
         process_sub_field (fname +:+ ":" +:+ f_name sub_field)
           (object_default_dict tobj fname) imported sub_field)
      (snd sf) (st_params st, st_types st) in
  Ok (State (fst sf) (fst pt) (snd pt)).

(** [ftype] after lines 247-249 *)
Definition effective_type (f : field) : string :=
  if String.eqb (PyStr.lower (f_type f)) "object_reference"
  then "string" else f_type f.

(** The subtype, when line 251 takes the array branch *)
Definition array_subtype (f : field) : option string :=
  if String.eqb (PyStr.lower (effective_type f)) "array"
  then f_subtype f else None.

(** The test of line 293 *)
Definition is_plain_type (ftype : string) : bool :=
  in_strs (PyStr.lower ftype) recognized || PyStr.contains "::" ftype.

(** Lines 245-343: the body of the loop over [all_fields] *)
Definition process_field (fuel : nat) (enums : gmap string enum_def)
    (tobj : dict json) (imported : option (dict json)) (f : field)
    (st : state) : outcome state :=
  let fname := f_name f in
  let ftype := effective_type f in
  match array_subtype f with
  | Some subtype => process_array_field tobj imported f subtype st
  | None =>
      if is_plain_type ftype
      then process_plain_field enums tobj imported fname ftype st
      else process_struct_field fuel tobj imported fname ftype st
  end.

Definition process_fields (fuel : nat) (enums : gmap string enum_def)
    (tobj : dict json) (imported : option (dict json)) (fs : list field)
    (st : state) : outcome state :=
  for_each (process_field fuel enums tobj imported) fs st.

(** Lines 236-239: the two implicit range-spawning parameters *)
Definition range_in_key : string := "tags:RangeSpawning:rangeIn".
Definition range_out_key : string := "tags:RangeSpawning:rangeOut".

Definition initial_params (imported : option (dict json)) : dict json :=
  dict_set range_out_key
    (default (JFloat "20.0") (imported_value imported range_out_key))
    (dict_set range_in_key
       (default (JFloat "500.0") (imported_value imported range_in_key)) []).

Definition initial_types : dict string :=
  dict_set range_out_key "float" (dict_set range_in_key "float" []).

(** Lines 229-343 of [apply_hson_template_to_object], from the entry
    [template_obj] selected for the object to the [params] and [types]
    handed to [update_hson_parameters].  [None] stands for the early
    [return False, ...] of lines 231 and 234. *)
Definition apply_hson_template_to_object (fuel : nat)
    (structs : gmap string struct_def) (enums : gmap string enum_def)
    (template_obj : dict json) (imported_params : option (dict json))
  : outcome (option state) :=
  match dict_get "struct" template_obj with
  | Some (JStr object_struct) =>
      if String.eqb object_struct "" then Ok None
      else
        match structs !! object_struct with
        | Some struct_def =>
            if struct_truthy struct_def then
              let! all_fields := get_struct_fields structs object_struct in
              let! st :=
                process_fields fuel enums template_obj imported_params
                  all_fields
                  (State structs (initial_params imported_params)
                     initial_types) in
              Ok (Some st)
            else Ok None
        | None => Ok None
        end
  | Some JNull | None => Ok None
  | Some _ => Unmodelled
  end.






(** *** Enum options of a parameter record (lines 362-375) *)

(** Lines 365-373, one option *)
Definition add_enum_option (ctx_is_obj : bool) (imported_val : string)
    (kv : string * enum_info) (acc : hson_param * bool) : hson_param * bool :=
  let '(item, selected_found) := acc in
  let enum_key := fst kv in
  let idx := length (enum_items item) in
  let item1 :=
    with_enum_items (enum_items item ++ [EnumItem false enum_key]) item in
  let enum_val := PyStr.lower (PyStr.strip (raw_value_str (snd kv))) in
  if String.eqb imported_val (PyStr.lower enum_key)
     || String.eqb imported_val enum_val
  then (set_selected ctx_is_obj idx true item1, true)
  else (item1, selected_found).

Definition select_enum_options (ctx_is_obj : bool) (ev : dict enum_info)
    (item : hson_param) : hson_param :=
  let imported_val := PyStr.lower (PyStr.strip (string_value item)) in
  let '(item', selected_found) :=
    fold_left (λ acc kv, add_enum_option ctx_is_obj imported_val kv acc)
      ev (with_enum_items [] item, false) in
  if negb selected_found && (0 <? length (enum_items item'))
  then set_selected ctx_is_obj 0 true item'
  else item'.

(** Lines 348-375 *)
Definition select_enums_of_field (ctx_is_obj : bool)
    (enums : gmap string enum_def) (ps : list hson_param)
    (entry : string * string) : list hson_param :=
  let '(field_name, ftype) := entry in
  if PyStr.contains "::" ftype then
    match lookup_enum enums ftype with
    | Some ed =>
        if enum_truthy ed then
          map (λ item,
                 if PyStr.startswith (field_name +:+ ":enum") (p_name item)
                 then select_enum_options ctx_is_obj (values_or_empty ed) item
                 else item)
              ps
        else ps
    | None => ps
    end
  else ps.

Definition select_enums (ctx_is_obj : bool) (enums : gmap string enum_def)
    (types : dict string) (ps : list hson_param) : list hson_param :=
  fold_left (select_enums_of_field ctx_is_obj enums) types ps.

End HsonTemplate.

Import HsonTemplate.

(** ** [hson_module.py] *)

Module HsonModule.

(** [new_key = f"{parent_key}{sep}{k}" if parent_key else k]; every call
    in the repository leaves [sep] at its default [":"]. *)
Definition child_key (parent_key k : string) : string :=
  if String.eqb parent_key "" then k else parent_key +:+ ":" +:+ k.

Definition flatten_items (rec : json → string → dict json)
    (parent_key : string) : dict json → dict json → dict json :=
  fix go (d : dict json) (items : dict json) : dict json :=
    match d with
    | [] => items
    | (k, v) :: d' =>
        let new_key := child_key parent_key k in
        go d' (match v with
               | JDict _ => dict_update items (rec v new_key)
               | _ => dict_set new_key v items
               end)
    end.

Fixpoint flatten_value (v : json) (parent_key : string) : dict json :=
  match v with
  | JDict d => flatten_items flatten_value parent_key d []
  | _ => []
  end.

(** [flatten_dict(d, parent_key)] (lines 73-81) *)
Definition flatten_dict (d : dict json) (parent_key : string) : dict json :=
  flatten_value (JDict d) parent_key.

End HsonModule.

Import HsonModule.

(** ** [blendhog_addon.py]: the parameter transfer *)

Module BlendhogAddon.

(** A target parameter of [obj.json_parameters].  Its class belongs to
    another add-on; the attributes the transfer touches are taken to be
    there, except [list_value], [enum_items] and [enum_value], which are
    [None] when the class has no such attribute (the code tests for
    them, or raises [AttributeError] where it does not).  The options
    of a target are taken to be plain records of a flag and a value,
    with no update callback of their own: the code calls
    [_force_update_enum_selection] itself. *)
Record json_param : Type := JsonParam {
  j_name : string;
  j_float_value : string;
  j_int_value : Z;
  j_bool_value : bool;
  j_string_value : string;
  j_list_value : option (list string);
  j_enum_items : option (list enum_item);
  j_enum_value : option string
}.

Definition with_j_enum_items (l : list enum_item) (j : json_param)
  : json_param :=
  JsonParam (j_name j) (j_float_value j) (j_int_value j) (j_bool_value j)
    (j_string_value j) (j_list_value j) (Some l) (j_enum_value j).

Definition with_j_string_value (s : string) (j : json_param) : json_param :=
  JsonParam (j_name j) (j_float_value j) (j_int_value j) (j_bool_value j)
    s (j_list_value j) (j_enum_items j) (j_enum_value j).

(** [if hasattr(j_item, "enum_value"): j_item.enum_value = s] *)
Definition with_j_enum_value (s : string) (j : json_param) : json_param :=
  JsonParam (j_name j) (j_float_value j) (j_int_value j) (j_bool_value j)
    (j_string_value j) (j_list_value j) (j_enum_items j)
    (match j_enum_value j with Some _ => Some s | None => None end).

(** [bpy.context.object], as [_force_update_enum_selection] reads it *)
Inductive context_object : Type :=
| NoParameters      (* [None], or an object without [json_parameters] *)
| TheObject         (* the object whose parameters are transferred *)
| AnotherObject (ps : list json_param).
                    (* another object, with these [json_parameters] *)

Definition type_tags : list string :=
  ["float"; "int"; "string"; "bool"; "list"].

(** [load_special_aliases] (lines 129-153), from [raw_groups] on: the
    table is created as a list and then written by string key, which
    raises at the first group that passes the validation. *)
Definition valid_group (group : json) : bool :=
  match group with
  | JList l => 2 <=? length l
  | _ => false
  end.

Definition load_special_aliases (raw_groups : list json)
  : outcome (dict (list string)) :=
  if existsb valid_group raw_groups then Raise else Ok [].

(** The module-level [special_aliases = []] and
    [excluded_parameters = []]; no code assigns them afterwards. *)
Definition special_aliases_initial : dict (list string) := [].
Definition excluded_parameters_initial : list string := [].

(** [strip_hson_type] (lines 165-171) *)
Definition strip_hson_type (raw_name : string) : string :=
  let parts := PyStr.split_char ":" raw_name in
  let base :=
    if (1 <? length parts)
       && in_strs (PyStr.lower (PyStr.last_part parts)) type_tags
    then PyStr.join ":" (removelast parts)
    else raw_name in
  PyStr.strip (PyStr.lower base).

Definition is_bracket (c : ascii) : bool :=
  existsb (Ascii.eqb c) ["["; "]"; "{"; "}"; "("; ")"; "<"; ">"]%char.

Definition is_quote (c : ascii) : bool :=
  Ascii.eqb c "'"%char || Ascii.eqb c "034"%char.

Definition is_segment_char (c : ascii) : bool :=
  PyStr.is_digit c || PyStr.is_lower c || Ascii.eqb c "_"%char
  || Ascii.eqb c "/"%char.

Definition non_empty (s : string) : bool := negb (String.eqb s "").

(** [s[1:-1]] *)
Definition drop_ends (s : string) : string :=
  match s with
  | EmptyString => EmptyString
  | String _ s' => String.rev (match String.rev s' with
                               | EmptyString => EmptyString
                               | String _ r => r
                               end)
  end.

(** [extract_json_segments] (lines 173-183) *)
Definition extract_json_segments (raw_name : string) : list string :=
  let s := PyStr.strip raw_name in
  if PyStr.startswith "[" s && PyStr.endswith "]" s && PyStr.contains "," s
  then
    let inner := PyStr.strip (drop_ends s) in
    let parts :=
      map (λ seg, PyStr.strip_with is_quote (PyStr.strip seg))
          (PyStr.split_char "," inner) in
    map PyStr.lower (List.filter non_empty parts)
  else
    let s1 := PyStr.strip_with is_bracket s in
    let s2 := PyStr.strip_with is_quote s1 in
    let s3 := PyStr.lower s2 in
    let s4 := PyStr.filter_chars is_segment_char s3 in
    List.filter non_empty (PyStr.split_char "/" s4).

(** [normalize_segment] (lines 185-187) *)
Definition normalize_segment (seg : string) : string :=
  PyStr.filter_chars (λ c, PyStr.is_digit c || PyStr.is_lower c)
    (PyStr.lower seg).

(** [match_segment] (lines 189-197) *)
Definition match_segment (base_h : string) (segs : list string) : bool :=
  let base_parts := map normalize_segment (PyStr.split_char ":" base_h) in
  let segs_norm := map normalize_segment segs in
  existsb
    (λ i, bool_decide (take (length base_parts) (drop i segs_norm) = base_parts))
    (seq 0 (S (length segs_norm) - length base_parts)).

(** [match_alias_candidate] (lines 199-209), on the target's name *)
Definition match_alias_candidate (name candidate : string) : bool :=
  let cand_segs := extract_json_segments candidate in
  match cand_segs with
  | [] => false
  | _ =>
      let j_segs := extract_json_segments name in
      let typed_leaf :=
        match cand_segs, j_segs with
        | [base], [j0; j1] =>
            String.eqb j0 base && in_strs j1 ["float"; "int"; "bool"; "string"]
        | _, _ => false
        end in
      if typed_leaf then true
      else forallb (λ c, existsb (λ js, String.eqb c js) j_segs) cand_segs
  end.

(** [infer_type_from_hson] (lines 211-222) on an
    [HSONParametersPropertyGroup], which has every attribute tested *)
Definition infer_type_from_hson (h_item : hson_param) : string :=
  match enum_items h_item with
  | _ :: _ => "enum"
  | [] => "float"
  end.

(** [for h_enum, j_enum in zip(h_item.enum_items, j_item.enum_items):
    j_enum.selected = h_enum.selected] *)
Fixpoint copy_selected (hs js : list enum_item) : list enum_item :=
  match hs, js with
  | h :: hs', j :: js' =>
      EnumItem (ei_selected h) (ei_value j) :: copy_selected hs' js'
  | _, _ => js
  end.

(** [copy_value_by_type] (lines 224-261).  [execute] never calls it
    with [dt = "enum"]: that case goes to [transfer_enum_value]. *)
Definition copy_value_by_type (h_item : hson_param) (j_item : json_param)
    (dt : string) : outcome json_param :=
  let 'JsonParam n fv iv bv sv lv ei ev := j_item in
  if String.eqb dt "float" then
    Ok (JsonParam n (float_value h_item) iv bv sv lv ei ev)
  else if String.eqb dt "int" then
    Ok (JsonParam n fv (int_value h_item) bv sv lv ei ev)
  else if String.eqb dt "bool" then
    Ok (JsonParam n fv iv (bool_value h_item) sv lv ei ev)
  else if String.eqb dt "string" then
    match list_value h_item with
    | first :: _ => Ok (JsonParam n fv iv bv first lv ei ev)
    | [] => Ok (JsonParam n fv iv bv (string_value h_item) lv ei ev)
    end
  else if String.eqb dt "list" then
    match lv with
    | Some _ => Ok (JsonParam n fv iv bv sv (Some (list_value h_item)) ei ev)
    | None =>
        match list_value h_item with
        | first :: _ => Ok (JsonParam n fv iv bv first lv ei ev)
        | [] => Raise
        end
    end
  else if String.eqb dt "enum" then
    match ei with
    | Some items =>
        let items' := copy_selected (enum_items h_item) items in
        match List.find ei_selected items' with
        | Some selected =>
            Ok (with_j_enum_value (ei_value selected)
                  (JsonParam n fv iv bv (ei_value selected) lv
                     (Some items') ev))
        | None => Ok (JsonParam n fv iv bv sv lv (Some items') ev)
        end
    | None => Ok j_item
    end
  else Raise.

(** The state of [execute] for one object *)
Record transfer_state : Type := TransferState {
  json_parameters : list json_param;
  transferred : gset string;
  not_transferred : gset string
}.

(** Positions of the entries of [l] that satisfy [p] *)
Definition positions {A} (p : A → bool) (l : list A) : list nat :=
  List.filter (λ i, match l !! i with Some a => p a | None => false end)
    (seq 0 (length l)).

(** [full_path] of a target (lines 349-350) *)
Definition full_path (name : string) : string :=
  PyStr.join "/" (extract_json_segments name).

Definition is_excluded (excluded_parameters : list string) (name : string)
  : bool :=
  in_strs (full_path name) excluded_parameters.

(** Lines 340-344: the first alias candidate with a match *)
Fixpoint alias_matches (names : list string) (candidates : list string)
  : list nat :=
  match candidates with
  | [] => []
  | candidate :: rest =>
      match positions (λ n, match_alias_candidate n candidate) names with
      | [] => alias_matches names rest
      | this_round => this_round
      end
  end.

(** [matches] (lines 338-344), as positions in [json_entries];
    [json_with_segs] is computed once, before the loop (line 330). *)
Definition find_matches (special_aliases : dict (list string))
    (json_with_segs : list (list string)) (names : list string)
    (base_h : string) : list nat :=
  match positions (match_segment base_h) json_with_segs with
  | [] =>
      match dict_get base_h special_aliases with
      | Some candidates => alias_matches names candidates
      | None => []
      end
  | direct => direct
  end.

Definition add_transferred (raw_h : string) (st : transfer_state)
  : transfer_state :=
  TransferState (json_parameters st) ({[raw_h]} ∪ transferred st)
    (not_transferred st).

Definition add_not_transferred (raw_h : string) (st : transfer_state)
  : transfer_state :=
  TransferState (json_parameters st) (transferred st)
    ({[raw_h]} ∪ not_transferred st).

(** [hasattr(p, "enum_items")] *)
Definition has_enum_items (p : json_param) : bool :=
  match j_enum_items p with Some _ => true | None => false end.

(** A parameter whose name holds [enum] and that has no [enum_items]:
    line 268 raises on it. *)
Definition lacks_enum_items (p : json_param) : bool :=
  PyStr.contains "enum" (j_name p) && negb (has_enum_items p).

Definition clear_option (it : enum_item) : enum_item :=
  EnumItem false (ei_value it).

(** [_force_update_enum_selection(enum_item, bpy.context.object)]
    (lines 263-279), where [enum_item] is the option at [k] of
    [j_item], the parameter at [i] of [params].  Options are compared
    by identity, so only [j_item], in the object itself, can be the
    parent.  The result is the parameter as the call leaves it and
    whether the call returned. *)
Definition force_update_enum_selection (ctx : context_object)
    (params : list json_param) (i k : nat) (j_item : json_param)
  : json_param * bool :=
  match ctx with
  | NoParameters => (j_item, false)
  | AnotherObject ps => (j_item, negb (existsb lacks_enum_items ps))
  | TheObject =>
      if existsb lacks_enum_items (take i params) then (j_item, false)
      else if PyStr.contains "enum" (j_name j_item) then
        match j_enum_items j_item with
        | Some items =>
            match items !! k with
            | Some self =>
                if ei_selected self then
                  (with_j_string_value (ei_value self)
                     (with_j_enum_items
                        (imap (λ n it, if Nat.eqb n k then it
                                       else clear_option it) items)
                        j_item),
                   true)
                else (j_item, true)
            | None => (j_item, true)
            end
        | None => (j_item, false)
        end
      else (j_item, negb (existsb lacks_enum_items (drop (S i) params)))
  end.

(** [transfer_enum_value] (lines 281-315); the result is the target as
    the call leaves it and whether the call returned. *)
Definition transfer_enum_value (ctx : context_object)
    (params : list json_param) (i : nat) (h_item : hson_param)
    (j_item : json_param) : json_param * bool :=
  match enum_items h_item with
  | [] => (j_item, true)
  | _ :: _ =>
      let selected_value :=
        ei_value <$> List.find ei_selected (enum_items h_item) in
      match j_enum_items j_item with
      | None => (j_item, false)
      | Some items =>
          let cleared := with_j_enum_items (map clear_option items) j_item in
          match selected_value with
          | None => (cleared, true)
          | Some sv =>
              let found :=
                head (positions
                        (λ it, String.eqb (PyStr.lower (ei_value it))
                                          (PyStr.lower sv))
                        items) in
              let '(j1, ok) :=
                match found with
                | Some k =>
                    force_update_enum_selection ctx params i k
                      (with_j_enum_items
                         (alter (λ it, EnumItem true (ei_value it)) k
                                (map clear_option items))
                         j_item)
                | None => (cleared, true)
                end in
              if ok
              then (with_j_string_value sv (with_j_enum_value sv j1), true)
              else (j1, false)
          end
      end
  end.

(** Lines 349-376: the body of the loop over [matches].  An exception
    of the copy is caught (lines 374-376) and what the copy had written
    before it stays written.  After [transfer_enum_value], line 367
    reads [j_item.enum_items]. *)
Definition transfer_to (ctx : context_object)
    (excluded_parameters : list string)
    (h_item : hson_param) (i : nat) (st : transfer_state)
  : outcome transfer_state :=
  let raw_h := p_name h_item in
  match json_parameters st !! i with
  | None => Ok st
  | Some j_item =>
      let segs := extract_json_segments (j_name j_item) in
      if is_excluded excluded_parameters (j_name j_item) then Ok st
      else
        let dt :=
          match segs with
          | [] => infer_type_from_hson h_item
          | _ => if in_strs (PyStr.last_part segs) type_tags
                 then PyStr.last_part segs
                 else infer_type_from_hson h_item
          end in
        if String.eqb dt "" then Ok (add_not_transferred raw_h st)
        else if String.eqb dt "enum" then
          let '(j_item', ok) :=
            transfer_enum_value ctx (json_parameters st) i h_item j_item in
          let st1 :=
            TransferState (<[i := j_item']> (json_parameters st))
              (transferred st) (not_transferred st) in
          Ok (if ok && has_enum_items j_item'
              then add_transferred raw_h st1
              else add_not_transferred raw_h st1)
        else
          match copy_value_by_type h_item j_item dt with
          | Ok j_item' =>
              Ok (add_transferred raw_h
                    (TransferState (<[i := j_item']> (json_parameters st))
                       (transferred st) (not_transferred st)))
          | Raise => Ok (add_not_transferred raw_h st)
          | Unmodelled => Unmodelled
          | OutOfFuel => OutOfFuel
          end
  end.

(** Lines 336-376: the body of the loop over [obj.hson_parameters] *)
Definition transfer_item (ctx : context_object)
    (special_aliases : dict (list string))
    (excluded_parameters : list string) (json_with_segs : list (list string))
    (h_item : hson_param) (st : transfer_state) : outcome transfer_state :=
  let raw_h := p_name h_item in
  let base_h := strip_hson_type raw_h in
  let matches :=
    find_matches special_aliases json_with_segs
      (map j_name (json_parameters st)) base_h in
  match matches with
  | [] => Ok (add_not_transferred raw_h st)
  | _ => for_each (transfer_to ctx excluded_parameters h_item) matches st
  end.

(** Lines 329-376 of [execute], for one selected object *)
Definition execute (ctx : context_object)
    (special_aliases : dict (list string))
    (excluded_parameters : list string) (hson_parameters : list hson_param)
    (json_entries : list json_param) : outcome transfer_state :=
  let json_with_segs :=
    map (λ j, extract_json_segments (j_name j)) json_entries in
  for_each
    (transfer_item ctx special_aliases excluded_parameters json_with_segs)
    hson_parameters (TransferState json_entries ∅ ∅).

End BlendhogAddon.

Import BlendhogAddon.

(** ** [hson_template.py]: the object lookup and the parameter records *)

Module Records.

(** [strip_template_prefix] (lines 25-30): the name must start with one
    or more digits and capitals and an underscore, and what follows, up
    to the end, is the result.  In the pattern the rest is matched by
    [.], which does not match a newline, up to [$], which also matches
    just before a newline that ends the string. *)
Definition is_prefix_char (c : ascii) : bool :=
  PyStr.is_digit c || PyStr.is_upper c.

Definition not_newline (c : ascii) : bool := negb (Ascii.eqb c "010"%char).

Definition strip_template_prefix (name : string) : string :=
  let head := PyStr.take_while is_prefix_char name in
  let rest := PyStr.drop_while is_prefix_char name in
  if String.eqb head "" then name
  else
    match rest with
    | String c tail =>
        if Ascii.eqb c "_"%char then
          let body := PyStr.take_while not_newline tail in
          let after := PyStr.drop_while not_newline tail in
          if String.eqb after "" || String.eqb after (String "010"%char "")
          then body else name
        else name
    | EmptyString => name
    end.

(** [object_type] (line 219): the part of the name before the first dot *)
Definition object_type (raw_type : string) : string :=
  match PyStr.split_char "." raw_type with
  | first :: _ => first
  | [] => raw_type
  end.

(** A dict that is there and not empty ([if template_obj:]) *)
Definition non_empty_entry (o : option (dict json)) : option (dict json) :=
  match o with
  | Some (kv :: t) => Some (kv :: t)
  | _ => None
  end.

(** [template_obj] (lines 220-228); [None] is the early
    [return False, "Template for object type not found.", {}]. *)
Definition find_template_obj (objects_dict : dict (dict json))
    (object_type : string) : option (dict json) :=
  match non_empty_entry (dict_get object_type objects_dict) with
  | Some template_obj => Some template_obj
  | None =>
      non_empty_entry
        (snd <$> find (λ kv, String.eqb (strip_template_prefix (fst kv))
                                        object_type)
                      objects_dict)
  end.

(** [update_hson_parameters] (lines 62-145): the type tag of a record
    (lines 81-103).  [isinstance(n, (int, float))] holds for a [bool]. *)
Definition int_types : list string :=
  ["int"; "int8"; "int16"; "int32"; "int64";
   "uint32"; "uint8"; "uint16"; "uint64"].

Definition is_number (v : json) : bool :=
  match v with
  | JBool _ | JInt _ | JFloat _ => true
  | _ => false
  end.

Definition resolved_type (field_type : string) (value : json) : string :=
  let ft_lower := PyStr.lower field_type in
  if PyStr.contains "::" field_type then "enum"
  else
    match value with
    | JList l =>
        if Nat.eqb (length l) 3 && forallb is_number l then "vector"
        else "list"
    | _ =>
        if in_strs ft_lower int_types then "int"
        else if in_strs ft_lower ["float"; "float32"] then "float"
        else if PyStr.contains "bool" ft_lower then "bool"
        else if String.eqb ft_lower "string" then "list"
        else if String.eqb ft_lower "vector3" then "vector"
        else "list"
    end.

(** [lookup_key] (lines 76-80) *)
Definition is_square_bracket (c : ascii) : bool :=
  Ascii.eqb c "["%char || Ascii.eqb c "]"%char.

Definition lookup_key (parent_key key : string) : string :=
  if String.eqb parent_key "" then key
  else PyStr.filter_chars (λ c, negb (is_square_bracket c)) parent_key
       +:+ ":" +:+ key.

(** [item.name] of the record of one leaf (lines 76-105) *)
Definition record_name (types : dict string) (parent_key key : string)
    (value : json) : string :=
  let lk := lookup_key parent_key key in
  lk +:+ ":" +:+ resolved_type (default "" (dict_get lk types)) value.

(** [for idx, sub_value in enumerate(value): process_nested_params(
    sub_value, f"{full_key}[{idx}]")] (lines 73-74), from [idx] on *)
Definition element_records (rec : json → string → list string)
    (full_key : string) : nat → list json → list string :=
  fix each (idx : nat) (l : list json) : list string :=
    match l with
    | [] => []
    | sub_value :: l' =>
        rec sub_value (full_key +:+ "[" +:+ PyStr.str_of_nat idx +:+ "]")
        ++ each (S idx) l'
    end.

(** The records one entry [(key, value)] of a map adds *)
Definition entry_records (rec : json → string → list string)
    (types : dict string) (parent_key : string) (kv : string * json)
  : list string :=
  let '(key, value) := kv in
  let full_key := child_key parent_key key in
  match value with
  | JDict _ => rec value full_key
  | JList l =>
      if forallb is_dict l then element_records rec full_key 0 l
      else [record_name types parent_key key value]
  | _ => [record_name types parent_key key value]
  end.

(** [process_nested_params] (lines 67-142): the names of the records
    it adds, in order.  A record gets its name before its value is set,
    and setting the value cannot undo it (lines 104-142). *)
Fixpoint record_names (types : dict string) (v : json) (parent_key : string)
  : list string :=
  match v with
  | JDict nested =>
      flat_map (entry_records (record_names types) types parent_key) nested
  | _ => []
  end.

(** The names of [obj.hson_parameters] after
    [update_hson_parameters(obj, params, types)] *)
Definition update_hson_parameters (params : dict json) (types : dict string)
  : list string :=
  record_names types (nest_parameters params) "".

(** The length of the tuple [apply_hson_template_to_object] returns for
    an object of type [object_type].  The early returns of lines 231
    and 234 are pairs [(False, message)]; the return of line 228, the
    final return of line 376 and the return of the [except] clause
    (line 378, which also takes over when lines 344-375 raise) are
    triples [(success, message, types)]. *)
Definition returned_length (fuel : nat) (structs : gmap string struct_def)
    (enums : gmap string enum_def) (objects_dict : dict (dict json))
    (object_type : string) (imported_params : option (dict json))
  : outcome nat :=
  match find_template_obj objects_dict object_type with
  | None => Ok 3
  | Some template_obj =>
      match apply_hson_template_to_object fuel structs enums template_obj
              imported_params with
      | Ok None => Ok 2
      | Ok (Some _) => Ok 3
      | Raise => Ok 3
      | Unmodelled => Unmodelled
      | OutOfFuel => OutOfFuel
      end
  end.

(** [success, message, types = apply_hson_template_to_object(...)]
    ([hson_module.py] line 212, outside any [try]; the operator of
    [hson_template.py] catches the [ValueError], lines 417-421) *)
Definition unpack_triple (n : nat) : outcome unit :=
  if Nat.eqb n 3 then Ok tt else Raise.

(** [ok, msg, *rest = apply_hson_template_to_object(...)]
    ([xml_module.py] line 319) *)
Definition unpack_starred (n : nat) : outcome unit :=
  if 2 <=? n then Ok tt else Raise.

(** [OBJECT_PT_HSONProperties.draw] ([__init__.py] lines 108-156):
    the text before the last colon of a record's name labels the
    record, the text after it chooses the widget. *)
Inductive widget : Type :=
| ObjectField          (* [object_value] *)
| EnumBox              (* the box of options *)
| FloatField
| IntField
| BoolField
| VectorField
| ListBox
| StringField          (* [string_value] *)
| StringFieldWithPicker.  (* [string_value] and the eyedropper *)

Definition base_name (name : string) : string :=
  PyStr.join ":" (removelast (PyStr.split_char ":" name)).

Definition drawn_widget (name : string) : widget :=
  let data_type := PyStr.last_part (PyStr.split_char ":" name) in
  if String.eqb data_type "object_reference" then ObjectField
  else if String.eqb data_type "enum" then EnumBox
  else if String.eqb data_type "float" then FloatField
  else if String.eqb data_type "int" then IntField
  else if String.eqb data_type "bool" then BoolField
  else if String.eqb data_type "vector" then VectorField
  else if String.eqb data_type "list" then ListBox
  else if String.eqb data_type "string" then StringField
  else StringFieldWithPicker.

(** [OBJECT_OT_ApplyHSONTemplate.execute] ([hson_template.py] lines
    428-450): what is reported as the value of a record *)
Inductive reported : Type :=
| FloatValue           (* [float_value] *)
| BoolValue            (* [bool_value] *)
| StringValue          (* [string_value] *)
| ListTuple            (* [tuple(list_value)] *)
| ListValues           (* the non-empty entries of [list_value] *)
| UnknownValue.        (* the text [(unknown)] *)

Definition reported_value (name : string) : reported :=
  if PyStr.endswith ":float" name then FloatValue
  else if PyStr.endswith ":bool" name then BoolValue
  else if PyStr.endswith ":enum" name then StringValue
  else if PyStr.endswith ":vector" name then ListTuple
  else if PyStr.endswith ":list" name then ListValues
  else UnknownValue.

End Records.

Import Records.

(** ** [xml_module.py]: the flattening used by the XML import *)

Module XmlModule.

(** [flatten(d, pk, sep)] (lines 258-266), a copy of [flatten_dict]
    whose separator defaults to the empty string; line 318 calls it with
    the defaults. *)
Definition joined_key (pk sep k : string) : string :=
  if String.eqb pk "" then k else pk +:+ sep +:+ k.

Definition flatten_entries (rec : json → string → dict json)
    (pk sep : string) : dict json → dict json → dict json :=
  fix go (d : dict json) (flat : dict json) : dict json :=
    match d with
    | [] => flat
    | (k, v) :: d' =>
        let nk := joined_key pk sep k in
        go d' (match v with
               | JDict _ => dict_update flat (rec v nk)
               | _ => dict_set nk v flat
               end)
    end.

Fixpoint flatten_node (sep : string) (v : json) (pk : string) : dict json :=
  match v with
  | JDict d => flatten_entries (flatten_node sep) pk sep d []
  | _ => []
  end.

Definition flatten (d : dict json) (pk sep : string) : dict json :=
  flatten_node sep (JDict d) pk.

(** [flatten(obj_dict["parameters"])] (line 318) *)
Definition xml_flat_parameters (parameters : dict json) : dict json :=
  flatten parameters "" "".

End XmlModule.

Import XmlModule.

(** ** [blendhog_addon.py]: the exclusion list *)

Module Config.

(** [load_excluded_parameters] (lines 155-163), from the list read under
    ["excluded_parameters"] on *)
Definition load_excluded_parameters (excluded : list json) : list string :=
  omap (λ p, match p with
             | JStr s => Some (PyStr.strip s)
             | _ => None
             end)
       excluded.

End Config.

Import Config.

(** ** Notions used to state the properties *)

(** The parent the resolver follows from [s], and the fields [s] declares. *)
Definition parent_of (structs : gmap string struct_def) (s : string)
  : option string :=
  truthy_name (s_parent (default empty_struct (structs !! s))).

Definition own_fields (structs : gmap string struct_def) (s : string)
  : list field :=
  fields_or_empty (default empty_struct (structs !! s)).

(** [parent_walk structs s l]: [l] lists [s], its parent, the parent of
    that one, and so on, for some number of steps. *)
Inductive parent_walk (structs : gmap string struct_def)
  : string → list string → Prop :=
| walk_stop s : parent_walk structs s [s]
| walk_step s p l :
    parent_of structs s = Some p →
    parent_walk structs p l →
    parent_walk structs s (s :: l).

(** The parent chain of [s] is acyclic when the walk reaches a struct
    without a parent: [l] is then the whole chain. *)
Inductive parent_chain (structs : gmap string struct_def)
  : string → list string → Prop :=
| chain_root s : parent_of structs s = None → parent_chain structs s [s]
| chain_step s p l :
    parent_of structs s = Some p →
    parent_chain structs p l →
    parent_chain structs s (s :: l).

(** The fields of the structs of [l], the most distant ancestor first. *)
Definition chain_fields (structs : gmap string struct_def) (l : list string)
  : list field :=
  concat (map (own_fields structs) (rev l)).

(** The value the specification gives a short primitive array: the
    array itself, padded at the tail up to [size]. *)
Definition padded_array (l : list json) (size : Z) (default_val : json)
  : json :=
  JList (pad_list l size default_val).

(** The field list the specification gives a sub-struct: its own fields
    with the fields of its direct parent appended, one level only. *)
Definition one_level_fields (structs : gmap string struct_def)
    (sub_struct_def : struct_def) : list field :=
  fields_or_empty sub_struct_def ++
  match truthy_name (s_parent sub_struct_def) with
  | Some p => own_fields structs p
  | None => []
  end.

(** No option of [ev] matches the stored string, by key or by raw
    value, in the comparison of lines 364-371. *)
Definition no_option_matches (imported_val : string) (ev : dict enum_info)
  : Prop :=
  ∀ k info, (k, info) ∈ ev →
    String.eqb imported_val (PyStr.lower k) = false ∧
    String.eqb imported_val
      (PyStr.lower (PyStr.strip (raw_value_str info))) = false.

(** Every target the matcher finds for the source field [raw_h] among
    the targets named [names] is on the exclusion list, and there is at
    least one. *)
Definition only_excluded_matches (special_aliases : dict (list string))
    (excluded_parameters : list string) (names : list string)
    (raw_h : string) : Prop :=
  let matches :=
    find_matches special_aliases (map extract_json_segments names) names
      (strip_hson_type raw_h) in
  matches ≠ [] ∧
  ∀ i name, i ∈ matches → names !! i = Some name →
            is_excluded excluded_parameters name = true.



(** What every write of the field loop keeps: the keys present at the
    start [keys0] stay where they are, and [params] and [types] have
    the same keys in the same order. *)
Definition keys_kept (keys0 : list string) (pt : dict json * dict string)
  : Prop :=
  keys0 `prefix_of` dict_keys pt.1 ∧ dict_keys pt.1 = dict_keys pt.2.

(** *** Trees for the round trip of [flatten_dict] and [nest_parameters] *)

Definition no_colon (k : string) : bool :=
  PyStr.all_chars (λ c, negb (Ascii.eqb c ":"%char)) k.

(** A key that [flatten_dict] and [nest_parameters] read alike: not
    empty, without [":"], and not a name followed by digits. *)
Definition plain_key (k : string) : bool :=
  negb (String.eqb k "") && no_colon k &&
  match index_part k with
  | None => true
  | Some _ => false
  end.

(** Below the root: a map is not empty, its keys are plain and distinct;
    anything but a map is a leaf. *)
Fixpoint regular_value (v : json) : bool :=
  match v with
  | JDict d =>
      match d with [] => false | _ => true end
      && bool_decide (NoDup (map fst d))
      && forallb (λ kv, let '(k, x) := kv in plain_key k && regular_value x) d
  | _ => true
  end.

Definition regular_tree (d : dict json) : bool :=
  bool_decide (NoDup (map fst d))
  && forallb (λ kv, let '(k, x) := kv in plain_key k && regular_value x) d.

(** The leaves of a tree of maps with the path of keys that leads to
    each, in the order [flatten_dict] meets them. *)
Fixpoint leaf_paths (v : json) : list (list string * json) :=
  match v with
  | JDict d =>
      flat_map
        (λ kv, let '(k, x) := kv in
               match x with
               | JDict _ => map (λ qx, (k :: fst qx, snd qx)) (leaf_paths x)
               | _ => [([k], x)]
               end)
        d
  | _ => []
  end.

(** The paths of one entry [(k, x)] of a map. *)
Definition entry_paths (k : string) (x : json) : list (list string * json) :=
  match x with
  | JDict _ => map (λ qx, (k :: fst qx, snd qx)) (leaf_paths x)
  | _ => [([k], x)]
  end.

(** The entries of a map of a regular tree. *)
Definition regular_entries (d : dict json) : Prop :=
  NoDup (map fst d) ∧
  Forall (λ kv, plain_key (fst kv) = true ∧ regular_value (snd kv) = true) d.

(** The loop of [nest_parameters] over keys that are already split. *)
Fixpoint nest_paths (paths : list (list string * json)) (nested : json)
  : json * bool :=
  match paths with
  | [] => (nested, true)
  | (parts, value) :: paths' =>
      let '(nested', ok) := insert_parts parts value nested in
      if ok then nest_paths paths' nested' else (nested', false)
  end.

(** *** Parameters that get one record each *)

(** A key [process_nested_params] looks up as it stands: it holds no
    square bracket. *)
Definition no_bracket (k : string) : bool :=
  PyStr.all_chars (λ c, negb (is_square_bracket c)) k.

(** A value that is not a map and gets a record of its own: anything
    but a list of maps (the empty list is one). *)
Definition record_leaf (v : json) : bool :=
  match v with
  | JList l => negb (forallb is_dict l)
  | JDict _ => false
  | _ => true
  end.

(** No key of the tree, at any depth, holds a colon. *)
Fixpoint colon_free_keys (v : json) : bool :=
  match v with
  | JDict d => forallb (λ kv, no_colon (fst kv) && colon_free_keys (snd kv)) d
  | _ => true
  end.

(** ** Sample templates *)

Module Samples.

Definition fld (name type : string) : field := Field name type None None.



(** Two structs that name each other as parent. *)
Definition cyclic_structs : gmap string struct_def :=
  <["A" := StructDef (Some "B") (Some [fld "a" "int"])]>
  (<["B" := StructDef (Some "A") (Some [fld "b" "int"])]> ∅).

(** A sub-struct with two levels of ancestors, used inline and as the
    element of an array. *)
Definition nested_structs : gmap string struct_def :=
  <["Obj" := StructDef None
               (Some [Field "pts" "array" (Some "Sub") (Some 1%Z)])]>
  (<["Holder" := StructDef None (Some [fld "sub" "Sub"])]>
  (<["Sub" := StructDef (Some "Mid") (Some [fld "x" "float"])]>
  (<["Mid" := StructDef (Some "Root") (Some [fld "y" "int"])]>
  (<["Root" := StructDef None (Some [fld "z" "bool"])]> ∅)))).

Definition sub_def : struct_def :=
  StructDef (Some "Mid") (Some [fld "x" "float"]).

(** The entry of the objects table for an object of struct [Holder]. *)
Definition holder_object : dict json := [("struct", JStr "Holder")].

(** An [int] array of declared size 2 whose imported value has one
    element. *)
Definition short_array_field : field :=
  Field "arr" "array" (Some "int") (Some 2%Z).

Definition short_array_import : option (dict json) :=
  Some [("arr", JList [JInt 1])].

(** An enum with two options and no declared default, and one with a
    declared default. *)
Definition mode_values : dict enum_info :=
  [("Off", EnumInfo (Some "Off") None (Some (SInt 0)));
   ("On", EnumInfo (Some "On") None (Some (SInt 1)))].

Definition mode_enums : gmap string enum_def :=
  <["Mode" := EnumDef None (Some mode_values)]> ∅.




(** An enum in which the key of one option prints like the raw value
    of another. *)
Definition level_values : dict enum_info :=
  [("1", EnumInfo (Some "Low") None (Some (SInt 0)));
   ("2", EnumInfo (Some "High") None (Some (SInt 1)))].

Definition level_enums : gmap string enum_def :=
  <["Level" := EnumDef None (Some level_values)]> ∅.

(** The record [update_hson_parameters] builds for the enum field
    [level] whose resolved value is the key ["1"]. *)
Definition level_param : hson_param :=
  HsonParam "level:enum" "0.0" 0 false "1" [] [].

(** A tree of maps with an empty map in it, and one with a key that
    reads as an array index. *)
Definition tree_with_empty_map : dict json := [("a", JDict [])].
Definition tree_with_index_key : dict json := [("slot0", JInt 5)].

Definition regular_sample : dict json :=
  [("transform", JDict [("pos", JList [JInt 1; JInt 2; JInt 3]);
                        ("meta", JDict [("tag", JStr "t")])]);
   ("name", JStr "ring")].

(** The transfer scenario: one source field, one target, one alias. *)
Definition speed_aliases : dict (list string) :=
  [("speed", ["velocity/value"])].

Definition speed_source : hson_param :=
  HsonParam "Speed:float" "1.5" 0 false "" [] [].

Definition velocity_target : json_param :=
  JsonParam "velocity/value/float" "0.0" 0 false "" None None None.

(** A source with enum options and two targets that it matches, each
    with options of its own. *)
Definition mode_source : hson_param :=
  HsonParam "Mode:enum" "0.0" 0 false "On"
    [] [EnumItem false "Off"; EnumItem true "On"].

Definition mode_target : json_param :=
  JsonParam "mode/enum" "0.0" 0 false "" None
    (Some [EnumItem true "off"; EnumItem false "on"]) None.

Definition state_target : json_param :=
  JsonParam "state/mode/enum" "0.0" 0 false "" None
    (Some [EnumItem true "off"; EnumItem false "on"]) (Some "off").

End Samples.

(** * Properties *)

(** ** Schema resolver *)

Section resolver.

Context (structs : gmap string struct_def).

Lemma parent_of_in_dom s p :
  parent_of structs s = Some p → s ∈ dom structs.
Proof.
  unfold parent_of. intros H. apply elem_of_dom.
  destruct (structs !! s) eqn:E; [by eexists|]. discriminate H.
Qed.

Lemma get_struct_fields_rec_unfold fuel s visited :
  get_struct_fields_rec (S fuel) structs s visited =
    if decide (s ∈ visited) then Ok []
    else match parent_of structs s with
         | Some p =>
             let! inherited :=
               get_struct_fields_rec fuel structs p ({[s]} ∪ visited) in
             Ok (inherited ++ own_fields structs s)
         | None => Ok (own_fields structs s)
         end.
Proof. reflexivity. Qed.

(** The recursion ends within [size (dom structs ∖ visited) + 2] calls. *)
Lemma get_struct_fields_rec_returns fuel :
  ∀ s visited,
    size (dom structs ∖ visited) + 2 ≤ fuel →
    ∃ l, get_struct_fields_rec fuel structs s visited = Ok l.
Proof.
  induction fuel as [|fuel IH]; intros s visited Hfuel; [lia|].
  rewrite get_struct_fields_rec_unfold.
  destruct (decide (s ∈ visited)) as [|Hs]; [by eexists|].
  destruct (parent_of structs s) as [p|] eqn:Hp; [|by eexists].
  assert (size (dom structs ∖ ({[s]} ∪ visited))
          < size (dom structs ∖ visited)) as Hlt.
  { apply subset_size. split; [set_solver|].
    intros Hsub. apply parent_of_in_dom in Hp.
    assert (s ∈ dom structs ∖ visited) as Hin by set_solver.
    apply Hsub in Hin. set_solver. }
  destruct (IH p ({[s]} ∪ visited)) as [l Hl]; [lia|].
  rewrite Hl. by eexists.
Qed.

Lemma get_struct_fields_rec_more_fuel fuel :
  ∀ fuel' s visited l,
    fuel ≤ fuel' →
    get_struct_fields_rec fuel structs s visited = Ok l →
    get_struct_fields_rec fuel' structs s visited = Ok l.
Proof.
  induction fuel as [|fuel IH]; intros fuel' s visited l Hle Hl;
    [discriminate Hl|].
  destruct fuel' as [|fuel']; [lia|].
  rewrite get_struct_fields_rec_unfold in Hl |- *.
  destruct (decide (s ∈ visited)); [done|].
  destruct (parent_of structs s) as [p|]; [|done].
  destruct (get_struct_fields_rec fuel structs p _) as [r| | |] eqn:Hr;
    try discriminate Hl.
  rewrite (IH fuel' p _ r); [done|lia|done].
Qed.

(** What the recursion returns along a walk without repetition that
    ends at a struct with no parent, or with a parent already visited. *)
Lemma get_struct_fields_rec_walk s l :
  parent_walk structs s l →
  ∀ fuel visited r,
    NoDup l →
    (∀ x, x ∈ l → x ∉ visited) →
    (∀ z, last l = Some z →
          match parent_of structs z with
          | Some p => p ∈ l ∨ p ∈ visited
          | None => True
          end) →
    get_struct_fields_rec fuel structs s visited = Ok r →
    r = chain_fields structs l.
Proof.
  induction 1 as [s|s p l Hp Hwalk IH]; intros fuel visited r Hnd Hfresh Hend Hr.
  - destruct fuel as [|fuel]; [discriminate Hr|].
    rewrite get_struct_fields_rec_unfold in Hr.
    destruct (decide (s ∈ visited)) as [Hin|_].
    { exfalso. apply (Hfresh s); [set_solver|done]. }
    specialize (Hend s eq_refl).
    unfold chain_fields. simpl. rewrite app_nil_r.
    destruct (parent_of structs s) as [p|]; [|congruence].
    destruct fuel as [|fuel]; [discriminate Hr|].
    rewrite get_struct_fields_rec_unfold in Hr.
    destruct (decide (p ∈ {[s]} ∪ visited)) as [_|Hn]; [simpl in Hr; congruence|].
    exfalso. apply Hn. set_solver.
  - destruct fuel as [|fuel]; [discriminate Hr|].
    rewrite get_struct_fields_rec_unfold in Hr.
    destruct (decide (s ∈ visited)) as [Hin|_].
    { exfalso. apply (Hfresh s); [set_solver|done]. }
    rewrite Hp in Hr.
    destruct (get_struct_fields_rec fuel structs p _) as [r'| | |] eqn:Hr';
      try discriminate Hr.
    simpl in Hr. injection Hr as <-.
    apply NoDup_cons in Hnd as [Hs Hnd].
    rewrite (IH fuel ({[s]} ∪ visited) r' Hnd); [| |  |done].
    + unfold chain_fields. simpl. rewrite map_app, concat_app. simpl.
      by rewrite app_nil_r.
    + intros x Hx. specialize (Hfresh x). set_solver.
    + intros z Hz. specialize (Hend z).
      assert (last (s :: l) = Some z) as Hz'.
      { destruct l; [inversion Hwalk|done]. }
      specialize (Hend Hz'). destruct (parent_of structs z); [|done].
      set_solver.
Qed.



Lemma parent_chain_unique s l1 :
  parent_chain structs s l1 → ∀ l2, parent_chain structs s l2 → l1 = l2.
Proof.
  induction 1 as [s Hs|s p l Hp Hc IH]; intros l2 H2; inversion H2; subst;
    try congruence.
  f_equal. apply IH. congruence.
Qed.

Lemma parent_chain_suffix s l :
  parent_chain structs s l →
  ∀ x, x ∈ l → ∃ l', parent_chain structs x l' ∧ length l' ≤ length l.
Proof.
  induction 1 as [s Hs|s p l Hp Hc IH]; intros x Hx.
  - apply list_elem_of_singleton in Hx as ->. exists [s]. split; [by constructor|done].
  - apply elem_of_cons in Hx as [->|Hx].
    + exists (s :: l). split; [by econstructor|done].
    + destruct (IH x Hx) as (l' & Hl' & Hlen). exists l'. split; [done|simpl; lia].
Qed.

(** A chain that ends never passes twice through the same struct. *)
Lemma parent_chain_NoDup s l : parent_chain structs s l → NoDup l.
Proof.
  induction 1 as [s Hs|s p l Hp Hc IH].
  - apply NoDup_singleton.
  - apply NoDup_cons. split; [|done].
    intros Hin. destruct (parent_chain_suffix p l Hc s Hin) as (l' & Hl' & Hlen).
    assert (l' = s :: l) as -> by (eapply parent_chain_unique; [done|by econstructor]).
    simpl in Hlen. lia.
Qed.

Lemma get_struct_fields_returns s :
  ∃ l, get_struct_fields structs s = Ok l.
Proof.
  apply get_struct_fields_rec_returns.
  assert (size (dom structs ∖ (∅ : gset string)) ≤ size (dom structs)) as Hle
    by (apply subseteq_size; set_solver).
  rewrite size_dom in Hle. lia.
Qed.


End resolver.


(** ** Python dicts and loops *)

Lemma dict_get_set_eq {V} (k : string) (v : V) (d : dict V) :
  dict_get k (dict_set k v d) = Some v.
Proof.
  induction d as [|[k' v'] d IH]; simpl.
  - by rewrite String.eqb_refl.
  - destruct (String.eqb k k') eqn:E; simpl.
    + by rewrite String.eqb_refl.
    + by rewrite E.
Qed.

Lemma dict_get_set_ne {V} (k k' : string) (v : V) (d : dict V) :
  k ≠ k' → dict_get k' (dict_set k v d) = dict_get k' d.
Proof.
  intros Hne. induction d as [|[k0 v0] d IH]; simpl.
  - destruct (String.eqb_spec k' k); [congruence|done].
  - destruct (String.eqb_spec k k0) as [->|Hk]; simpl.
    + destruct (String.eqb_spec k' k0); [congruence|done].
    + destruct (String.eqb_spec k' k0); [done|apply IH].
Qed.

Lemma for_each_app {A S} (body : A → S → outcome S) (l1 l2 : list A) (s : S) :
  for_each body (l1 ++ l2) s =
    let! s1 := for_each body l1 s in for_each body l2 s1.
Proof.
  revert s. induction l1 as [|a l1 IH]; intros s; simpl; [done|].
  destruct (body a s); simpl; [apply IH|done..].
Qed.

Lemma for_each_preserves {A S} (P : S → Prop) (body : A → S → outcome S)
    (l : list A) :
  (∀ a s1 s2, a ∈ l → P s1 → body a s1 = Ok s2 → P s2) →
  ∀ s s', P s → for_each body l s = Ok s' → P s'.
Proof.
  induction l as [|a l IH]; intros Hbody s s' Hs Hrun; simpl in Hrun.
  - congruence.
  - destruct (body a s) as [s1| | |] eqn:E; try discriminate Hrun.
    simpl in Hrun. apply (IH (λ a' s2 s3 Ha', Hbody a' s2 s3 (list_elem_of_further _ _ _ Ha')) s1 s');
      [|done].
    eapply Hbody; [apply list_elem_of_here|exact Hs|exact E].
Qed.

Lemma append_nil (t : string) : "" +:+ t = t.
Proof. reflexivity. Qed.

Lemma append_cons (c : ascii) (s t : string) :
  String c s +:+ t = String c (s +:+ t).
Proof. reflexivity. Qed.

Lemma append_assoc (a b c : string) : (a +:+ b) +:+ c = a +:+ b +:+ c.
Proof.
  induction a as [|x a IH]; [done|]. by rewrite !append_cons, IH.
Qed.

Lemma prefix_append (a b : string) : String.prefix a (a +:+ b) = true.
Proof.
  induction a as [|c a IH]; simpl; [by destruct b|].
  destruct (ascii_dec c c); [done|congruence].
Qed.

Lemma prefix_same (a : string) : String.prefix a a = true.
Proof.
  induction a as [|c a IH]; simpl; [done|].
  destruct (ascii_dec c c); [done|congruence].
Qed.

(** ** Parameter marshaller: which keys a field writes *)

Ltac outcome_cases H :=
  repeat match type of H with
  | context [Py.bind ?m _] =>
      let E := fresh "E" in
      destruct m eqn:E; simpl in H; try discriminate H
  end.

Section marshaller_keys.

Context (fuel : nat) (enums : gmap string enum_def) (tobj : dict json)
        (imported : option (dict json)).

Lemma process_sub_field_other n new_key src sub_field pt pt' :
  new_key ≠ n →
  process_sub_field new_key src imported sub_field pt = Ok pt' →
  dict_get n (fst pt') = dict_get n (fst pt).
Proof.
  intros Hne H. unfold process_sub_field in H. outcome_cases H.
  injection H as <-. simpl. by apply dict_get_set_ne.
Qed.

Lemma process_sub_field_other_type n new_key src sub_field pt pt' :
  new_key ≠ n →
  process_sub_field new_key src imported sub_field pt = Ok pt' →
  dict_get n (snd pt') = dict_get n (snd pt).
Proof.
  intros Hne H. unfold process_sub_field in H. outcome_cases H.
  injection H as <-. simpl. by apply dict_get_set_ne.
Qed.

Lemma sub_fields_other n fname (key_of : field → string) src fields pt pt' :
  String.prefix fname n = false →
  (∀ sf, ∃ rest, key_of sf = fname +:+ rest) →
  for_each (λ sf, process_sub_field (key_of sf) src imported sf) fields pt
    = Ok pt' →
  dict_get n (fst pt') = dict_get n (fst pt).
Proof.
  intros Hpre Hkey H.
  apply (for_each_preserves (λ q, dict_get n (fst q) = dict_get n (fst pt))
           _ fields) with (s := pt) (s' := pt') in H; [done| |done].
  intros sf q1 q2 _ Hq1 Hstep. rewrite <- Hq1.
  eapply process_sub_field_other; [|exact Hstep].
  destruct (Hkey sf) as [rest ->]. intros <-.
  by rewrite prefix_append in Hpre.
Qed.

Lemma process_field_other n f st st' :
  String.prefix (f_name f) n = false →
  process_field fuel enums tobj imported f st = Ok st' →
  dict_get n (st_params st') = dict_get n (st_params st).
Proof.
  intros Hpre H.
  assert (f_name f ≠ n) as Hne.
  { intros <-. by rewrite prefix_same in Hpre. }
  unfold process_field in H.
  destruct (array_subtype f) as [subtype|].
  - unfold process_array_field in H.
    destruct (in_strs _ primitives).
    + outcome_cases H. injection H as <-. simpl. by apply dict_get_set_ne.
    + destruct (st_structs st !! subtype) as [sd|];
        [destruct (struct_truthy sd)|].
      * outcome_cases H. injection H as <-. simpl.
        unfold process_struct_array in E.
        apply (for_each_preserves
                 (λ q, dict_get n (fst q) = dict_get n (st_params st))
                 _ _) with (s := (st_params st, st_types st)) (s' := a) in E;
          [done| |done].
        intros idx q1 q2 _ Hq1 Hstep. rewrite <- Hq1.
        eapply (sub_fields_other n (f_name f)); [done| |exact Hstep].
        intros sf. by eexists.
      * injection H as <-. simpl. by apply dict_get_set_ne.
      * injection H as <-. simpl. by apply dict_get_set_ne.
  - destruct (is_plain_type (effective_type f)).
    + unfold process_plain_field in H. outcome_cases H.
      injection H as <-. simpl. by apply dict_get_set_ne.
    + unfold process_struct_field in H. outcome_cases H.
      injection H as <-. simpl.
      change (st_params st) with (fst (st_params st, st_types st)).
      eapply (sub_fields_other n (f_name f)); [done| |exact E0].
      intros sf. by eexists.
Qed.

(** A field of the plain branch whose key no later field writes
    decides the value of that key: the last writer wins. *)
Lemma process_fields_last_writer pre fld post st0 st' :
  array_subtype fld = None →
  is_plain_type (effective_type fld) = true →
  (∀ g, g ∈ post → String.prefix (f_name g) (f_name fld) = false) →
  process_fields fuel enums tobj imported (pre ++ fld :: post) st0 = Ok st' →
  ∃ v,
    plain_value enums tobj imported (f_name fld) (effective_type fld) = Ok v ∧
    dict_get (f_name fld) (st_params st') = Some v.
Proof.
  intros Harr Hplain Hpost H. unfold process_fields in H.
  rewrite for_each_app in H.
  destruct (for_each _ pre st0) as [st1| | |]; try discriminate H.
  simpl in H.
  destruct (process_field fuel enums tobj imported fld st1) as [st2| | |] eqn:E;
    try discriminate H.
  simpl in H. unfold process_field in E. rewrite Harr, Hplain in E.
  unfold process_plain_field in E.
  destruct (plain_value _ _ _ _ _) as [v| | |]; try discriminate E.
  simpl in E. injection E as <-. exists v. split; [done|].
  apply (for_each_preserves
           (λ q, dict_get (f_name fld) (st_params q) = Some v) _ post)
    with (s' := st') in H; [done| |simpl; apply dict_get_set_eq].
  intros g q1 q2 Hg Hq1 Hstep. rewrite <- Hq1.
  eapply process_field_other; [by apply Hpost|exact Hstep].
Qed.








End marshaller_keys.

(** ** C1 and C10: the resolved field list *)




(** C10.  [get_struct_fields] returns for every struct name, also on a
    cyclic parent chain: the recursion ends within [size structs + 2]
    calls.  On a chain that comes back to a struct already visited the
    result is the concatenation of the field lists of the structs before
    the repetition, so it is no larger than what that non-cyclic prefix
    produces: the revisited struct contributes nothing. *)
Theorem get_struct_fields_terminates structs s :
  (∃ r, ∀ fuel, size structs + 2 ≤ fuel →
          get_struct_fields_rec fuel structs s ∅ = Ok r) ∧
  (∀ l z p,
     parent_walk structs s l → NoDup l →
     last l = Some z → parent_of structs z = Some p → p ∈ l →
     ∃ r, get_struct_fields structs s = Ok r ∧
          r = chain_fields structs l ∧
          length r ≤ length (chain_fields structs l)).
Proof.
  destruct (get_struct_fields_returns structs s) as [r Hr]. split.
  - exists r. intros fuel Hfuel.
    eapply get_struct_fields_rec_more_fuel; [exact Hfuel|exact Hr].
  - intros l z p Hwalk Hnd Hlast Hp Hin. exists r. split; [done|].
    assert (r = chain_fields structs l) as ->; [|done].
    eapply get_struct_fields_rec_walk; [exact Hwalk|exact Hnd| | |exact Hr].
    + set_solver.
    + intros z' Hz'. assert (z' = z) as -> by congruence.
      rewrite Hp. by left.
Qed.

Lemma get_struct_fields_terminates_witness :
  ∃ r, get_struct_fields Samples.cyclic_structs "A" = Ok r ∧
       r = [Samples.fld "b" "int"; Samples.fld "a" "int"] ∧
       length r ≤ 2.
Proof.
  destruct (get_struct_fields_terminates Samples.cyclic_structs "A")
    as [_ Hcycle].
  apply (Hcycle ["A"; "B"] "B" "A").
  - apply walk_step with (p := "B"); [vm_compute; reflexivity|apply walk_stop].
  - apply (bool_decide_unpack _). vm_compute. exact I.
  - reflexivity.
  - vm_compute; reflexivity.
  - apply (bool_decide_unpack _). vm_compute. exact I.
Defined.

(** ** C2: primitive arrays *)

Lemma primitive_array_value_short l size default_val :
  (Z.of_nat (length l) < size)%Z →
  primitive_array_value (JList l) size default_val
    = Ok (JList (replicate (Z.to_nat size) default_val)).
Proof.
  intros Hlt. unfold primitive_array_value, pad_list. simpl.
  rewrite Z.sub_0_r.
  destruct l as [|x l]; [reflexivity|].
  cbn [truthy py_len Py.bind].
  destruct (Z.leb_spec size (Z.of_nat (length (x :: l)))) as [Hle|_];
    [lia|reflexivity].
Qed.

(** What the code does with a short array.  For an array field whose
    subtype is one of the ten names of line 258 and whose declared size
    is [N], an imported (or object-default) array shorter than [N] is
    dropped by the guard of line 260 before the padding loop runs: the
    resolved value is [N] copies of the default of the subtype. *)
Lemma short_primitive_array_is_all_defaults
    fuel enums tobj imported f subtype l st :
  array_subtype f = Some subtype →
  in_strs (PyStr.lower subtype) primitives = true →
  array_source tobj imported (f_name f) = JList l →
  (Z.of_nat (length l) < default 1 (f_array_size f))%Z →
  ∃ st' new_val,
    process_field fuel enums tobj imported f st = Ok st' ∧
    dict_get (f_name f) (st_params st') = Some (JList new_val) ∧
    new_val = replicate (Z.to_nat (default 1%Z (f_array_size f)))
                (array_default (PyStr.lower subtype)) ∧
    Z.of_nat (length new_val) = default 1%Z (f_array_size f) ∧
    dict_get (f_name f) (st_types st') = Some subtype.
Proof.
  intros Harr Hprim Hsrc Hlt.
  unfold process_field. rewrite Harr. unfold process_array_field.
  rewrite Hprim, Hsrc, (primitive_array_value_short _ _ _ Hlt). simpl.
  eexists _, _. split; [reflexivity|]. simpl.
  rewrite !dict_get_set_eq. repeat split.
  rewrite length_replicate. lia.
Qed.

(** C2 fails on the code.  The one-element array [[1]] imported for an
    [int] array of size 2 resolves to [[0, 0]], not to [[1, 0]]: the
    guard of line 260 empties the array before the padding loop of
    lines 265-266 runs.  And for the subtype [int32], which the
    defaults of lines 261-264 provide for but line 258 does not list,
    the same array is neither padded nor dropped: it is stored as it is,
    with length 1 and the type [array]. *)
Lemma short_primitive_array_not_padded :
  (∃ st',
     process_field 0 ∅ [] Samples.short_array_import Samples.short_array_field
       (State ∅ [] []) = Ok st' ∧
     dict_get "arr" (st_params st') = Some (JList [JInt 0; JInt 0]) ∧
     padded_array [JInt 1] 2 (JInt 0) = JList [JInt 1; JInt 0] ∧
     dict_get "arr" (st_params st')
     ≠ Some (padded_array [JInt 1] 2 (JInt 0))) ∧
  (∃ st',
     process_field 0 ∅ [] Samples.short_array_import
       (Field "arr" "array" (Some "int32") (Some 2%Z))
       (State ∅ [] []) = Ok st' ∧
     array_default "int32" = JInt 0 ∧
     dict_get "arr" (st_params st') = Some (JList [JInt 1]) ∧
     dict_get "arr" (st_types st') = Some "array" ∧
     dict_get "arr" (st_params st')
     ≠ Some (padded_array [JInt 1] 2 (JInt 0))).
Proof.
  split.
  - eexists. split; [vm_compute; reflexivity|].
    split; [reflexivity|]. split; [reflexivity|]. discriminate.
  - eexists. split; [vm_compute; reflexivity|].
    split; [reflexivity|]. split; [reflexivity|].
    split; [reflexivity|]. discriminate.
Qed.

(** ** C3: enum fall-back *)



Lemma prefix_cons (c a : ascii) (p s : string) :
  String.prefix (String c p) (String a s)
    = if ascii_dec c a then String.prefix p s else false.
Proof. reflexivity. Qed.

Lemma contains_colons_colon (s : string) :
  PyStr.contains "::" s = true → ∃ s1 s2, s = s1 +:+ String ":" s2.
Proof.
  induction s as [|a s IH]; [discriminate|].
  cbn [PyStr.contains]. rewrite prefix_cons.
  destruct (ascii_dec ":" a) as [<-|_].
  - intros _. by exists "", s.
  - simpl. intros H. destruct (IH H) as (s1 & s2 & ->).
    by exists (String a s1), s2.
Qed.

Lemma lower_append (s1 s2 : string) :
  PyStr.lower (s1 +:+ s2) = PyStr.lower s1 +:+ PyStr.lower s2.
Proof. induction s1 as [|c s1 IH]; simpl; [done|by rewrite IH]. Qed.

(** An enum reference is not the type [string]. *)
Lemma enum_reference_not_string (ftype : string) :
  PyStr.contains "::" ftype = true → PyStr.lower ftype ≠ "string".
Proof.
  intros (s1 & s2 & ->)%contains_colons_colon.
  rewrite lower_append. change (PyStr.lower (String ":" s2))
    with (String ":" (PyStr.lower s2)).
  generalize (PyStr.lower s1) (PyStr.lower s2). intros x y.
  do 6 (destruct x as [|? x]; [discriminate|]; intros [= -> H]; revert H).
  destruct x; discriminate.
Qed.







(** ** C4: the fields of a sub-struct *)

Section sub_struct_fields.

Context (imported : option (dict json)).

(** The array-of-struct branch writes no key but those made from the
    sub-struct's own fields. *)
Lemma process_struct_array_keys fname arr size sub_struct_def pt pt' key :
  (∀ idx sf, sf ∈ fields_or_empty sub_struct_def →
             key ≠ fname +:+ PyStr.str_of_nat idx +:+ ":" +:+ f_name sf) →
  process_struct_array fname arr size imported sub_struct_def pt = Ok pt' →
  dict_get key (fst pt') = dict_get key (fst pt) ∧
  dict_get key (snd pt') = dict_get key (snd pt).
Proof.
  intros Hkey H. unfold process_struct_array in H.
  apply (for_each_preserves
           (λ q, dict_get key (fst q) = dict_get key (fst pt) ∧
                 dict_get key (snd q) = dict_get key (snd pt))
           _ _) with (s := pt) (s' := pt') in H; [done| |done].
  intros idx q1 q2 _ [Hq1 Hq1'] Hidx. rewrite <- Hq1, <- Hq1'.
  apply (for_each_preserves
           (λ q, dict_get key (fst q) = dict_get key (fst q1) ∧
                 dict_get key (snd q) = dict_get key (snd q1))
           _ _) with (s := q1) (s' := q2) in Hidx; [done| |done].
  intros sf r1 r2 Hsf [Hr1 Hr1'] Hstep. rewrite <- Hr1, <- Hr1'.
  assert (fname +:+ PyStr.str_of_nat idx +:+ ":" +:+ f_name sf ≠ key) as Hne
    by (intros <-; by eapply Hkey).
  split.
  - eapply process_sub_field_other; [exact Hne|exact Hstep].
  - eapply process_sub_field_other_type; [exact Hne|exact Hstep].
Qed.

End sub_struct_fields.

Section merge_parent_fields.

Lemma parent_of_insert_ne structs target sd x :
  x ≠ target → parent_of (<[target := sd]> structs) x = parent_of structs x.
Proof. intros Hne. unfold parent_of. by rewrite lookup_insert_ne. Qed.

Lemma own_fields_insert_ne structs target sd x :
  x ≠ target → own_fields (<[target := sd]> structs) x = own_fields structs x.
Proof. intros Hne. unfold own_fields. by rewrite lookup_insert_ne. Qed.

Lemma parent_chain_insert structs target sd p l :
  target ∉ l →
  parent_chain structs p l →
  parent_chain (<[target := sd]> structs) p l.
Proof.
  intros Hnot Hc. induction Hc as [s Hs|s q l Hq Hc IH].
  - apply chain_root. rewrite parent_of_insert_ne; [done|set_solver].
  - apply chain_step with (p := q).
    + rewrite parent_of_insert_ne; [done|set_solver].
    + apply IH. set_solver.
Qed.

Lemma own_fields_map_insert structs target sd l :
  target ∉ l →
  map (own_fields (<[target := sd]> structs)) l = map (own_fields structs) l.
Proof.
  intros Hnot. induction l as [|x l IH]; [done|]. simpl.
  rewrite own_fields_insert_ne, IH; [done|set_solver|set_solver].
Qed.

Lemma parent_of_lookup structs p psd :
  structs !! p = Some psd → parent_of structs p = truthy_name (s_parent psd).
Proof. intros H. unfold parent_of. by rewrite H. Qed.

Lemma own_fields_lookup structs p psd :
  structs !! p = Some psd → own_fields structs p = fields_or_empty psd.
Proof. intros H. unfold own_fields. by rewrite H. Qed.

Lemma struct_not_truthy psd :
  struct_truthy psd = false → psd = empty_struct.
Proof. by destruct psd as [[] []]. Qed.

(** The loop appends the fields of every ancestor, nearest first. *)
Lemma merge_parent_fields_chain l :
  ∀ structs fuel target tp fs parent p,
    truthy_name parent = Some p →
    parent_chain structs p l →
    target ∉ l →
    structs !! target = Some (StructDef tp (Some fs)) →
    length l ≤ fuel →
    merge_parent_fields fuel structs target parent
      = Ok (<[target :=
                StructDef tp
                  (Some (fs ++ concat (map (own_fields structs) l)))]>
              structs).
Proof.
  induction l as [|x l IH];
    intros structs fuel target tp fs parent p Hp Hc Hnot Ht Hfuel;
    [inversion Hc|].
  assert (x = p) as -> by (by inversion Hc).
  destruct fuel as [|fuel]; [simpl in Hfuel; lia|].
  cbn [merge_parent_fields]. rewrite Hp.
  assert (∀ (m : gmap string struct_def),
            m !! target = Some (StructDef tp (Some fs)) →
            own_fields structs p = [] → l = [] →
            m = <[target :=
                    StructDef tp
                      (Some (fs ++ concat (map (own_fields structs) (p :: l))))]>
                  m) as Hsame.
  { intros m Hm Hown ->. simpl. rewrite Hown, !app_nil_r.
    symmetry. by apply insert_id. }
  destruct (structs !! p) as [psd|] eqn:Hpsd.
  - destruct (struct_truthy psd) eqn:Htruthy.
    + rewrite Ht. cbn [s_fields s_parent].
      rewrite <- (own_fields_lookup _ _ _ Hpsd).
      inversion Hc as [? Hroot|? q ? Hq Hc']; subst.
      * rewrite (parent_of_lookup _ _ _ Hpsd) in Hroot.
        destruct fuel; cbn [merge_parent_fields]; rewrite Hroot;
          simpl; by rewrite app_nil_r.
      * rewrite (parent_of_lookup _ _ _ Hpsd) in Hq.
        rewrite (IH _ fuel target tp (fs ++ own_fields structs p) _ q Hq).
        -- rewrite insert_insert_eq. do 3 f_equal. simpl.
           rewrite own_fields_map_insert; [|set_solver].
           by rewrite app_assoc.
        -- apply parent_chain_insert; [set_solver|done].
        -- set_solver.
        -- by rewrite lookup_insert_eq.
        -- simpl in Hfuel. lia.
    + apply struct_not_truthy in Htruthy as ->.
      f_equal. apply Hsame; [done|by rewrite (own_fields_lookup _ _ _ Hpsd)|].
      inversion Hc as [|? q ? Hq Hc']; subst; [done|].
      by rewrite (parent_of_lookup _ _ _ Hpsd) in Hq.
  - f_equal. apply Hsame; [done|unfold own_fields; by rewrite Hpsd|].
    inversion Hc as [|? q ? Hq Hc']; subst; [done|].
    unfold parent_of in Hq. by rewrite Hpsd in Hq.
Qed.

(** The field list of the inline branch, for an acyclic parent chain *)
Lemma inline_struct_fields_chain structs fuel ftype tp fs ancestors :
  structs !! ftype = Some (StructDef tp (Some fs)) →
  parent_chain structs ftype (ftype :: ancestors) →
  length ancestors ≤ fuel →
  inline_struct_fields fuel structs ftype
    = Ok (<[ftype :=
              StructDef tp
                (Some (fs ++ concat (map (own_fields structs) ancestors)))]>
            structs,
          fs ++ concat (map (own_fields structs) ancestors)).
Proof.
  intros Hsd Hc Hfuel. unfold inline_struct_fields. rewrite Hsd.
  cbn [struct_truthy s_parent s_fields].
  assert (struct_truthy (StructDef tp (Some fs)) = true) as ->
    by (by destruct tp).
  pose proof (parent_chain_NoDup _ _ _ Hc) as [Hnot _]%NoDup_cons.
  inversion Hc as [? Hroot|? q ? Hq Hc']; subst.
  - rewrite (parent_of_lookup _ _ _ Hsd) in Hroot. simpl in Hroot.
    destruct fuel; cbn [merge_parent_fields]; rewrite Hroot; simpl;
      rewrite Hsd, !app_nil_r; simpl;
      (rewrite insert_id; [done|by rewrite Hsd]).
  - rewrite (parent_of_lookup _ _ _ Hsd) in Hq. simpl in Hq.
    rewrite (merge_parent_fields_chain ancestors structs fuel ftype tp fs tp q);
      [|done..].
    simpl. by rewrite lookup_insert_eq.
Qed.

End merge_parent_fields.

(** C4 fails on the code, on a sub-struct [Sub] with a parent [Mid]
    and a grandparent [Root].  One level of merging would give the
    fields [x, y].  The array-of-struct branch merges nothing: it reads
    the field list of the definition as it stands, [x] on a template
    just loaded.  The inline branch appends the fields of every
    ancestor, [x, y, z], and leaves them in the definition: an array of
    [Sub] that comes after an inline [Sub] writes [x], [y] and [z],
    one that comes before it writes [x] alone. *)
Lemma sub_struct_fields_not_one_level :
  one_level_fields Samples.nested_structs Samples.sub_def
    = [Samples.fld "x" "float"; Samples.fld "y" "int"] ∧
  array_struct_fields Samples.sub_def
    ≠ one_level_fields Samples.nested_structs Samples.sub_def ∧
  (∃ structs' fs,
     inline_struct_fields 2 Samples.nested_structs "Sub" = Ok (structs', fs) ∧
     fs ≠ one_level_fields Samples.nested_structs Samples.sub_def) ∧
  (∃ st',
     process_field 2 ∅ [] None
       (Field "pts" "array" (Some "Sub") (Some 1%Z))
       (State Samples.nested_structs [] []) = Ok st' ∧
     dict_keys (st_types st') = ["pts0:x"]) ∧
  (∃ st',
     process_field 2 ∅ [] None (Samples.fld "sub" "Sub")
       (State Samples.nested_structs [] []) = Ok st' ∧
     dict_keys (st_types st') = ["sub:x"; "sub:y"; "sub:z"]) ∧
  (∃ st',
     process_fields 2 ∅ [] None
       [Samples.fld "sub" "Sub"; Field "pts" "array" (Some "Sub") (Some 1%Z)]
       (State Samples.nested_structs [] []) = Ok st' ∧
     dict_keys (st_types st')
     = ["sub:x"; "sub:y"; "sub:z"; "pts0:x"; "pts0:y"; "pts0:z"]) ∧
  (∃ st',
     process_fields 2 ∅ [] None
       [Field "pts" "array" (Some "Sub") (Some 1%Z); Samples.fld "sub" "Sub"]
       (State Samples.nested_structs [] []) = Ok st' ∧
     dict_keys (st_types st') = ["pts0:x"; "sub:x"; "sub:y"; "sub:z"]).
Proof.
  split; [vm_compute; reflexivity|].
  split; [intros H; vm_compute in H; discriminate H|].
  split.
  - eexists _, _. split; [vm_compute; reflexivity|].
    intros H; vm_compute in H; discriminate H.
  - repeat split; eexists; (split; [vm_compute; reflexivity|reflexivity]).
Qed.

(** ** C9: the schema during resolution *)

(** The array and plain branches leave the struct table as it is. *)
Lemma process_field_keeps_structs fuel enums tobj imported f st st' :
  array_subtype f ≠ None ∨ is_plain_type (effective_type f) = true →
  process_field fuel enums tobj imported f st = Ok st' →
  st_structs st' = st_structs st.
Proof.
  intros Hbranch H. unfold process_field in H.
  destruct (array_subtype f) as [subtype|].
  - unfold process_array_field in H.
    destruct (in_strs _ primitives).
    + outcome_cases H. by injection H as <-.
    + destruct (st_structs st !! subtype) as [sd|];
        [destruct (struct_truthy sd)|];
        outcome_cases H; by injection H as <-.
  - destruct Hbranch as [?|Hplain]; [done|]. rewrite Hplain in H.
    unfold process_plain_field in H. outcome_cases H. by injection H as <-.
Qed.

(** C9 fails on the code: applying a template to an object of struct
    [Holder], which has an inline field of struct [Sub], leaves [Sub] in
    the template with the fields of its ancestors appended; a second
    application appends them once more. *)
Lemma apply_template_extends_schema :
  ∃ st',
    apply_hson_template_to_object 2 Samples.nested_structs ∅
      Samples.holder_object None = Ok (Some st') ∧
    Samples.nested_structs !! "Sub"
      = Some (StructDef (Some "Mid") (Some [Samples.fld "x" "float"])) ∧
    st_structs st' !! "Sub"
      = Some (StructDef (Some "Mid")
                (Some [Samples.fld "x" "float"; Samples.fld "y" "int";
                       Samples.fld "z" "bool"])) ∧
    st_structs st' ≠ Samples.nested_structs ∧
    ∃ st'',
      apply_hson_template_to_object 2 (st_structs st') ∅
        Samples.holder_object None = Ok (Some st'') ∧
      st_structs st'' !! "Sub"
        = Some (StructDef (Some "Mid")
                  (Some [Samples.fld "x" "float"; Samples.fld "y" "int";
                         Samples.fld "z" "bool"; Samples.fld "y" "int";
                         Samples.fld "z" "bool"])).
Proof.
  eexists. split; [vm_compute; reflexivity|].
  split; [vm_compute; reflexivity|].
  split; [vm_compute; reflexivity|].
  split.
  - intros H. apply (f_equal (λ m : gmap string struct_def, m !! "Sub")) in H.
    vm_compute in H. discriminate H.
  - eexists. split; vm_compute; reflexivity.
Qed.

(** ** C8: the selected flags of an enum parameter *)

Section enum_selection.

Context (ctx_is_obj : bool).

Lemma add_enum_options_no_match imported_val ev :
  no_option_matches imported_val ev →
  ∀ item,
    fold_left (λ acc kv, add_enum_option ctx_is_obj imported_val kv acc)
      ev (item, false)
    = (with_enum_items
         (enum_items item ++ map (λ kv, EnumItem false (fst kv)) ev) item,
       false).
Proof.
  induction ev as [|[k info] ev IH]; intros Hno item; simpl.
  - rewrite app_nil_r. by destruct item.
  - destruct (Hno k info (list_elem_of_here _ _)) as [-> ->]. simpl.
    rewrite IH.
    + simpl. by rewrite <- app_assoc.
    + intros k' info' Hin. apply Hno. by apply list_elem_of_further.
Qed.

Lemma clear_unselected (l : list (string * enum_info)) :
  map (λ it, EnumItem false (ei_value it))
      (map (λ kv, EnumItem false (fst kv)) l)
    = map (λ kv, EnumItem false (fst kv)) l.
Proof. induction l as [|kv l IH]; simpl; [done|by rewrite IH]. Qed.

(** When nothing matches, the first option, and it alone, is
    selected. *)
Lemma select_enum_options_forces_first k0 info0 rest item :
  no_option_matches (PyStr.lower (PyStr.strip (string_value item)))
    ((k0, info0) :: rest) →
  enum_items (select_enum_options ctx_is_obj ((k0, info0) :: rest) item)
    = EnumItem true k0 :: map (λ kv, EnumItem false (fst kv)) rest.
Proof.
  intros Hno. unfold select_enum_options.
  replace (string_value item)
    with (string_value (with_enum_items [] item)) in Hno by done.
  rewrite (add_enum_options_no_match _ _ Hno). simpl.
  unfold set_selected. simpl. destruct ctx_is_obj; [|done].
  unfold update_enum_selection. simpl.
  destruct (PyStr.contains "enum" (p_name item)); simpl; [|done].
  f_equal.
  rewrite (imap_ext _ (const (λ it, EnumItem false (ei_value it))));
    [|done].
  rewrite imap_const. apply clear_unselected.
Qed.

End enum_selection.

(** C8 fails on the code.  The record of the enum field [level] holds the
    key ["1"]; the option ["1"] matches it by key and the option ["2"] by
    its raw value [1], and both end up selected when [context.object] is
    not the object being filled (an import).  The value ["1"] is what the
    marshaller resolves for an imported ["1"]. *)
Lemma two_enum_options_selected :
  plain_value Samples.level_enums [] (Some [("level", JStr "1")])
    "level" "Ns::Level" = Ok (JStr "1") ∧
  ∃ item,
    select_enums false Samples.level_enums [("level", "Ns::Level")]
      [Samples.level_param] = [item] ∧
    enum_items item = [EnumItem true "1"; EnumItem true "2"] ∧
    selected_count item = 2.
Proof.
  split; [vm_compute; reflexivity|].
  eexists. split; [vm_compute; reflexivity|].
  split; vm_compute; reflexivity.
Qed.

(** ** C6 and C7: the parameter transfer *)

(** [load_special_aliases] raises on every configuration that has a
    well-formed alias group, so the module-level table stays empty unless
    it is set from outside. *)
Lemma load_special_aliases_raises :
  load_special_aliases [JList [JStr "speed"; JStr "velocity/value"]] = Raise.
Proof. reflexivity. Qed.

(** C6.  With the alias table mapping ["speed"] to ["velocity/value"], a
    source field ["Speed:float"] and a target ["velocity/value/float"]:
    the base path is ["speed"], the target's segments are
    [velocity, value, float], no direct match exists, the alias
    [velocity, value] matches because every one of its segments is among
    the target's, and the float value is copied; the field is recorded as
    transferred. *)
Theorem alias_superset_match_copies_float
    (ctx : context_object)
    (fv : string) (iv : Z) (bv : bool) (sv : string) (lv : list string)
    (ei : list enum_item)
    (jfv : string) (jiv : Z) (jbv : bool) (jsv : string)
    (jlv : option (list string)) (jei : option (list enum_item))
    (jev : option string) :
  strip_hson_type "Speed:float" = "speed" ∧
  extract_json_segments "velocity/value/float" = ["velocity"; "value"; "float"] ∧
  extract_json_segments "velocity/value" = ["velocity"; "value"] ∧
  match_segment "speed" ["velocity"; "value"; "float"] = false ∧
  match_alias_candidate "velocity/value/float" "velocity/value" = true ∧
  execute ctx [("speed", ["velocity/value"])] excluded_parameters_initial
    [HsonParam "Speed:float" fv iv bv sv lv ei]
    [JsonParam "velocity/value/float" jfv jiv jbv jsv jlv jei jev]
  = Ok (TransferState
          [JsonParam "velocity/value/float" fv jiv jbv jsv jlv jei jev]
          {["Speed:float"]} ∅).
Proof.
  repeat split; try (vm_compute; reflexivity).
Qed.

Lemma for_each_returns {A S} (body : A → S → outcome S) (l : list A) :
  (∀ a s, ∃ s', body a s = Ok s') → ∀ s, ∃ s', for_each body l s = Ok s'.
Proof.
  intros Hbody. induction l as [|a l IH]; intros s; [by eexists|].
  cbn [for_each]. destruct (Hbody a s) as [s1 ->]. cbn [Py.bind]. apply IH.
Qed.

Section exclusion.

Context (ctx : context_object) (special_aliases : dict (list string))
        (excluded_parameters : list string).

(** A copy returns or raises, and changes no name. *)
Lemma copy_value_by_type_cases h_item j_item dt :
  copy_value_by_type h_item j_item dt = Raise
  ∨ ∃ j_item', copy_value_by_type h_item j_item dt = Ok j_item'
               ∧ j_name j_item' = j_name j_item.
Proof.
  unfold copy_value_by_type. destruct j_item as [n fv iv bv sv lv ei ev].
  repeat match goal with
  | |- context [if ?b then _ else _] => destruct b
  | |- context [match ?x with _ => _ end] => destruct x
  end; first [by left | right; by eexists].
Qed.

Lemma copy_value_by_type_name h_item j_item dt j_item' :
  copy_value_by_type h_item j_item dt = Ok j_item' →
  j_name j_item' = j_name j_item.
Proof.
  intros H.
  destruct (copy_value_by_type_cases h_item j_item dt)
    as [Hr|(j' & Hj' & Hname)]; congruence.
Qed.

Lemma force_update_enum_selection_name params i k j_item :
  j_name (fst (force_update_enum_selection ctx params i k j_item))
  = j_name j_item.
Proof.
  unfold force_update_enum_selection.
  repeat match goal with
  | |- context [if ?b then _ else _] => destruct b
  | |- context [match ?x with _ => _ end] => destruct x
  end; reflexivity.
Qed.

(** The transfer of an enum changes no name either. *)
Lemma transfer_enum_value_name params i h_item j_item :
  j_name (fst (transfer_enum_value ctx params i h_item j_item))
  = j_name j_item.
Proof.
  unfold transfer_enum_value.
  destruct (enum_items h_item) as [|e es]; [done|].
  destruct (j_enum_items j_item) as [items|]; [|done].
  destruct (ei_value <$> _) as [sv|]; [|done].
  destruct (head _) as [k|].
  - pose proof (force_update_enum_selection_name params i k
                  (with_j_enum_items
                     (alter (λ it, EnumItem true (ei_value it)) k
                            (map clear_option items)) j_item)) as Hname.
    destruct (force_update_enum_selection _ _ _ _ _) as [j1 ok].
    cbn [fst] in Hname. by destruct ok.
  - done.
Qed.

(** One target: the step always returns. *)
Lemma transfer_to_returns h_item i st :
  ∃ st', transfer_to ctx excluded_parameters h_item i st = Ok st'.
Proof.
  unfold transfer_to.
  destruct (json_parameters st !! i) as [j_item|]; [|by eexists].
  destruct (is_excluded _ _); [by eexists|].
  destruct (String.eqb _ ""); [by eexists|].
  destruct (String.eqb _ "enum").
  { destruct (transfer_enum_value _ _ _ _ _). by eexists. }
  match goal with
  | |- context [copy_value_by_type ?h ?j ?dt] =>
      destruct (copy_value_by_type_cases h j dt) as [->|(j' & -> & _)]
  end; by eexists.
Qed.

(** An excluded target is passed over. *)
Lemma transfer_to_excluded h_item i j_item st :
  json_parameters st !! i = Some j_item →
  is_excluded excluded_parameters (j_name j_item) = true →
  transfer_to ctx excluded_parameters h_item i st = Ok st.
Proof. intros Hj Hex. unfold transfer_to. by rewrite Hj, Hex. Qed.

(** What one target can change: no name, and in the two sets nothing
    but the name of the source field. *)
Lemma transfer_to_frame h_item i st st' :
  transfer_to ctx excluded_parameters h_item i st = Ok st' →
  map j_name (json_parameters st') = map j_name (json_parameters st) ∧
  transferred st' ⊆ {[p_name h_item]} ∪ transferred st ∧
  not_transferred st' ⊆ {[p_name h_item]} ∪ not_transferred st.
Proof.
  unfold transfer_to.
  destruct (json_parameters st !! i) as [j_item|] eqn:Hj;
    [|intros [= <-]; set_solver].
  destruct (is_excluded _ _); [intros [= <-]; set_solver|].
  destruct (String.eqb _ ""); [intros [= <-]; simpl; set_solver|].
  assert (∀ j_item', j_name j_item' = j_name j_item →
            map j_name (<[i := j_item']> (json_parameters st))
            = map j_name (json_parameters st)) as Hnames.
  { intros j_item' Hname. rewrite list_fmap_insert, Hname.
    apply list_insert_id. by rewrite list_lookup_fmap, Hj. }
  destruct (String.eqb _ "enum").
  { pose proof (transfer_enum_value_name (json_parameters st) i h_item j_item)
      as Hname.
    destruct (transfer_enum_value _ _ _ _ _) as [j_item' ok].
    cbn [fst] in Hname. intros [= <-].
    destruct (ok && _); cbn; (split; [by apply Hnames|set_solver]). }
  destruct (copy_value_by_type _ _ _) as [j_item'| | |] eqn:Hcopy;
    try done; intros [= <-]; simpl; [|set_solver].
  split; [|set_solver].
  apply Hnames. by eapply copy_value_by_type_name.
Qed.

Lemma transfer_item_returns json_with_segs h_item st :
  ∃ st',
    transfer_item ctx special_aliases excluded_parameters json_with_segs
      h_item st = Ok st'.
Proof.
  unfold transfer_item.
  destruct (find_matches _ _ _ _) as [|i matches]; [by eexists|].
  apply for_each_returns. intros k q. apply transfer_to_returns.
Qed.

(** The run always returns. *)
Lemma execute_returns hs js :
  ∃ st', execute ctx special_aliases excluded_parameters hs js = Ok st'.
Proof.
  unfold execute. apply for_each_returns.
  intros h q. apply transfer_item_returns.
Qed.

Lemma transfer_item_frame json_with_segs h_item st st' :
  transfer_item ctx special_aliases excluded_parameters json_with_segs
    h_item st = Ok st' →
  map j_name (json_parameters st') = map j_name (json_parameters st) ∧
  transferred st' ⊆ {[p_name h_item]} ∪ transferred st ∧
  not_transferred st' ⊆ {[p_name h_item]} ∪ not_transferred st.
Proof.
  unfold transfer_item.
  destruct (find_matches _ _ _ _) as [|i matches];
    [intros [= <-]; simpl; set_solver|].
  generalize (i :: matches). clear i matches. intros matches Hrun.
  apply (for_each_preserves
           (λ q, map j_name (json_parameters q) = map j_name (json_parameters st) ∧
                 transferred q ⊆ {[p_name h_item]} ∪ transferred st ∧
                 not_transferred q ⊆ {[p_name h_item]} ∪ not_transferred st)
           _ matches) with (s := st) (s' := st') in Hrun; [done| |set_solver].
  intros i q1 q2 _ (Hn & Ht & Hnt) Hstep.
  apply transfer_to_frame in Hstep as (Hn' & Ht' & Hnt').
  split; [congruence|set_solver].
Qed.

(** A source field all of whose matches are excluded leaves the state
    as it is. *)
Lemma transfer_item_all_excluded json_with_segs h_item st :
  let matches :=
    find_matches special_aliases json_with_segs
      (map j_name (json_parameters st)) (strip_hson_type (p_name h_item)) in
  matches ≠ [] →
  (∀ i j_item, i ∈ matches → json_parameters st !! i = Some j_item →
               is_excluded excluded_parameters (j_name j_item) = true) →
  transfer_item ctx special_aliases excluded_parameters json_with_segs
    h_item st = Ok st.
Proof.
  intros matches Hne Hall. unfold transfer_item. fold matches.
  destruct matches as [|i0 rest] eqn:Hm; [done|]. clear Hne.
  revert Hall. generalize (i0 :: rest). intros l Hall.
  induction l as [|i l IH]; [done|]. simpl.
  destruct (json_parameters st !! i) as [j_item|] eqn:Hj.
  - rewrite (transfer_to_excluded _ _ j_item); [|done|].
    + simpl. apply IH. intros i' j' Hi'. apply Hall. by apply list_elem_of_further.
    + eapply Hall; [apply list_elem_of_here|done].
  - unfold transfer_to. rewrite Hj. simpl.
    apply IH. intros i' j' Hi'. apply Hall. by apply list_elem_of_further.
Qed.

(** An excluded target is never written. *)
Lemma transfer_to_keeps_excluded h_item i st st' k j_item :
  json_parameters st !! k = Some j_item →
  is_excluded excluded_parameters (j_name j_item) = true →
  transfer_to ctx excluded_parameters h_item i st = Ok st' →
  json_parameters st' !! k = Some j_item.
Proof.
  intros Hk Hex. unfold transfer_to.
  destruct (json_parameters st !! i) as [ji|] eqn:Hi; [|by intros [= <-]].
  destruct (is_excluded _ (j_name ji)) eqn:Hexi; [by intros [= <-]|].
  assert (i ≠ k) as Hne by (intros ->; congruence).
  destruct (String.eqb _ ""); [by intros [= <-]|].
  destruct (String.eqb _ "enum").
  { destruct (transfer_enum_value _ _ _ _ _) as [j_item' ok].
    intros [= <-]. destruct (ok && _); cbn; by rewrite list_lookup_insert_ne. }
  destruct (copy_value_by_type _ _ _); try done; intros [= <-]; simpl;
    [|done].
  by rewrite list_lookup_insert_ne.
Qed.

Lemma transfer_item_keeps_excluded json_with_segs h_item st st' k j_item :
  json_parameters st !! k = Some j_item →
  is_excluded excluded_parameters (j_name j_item) = true →
  transfer_item ctx special_aliases excluded_parameters json_with_segs
    h_item st = Ok st' →
  json_parameters st' !! k = Some j_item.
Proof.
  intros Hk Hex. unfold transfer_item.
  destruct (find_matches _ _ _ _) as [|i matches]; [by intros [= <-]|].
  generalize (i :: matches). clear i matches. intros matches Hrun.
  apply (for_each_preserves (λ q, json_parameters q !! k = Some j_item)
           _ matches) with (s := st) (s' := st') in Hrun; [done| |done].
  intros i q1 q2 _ Hq1 Hstep. by eapply transfer_to_keeps_excluded.
Qed.

Lemma execute_json_with_segs (js : list json_param) :
  map (λ j, extract_json_segments (j_name j)) js
    = map extract_json_segments (map j_name js).
Proof. by rewrite map_map. Qed.

(** Over the whole run, an excluded target keeps its values. *)
Lemma execute_keeps_excluded hs js st' k j_item :
  execute ctx special_aliases excluded_parameters hs js = Ok st' →
  js !! k = Some j_item →
  is_excluded excluded_parameters (j_name j_item) = true →
  json_parameters st' !! k = Some j_item.
Proof.
  unfold execute. intros Hrun Hk Hex.
  apply (for_each_preserves (λ q, json_parameters q !! k = Some j_item)
           _ hs) with (s' := st') in Hrun; [done| |done].
  intros h q1 q2 _ Hq1 Hstep. by eapply transfer_item_keeps_excluded.
Qed.

(** Over the whole run, a source name whose matches are all excluded
    enters neither set. *)
Lemma execute_skips_field hs js st' raw_h :
  execute ctx special_aliases excluded_parameters hs js = Ok st' →
  (∀ h, h ∈ hs → p_name h = raw_h →
     only_excluded_matches special_aliases excluded_parameters
       (map j_name js) raw_h) →
  (raw_h ∉ transferred st') ∧ (raw_h ∉ not_transferred st').
Proof.
  unfold execute. rewrite execute_json_with_segs. intros Hrun Hall.
  apply (for_each_preserves
           (λ q, map j_name (json_parameters q) = map j_name js ∧
                 (raw_h ∉ transferred q) ∧ (raw_h ∉ not_transferred q))
           _ hs) with (s' := st') in Hrun; [by destruct Hrun| |set_solver].
  intros h q1 q2 Hh (Hn & Ht & Hnt) Hstep.
  destruct (decide (p_name h = raw_h)) as [Heq|Hne].
  - destruct (Hall h Hh Heq) as [Hne Hex].
    rewrite transfer_item_all_excluded in Hstep.
    + by injection Hstep as <-.
    + by rewrite Hn, Heq.
    + rewrite Hn, Heq. intros i j_item Hi Hj. apply (Hex i); [done|].
      by rewrite <- Hn, list_lookup_fmap, Hj.
  - apply transfer_item_frame in Hstep as (Hn' & Ht' & Hnt').
    split; [congruence|]. set_solver.
Qed.

End exclusion.

(** C7.  Every transfer runs to its end, also when a source with enum
    options meets a target (the copy of an enum that raises is caught
    and the source counted as not transferred).  In the state it ends
    in, a target whose slash-joined segment path is on the exclusion
    list has been written by nothing; and a source field whose matches
    (direct, or through an alias) are all such targets is in neither
    the transferred set nor the not-transferred set. *)
Theorem excluded_targets_are_skipped
    ctx special_aliases excluded_parameters hs js :
  ∃ st',
    execute ctx special_aliases excluded_parameters hs js = Ok st' ∧
    (∀ k j_item, js !! k = Some j_item →
       is_excluded excluded_parameters (j_name j_item) = true →
       json_parameters st' !! k = Some j_item) ∧
    (∀ raw_h,
       (∀ h, h ∈ hs → p_name h = raw_h →
          only_excluded_matches special_aliases excluded_parameters
            (map j_name js) raw_h) →
       (raw_h ∉ transferred st') ∧ (raw_h ∉ not_transferred st')).
Proof.
  destruct (execute_returns ctx special_aliases excluded_parameters hs js)
    as [st' Hrun].
  exists st'. split; [exact Hrun|]. split.
  - intros k j_item Hk Hex. by eapply execute_keeps_excluded.
  - intros raw_h Hall. by eapply execute_skips_field.
Qed.

Lemma excluded_targets_are_skipped_witness :
  ∃ st',
    execute TheObject Samples.speed_aliases
      ["velocity/value/float"; "mode/enum"]
      [Samples.speed_source; Samples.mode_source]
      [Samples.velocity_target; Samples.mode_target; Samples.state_target]
    = Ok st' ∧
    json_parameters st' !! 0 = Some Samples.velocity_target ∧
    json_parameters st' !! 1 = Some Samples.mode_target ∧
    ("Speed:float" ∉ transferred st') ∧ ("Speed:float" ∉ not_transferred st').
Proof.
  destruct (excluded_targets_are_skipped TheObject Samples.speed_aliases
              ["velocity/value/float"; "mode/enum"]
              [Samples.speed_source; Samples.mode_source]
              [Samples.velocity_target; Samples.mode_target;
               Samples.state_target])
    as (st' & Hrun & Hkeep & Hsets).
  exists st'. split; [exact Hrun|]. split; [|split].
  - apply (Hkeep 0 Samples.velocity_target); reflexivity.
  - apply (Hkeep 1 Samples.mode_target); reflexivity.
  - apply Hsets. intros h Hh Hname. split.
    + vm_compute. discriminate.
    + intros i name Hi Hlookup.
      assert (i = 0) as ->.
      { vm_compute in Hi. by apply list_elem_of_singleton in Hi. }
      by injection Hlookup as <-.
Defined.

(** ** C5: flattening and re-nesting *)

Lemma json_dict_ind (P : json → Prop) :
  (∀ v, is_dict v = false → P v) →
  (∀ d, Forall (λ kv, P (snd kv)) d → P (JDict d)) →
  ∀ v, P v.
Proof.
  intros Hleaf Hdict.
  fix IH 1. intros [| | | | | |d]; try (by apply Hleaf).
  apply Hdict. induction d as [|[k x] d IHd]; constructor; [apply IH|exact IHd].
Qed.

Section split_join.

Lemma join_cons2 (a b : string) (l : list string) :
  PyStr.join ":" (a :: b :: l) = a +:+ ":" +:+ PyStr.join ":" (b :: l).
Proof. reflexivity. Qed.

Lemma split_char_cons (c : ascii) (s : string) :
  Ascii.eqb c ":"%char = false →
  PyStr.split_char ":" (String c s)
    = match PyStr.split_char ":" s with
      | [] => [String c ""]
      | w :: ws => String c w :: ws
      end.
Proof. intros H. simpl. by rewrite H. Qed.

Lemma split_char_no_colon (a : string) :
  no_colon a = true → PyStr.split_char ":" a = [a].
Proof.
  induction a as [|c a IH]; [done|]. intros H. unfold no_colon in H.
  simpl in H. apply andb_true_iff in H as [Hc Ha].
  apply negb_true_iff in Hc. rewrite split_char_cons, IH; done.
Qed.

Lemma split_char_segment (a rest : string) :
  no_colon a = true →
  PyStr.split_char ":" (a +:+ ":" +:+ rest) = a :: PyStr.split_char ":" rest.
Proof.
  induction a as [|c a IH]; [done|]. intros H. unfold no_colon in H.
  simpl in H. apply andb_true_iff in H as [Hc Ha].
  apply negb_true_iff in Hc.
  rewrite append_cons, split_char_cons, IH; done.
Qed.

(** Splitting a joined path gives the path back. *)
Lemma split_join (l : list string) :
  l ≠ [] → Forall (λ a, no_colon a = true) l →
  PyStr.split_char ":" (PyStr.join ":" l) = l.
Proof.
  induction l as [|a l IH]; [done|]. intros _ Hall.
  apply Forall_cons in Hall as [Ha Hall].
  destruct l as [|b l]; [by apply split_char_no_colon|].
  rewrite join_cons2, split_char_segment, IH; done.
Qed.

Lemma join_nonempty (l : list string) :
  l ≠ [] → Forall (λ a, a ≠ "") l → PyStr.join ":" l ≠ "".
Proof.
  destruct l as [|a l]; [done|]. intros _ Hall.
  apply Forall_cons in Hall as [Ha _].
  destruct l as [|b l]; [done|]. rewrite join_cons2.
  destruct a; [done|]. by rewrite append_cons.
Qed.

Lemma join_snoc (l : list string) (k : string) :
  l ≠ [] → PyStr.join ":" (l ++ [k]) = PyStr.join ":" l +:+ ":" +:+ k.
Proof.
  induction l as [|a l IH]; [done|]. intros _.
  destruct l as [|b l]; [done|].
  change ((a :: b :: l) ++ [k]) with (a :: (b :: l) ++ [k]).
  change ((b :: l) ++ [k]) with (b :: (l ++ [k])) at 1.
  rewrite join_cons2. change (b :: l ++ [k]) with ((b :: l) ++ [k]).
  rewrite IH; [|done]. rewrite join_cons2.
  by rewrite !append_assoc.
Qed.

(** [child_key] extends the joined path by one key. *)
Lemma child_key_join (p : list string) (k : string) :
  Forall (λ a, a ≠ "") p →
  child_key (PyStr.join ":" p) k = PyStr.join ":" (p ++ [k]).
Proof.
  intros Hp. unfold child_key. destruct p as [|a p]; [done|].
  destruct (String.eqb_spec (PyStr.join ":" (a :: p)) "") as [E|_].
  - by apply join_nonempty in E.
  - by rewrite join_snoc.
Qed.

End split_join.

Section ordered_dicts.

Context {V : Type}.

Lemma dict_get_fresh (k : string) (d : dict V) :
  k ∉ map fst d → dict_get k d = None.
Proof.
  induction d as [|[k' v] d IH]; [done|]. simpl. intros Hk.
  destruct (String.eqb_spec k k') as [->|_]; [set_solver|].
  apply IH. set_solver.
Qed.

Lemma dict_set_fresh (k : string) (v : V) (d : dict V) :
  k ∉ map fst d → dict_set k v d = d ++ [(k, v)].
Proof.
  induction d as [|[k' v'] d IH]; [done|]. simpl. intros Hk.
  destruct (String.eqb_spec k k') as [->|_]; [set_solver|].
  rewrite IH; [done|set_solver].
Qed.

Lemma dict_get_last (k : string) (v : V) (d : dict V) :
  k ∉ map fst d → dict_get k (d ++ [(k, v)]) = Some v.
Proof.
  induction d as [|[k' v'] d IH]; simpl; [by rewrite String.eqb_refl|].
  intros Hk. destruct (String.eqb_spec k k') as [->|_]; [set_solver|].
  apply IH. set_solver.
Qed.

Lemma dict_set_last (k : string) (v v' : V) (d : dict V) :
  k ∉ map fst d → dict_set k v' (d ++ [(k, v)]) = d ++ [(k, v')].
Proof.
  induction d as [|[k0 v0] d IH]; simpl; [by rewrite String.eqb_refl|].
  intros Hk. destruct (String.eqb_spec k k0) as [->|_]; [set_solver|].
  rewrite IH; [done|set_solver].
Qed.

Lemma dict_update_fresh (e d : dict V) :
  NoDup (map fst e) →
  (∀ k, k ∈ map fst e → k ∉ map fst d) →
  dict_update d e = d ++ e.
Proof.
  unfold dict_update. revert d.
  induction e as [|[k v] e IH]; intros d Hnd Hfresh; simpl.
  - by rewrite app_nil_r.
  - simpl in Hnd. apply NoDup_cons in Hnd as [Hk Hnd].
    rewrite dict_set_fresh; [|apply Hfresh; set_solver].
    rewrite IH; [by rewrite <- app_assoc|done|].
    intros k' Hk'. rewrite map_app. simpl.
    intros [Hin|Hin]%elem_of_app.
    + apply (Hfresh k'); [set_solver|done].
    + apply list_elem_of_singleton in Hin as ->. done.
Qed.

End ordered_dicts.

Section insert_parts_facts.

Lemma plain_key_not_index (k : string) :
  plain_key k = true → index_part k = None.
Proof.
  unfold plain_key. intros H. apply andb_true_iff in H as [_ H].
  by destruct (index_part k).
Qed.

Lemma plain_key_no_colon (k : string) :
  plain_key k = true → no_colon k = true.
Proof.
  unfold plain_key. intros H. apply andb_true_iff in H as [H _].
  by apply andb_true_iff in H as [_ H].
Qed.

Lemma plain_key_nonempty (k : string) : plain_key k = true → k ≠ "".
Proof.
  unfold plain_key. intros H. apply andb_true_iff in H as [H _].
  apply andb_true_iff in H as [H _]. apply negb_true_iff in H.
  by destruct (String.eqb_spec k "").
Qed.

(** Inserting into a map leaves a map. *)
Lemma insert_parts_dict parts value d :
  ∃ d', fst (insert_parts parts value (JDict d)) = JDict d'.
Proof.
  destruct parts as [|part rest]; [by eexists|]. simpl.
  destruct (index_part part) as [[base idx]|]; destruct rest as [|r rest].
  - by eexists.
  - destruct (insert_parts (r :: rest) value _). by eexists.
  - by eexists.
  - destruct (insert_parts (r :: rest) value _). by eexists.
Qed.

Lemma insert_parts_plain_step k r q y d :
  index_part k = None →
  insert_parts (k :: r :: q) y (JDict d)
    = let '(sub', ok) :=
        insert_parts (r :: q) y
          match dict_get k d with
          | Some (JDict s) => JDict s
          | _ => JDict []
          end in
      (JDict (dict_set k sub' d), ok).
Proof. intros H. simpl. rewrite H. reflexivity. Qed.

Lemma insert_leaf k x acc :
  plain_key k = true → k ∉ map fst acc →
  insert_parts [k] x (JDict acc) = (JDict (acc ++ [(k, x)]), true).
Proof.
  intros Hk Hfresh. simpl. rewrite (plain_key_not_index k Hk).
  by rewrite dict_set_fresh.
Qed.

Lemma insert_under k q y acc s0 :
  plain_key k = true → k ∉ map fst acc → q ≠ [] →
  insert_parts (k :: q) y (JDict (acc ++ [(k, JDict s0)]))
    = (JDict (acc ++ [(k, fst (insert_parts q y (JDict s0)))]),
       snd (insert_parts q y (JDict s0))).
Proof.
  intros Hk Hfresh Hq. destruct q as [|r q]; [done|].
  rewrite insert_parts_plain_step; [|by apply plain_key_not_index].
  rewrite dict_get_last; [|done].
  destruct (insert_parts (r :: q) y (JDict s0)) as [sub' ok].
  by rewrite dict_set_last.
Qed.

Lemma insert_under_new k q y acc :
  plain_key k = true → k ∉ map fst acc → q ≠ [] →
  insert_parts (k :: q) y (JDict acc)
    = (JDict (acc ++ [(k, fst (insert_parts q y (JDict [])))]),
       snd (insert_parts q y (JDict []))).
Proof.
  intros Hk Hfresh Hq. destruct q as [|r q]; [done|].
  rewrite insert_parts_plain_step; [|by apply plain_key_not_index].
  rewrite dict_get_fresh; [|done].
  destruct (insert_parts (r :: q) y (JDict [])) as [sub' ok].
  by rewrite dict_set_fresh.
Qed.

Lemma nest_paths_app l1 l2 t t1 :
  nest_paths l1 t = (t1, true) →
  nest_paths (l1 ++ l2) t = nest_paths l2 t1.
Proof.
  revert t. induction l1 as [|[q x] l1 IH]; intros t H; simpl in *.
  - by injection H as ->.
  - destruct (insert_parts q x t) as [t' [|]]; [by apply IH|done].
Qed.

(** Paths under a key [k] that is already there build the subtree of
    [k] and leave the rest of the map alone. *)
Lemma nest_paths_under k acc paths :
  plain_key k = true → k ∉ map fst acc →
  Forall (λ qx, fst qx ≠ []) paths →
  ∀ s0,
    nest_paths (map (λ qx, (k :: fst qx, snd qx)) paths)
      (JDict (acc ++ [(k, JDict s0)]))
    = (JDict (acc ++ [(k, fst (nest_paths paths (JDict s0)))]),
       snd (nest_paths paths (JDict s0))).
Proof.
  intros Hk Hfresh. induction paths as [|[q y] paths IH]; intros Hq s0;
    [done|].
  apply Forall_cons in Hq as [Hq Hrest]. simpl in Hq.
  cbn [map nest_paths fst snd]. rewrite insert_under; [|done..].
  destruct (insert_parts_dict q y s0) as [s1 Hs1].
  destruct (insert_parts q y (JDict s0)) as [t ok]. simpl in *. subst t.
  destruct ok; [|done]. by apply IH.
Qed.

Lemma nest_paths_under_new k acc paths :
  plain_key k = true → k ∉ map fst acc →
  paths ≠ [] → Forall (λ qx, fst qx ≠ []) paths →
  nest_paths (map (λ qx, (k :: fst qx, snd qx)) paths) (JDict acc)
  = (JDict (acc ++ [(k, fst (nest_paths paths (JDict [])))]),
     snd (nest_paths paths (JDict []))).
Proof.
  intros Hk Hfresh Hne Hq. destruct paths as [|[q y] paths]; [done|].
  apply Forall_cons in Hq as [Hq Hrest]. simpl in Hq.
  cbn [map nest_paths fst snd]. rewrite insert_under_new; [|done..].
  destruct (insert_parts_dict q y []) as [s1 Hs1].
  destruct (insert_parts q y (JDict [])) as [t ok]. simpl in *. subst t.
  destruct ok; [|done]. by apply nest_paths_under.
Qed.

End insert_parts_facts.

Section leaf_paths_facts.

Lemma leaf_paths_cons k x d :
  leaf_paths (JDict ((k, x) :: d)) = entry_paths k x ++ leaf_paths (JDict d).
Proof. reflexivity. Qed.

Lemma entries_of_forallb (d : dict json) :
  forallb (λ kv, let '(k, x) := kv in plain_key k && regular_value x) d = true →
  Forall (λ kv, plain_key (fst kv) = true ∧ regular_value (snd kv) = true) d.
Proof.
  induction d as [|[k x] d IH]; simpl; [constructor|].
  intros [[Hk Hx]%andb_true_iff Hd]%andb_true_iff.
  constructor; [done|by apply IH].
Qed.

Lemma regular_value_entries d :
  regular_value (JDict d) = true → d ≠ [] ∧ regular_entries d.
Proof.
  cbn [regular_value].
  intros [[Hne Hnd]%andb_true_iff Hall]%andb_true_iff.
  split; [by destruct d|]. split.
  - by apply bool_decide_eq_true in Hnd.
  - by apply entries_of_forallb.
Qed.

Lemma regular_tree_entries d : regular_tree d = true → regular_entries d.
Proof.
  unfold regular_tree. intros [Hnd Hall]%andb_true_iff. split.
  - by apply bool_decide_eq_true in Hnd.
  - by apply entries_of_forallb.
Qed.

Lemma entry_paths_heads k x :
  Forall (λ qx, ∃ q, fst qx = k :: q) (entry_paths k x).
Proof.
  unfold entry_paths.
  destruct x; try (constructor; [by eexists|constructor]).
  apply Forall_forall. intros qx (qy & -> & _)%list_elem_of_fmap. by eexists.
Qed.

(** Every path starts with a key of the map. *)
Lemma leaf_paths_heads d :
  Forall (λ qx, ∃ k q, fst qx = k :: q ∧ k ∈ map fst d) (leaf_paths (JDict d)).
Proof.
  induction d as [|[k x] d IH]; [constructor|].
  rewrite leaf_paths_cons. apply Forall_app. split.
  - eapply Forall_impl; [apply entry_paths_heads|].
    intros qx [q Hq]. exists k, q. split; [done|]. simpl. set_solver.
  - eapply Forall_impl; [exact IH|].
    intros qx (k' & q & Hq & Hk'). exists k', q. split; [done|].
    simpl. set_solver.
Qed.

Lemma leaf_paths_nonempty_path v :
  Forall (λ qx, fst qx ≠ []) (leaf_paths v).
Proof.
  destruct v as [| | | | | |d]; try constructor.
  eapply Forall_impl; [apply leaf_paths_heads|].
  by intros qx (k & q & -> & _).
Qed.

(** A regular map has a leaf. *)
Lemma leaf_paths_nonempty v :
  ∀ d, v = JDict d → regular_value v = true → leaf_paths v ≠ [].
Proof.
  induction v as [v Hv|d IH] using json_dict_ind; intros d' Heq Hreg;
    [by subst|].
  injection Heq as <-.
  apply regular_value_entries in Hreg as [Hne [_ Hall]].
  destruct d as [|[k x] d]; [done|].
  apply Forall_cons in Hall as [[_ Hx] _].
  apply Forall_cons in IH as [IHx _]. simpl in Hx, IHx.
  rewrite leaf_paths_cons. unfold entry_paths.
  destruct x as [| | | | | |sub]; try done.
  intros [Hnil _]%app_eq_nil. apply fmap_nil_inv in Hnil.
  by eapply IHx.
Qed.

(** Nesting the paths of the entries of a map appends the entries. *)
Lemma nest_paths_entries d :
  Forall (λ kv, ∀ sub, snd kv = JDict sub →
                       regular_value (snd kv) = true →
                       nest_paths (leaf_paths (snd kv)) (JDict [])
                         = (snd kv, true)) d →
  regular_entries d →
  ∀ acc,
    (∀ k, k ∈ map fst d → k ∉ map fst acc) →
    nest_paths (leaf_paths (JDict d)) (JDict acc) = (JDict (acc ++ d), true).
Proof.
  induction d as [|[k x] d IH]; intros Hsub [Hnd Hall] acc Hfresh.
  - by rewrite app_nil_r.
  - apply Forall_cons in Hsub as [Hx Hsub].
    apply Forall_cons in Hall as [[Hk Hregx] Hall].
    simpl in Hnd. apply NoDup_cons in Hnd as [Hknew Hnd].
    simpl in Hk, Hregx, Hx.
    assert (k ∉ map fst acc) as Hkacc by (apply Hfresh; simpl; set_solver).
    rewrite leaf_paths_cons.
    rewrite (nest_paths_app _ _ _ (JDict (acc ++ [(k, x)]))).
    + rewrite IH; [by rewrite <- app_assoc|done|done|].
      intros k' Hk'. rewrite map_app. simpl.
      intros [Hin|Hin]%elem_of_app.
      * apply (Hfresh k'); [simpl; set_solver|done].
      * apply list_elem_of_singleton in Hin as ->. done.
    + unfold entry_paths.
      destruct x as [| | | | | |sub];
        try (cbn [nest_paths]; by rewrite insert_leaf).
      rewrite nest_paths_under_new; [|done|done| |].
      * by rewrite (Hx sub eq_refl Hregx).
      * by eapply leaf_paths_nonempty.
      * apply leaf_paths_nonempty_path.
Qed.

Lemma nest_paths_regular v :
  ∀ sub, v = JDict sub → regular_value v = true →
         nest_paths (leaf_paths v) (JDict []) = (v, true).
Proof.
  induction v as [v Hv|d IH] using json_dict_ind; intros sub Heq Hreg;
    [by subst|].
  apply regular_value_entries in Hreg as [_ Hent].
  rewrite (nest_paths_entries d IH Hent []); [done|].
  intros k _ Hin. by apply elem_of_nil in Hin.
Qed.

End leaf_paths_facts.

Section flatten_facts.

Lemma flatten_value_dict d parent_key :
  flatten_value (JDict d) parent_key
    = flatten_items flatten_value parent_key d [].
Proof. reflexivity. Qed.

Lemma flatten_items_leaf rec parent_key k x d items :
  is_dict x = false →
  flatten_items rec parent_key ((k, x) :: d) items
    = flatten_items rec parent_key d
        (dict_set (child_key parent_key k) x items).
Proof. by destruct x. Qed.

Lemma flatten_items_dict rec parent_key k sub d items :
  flatten_items rec parent_key ((k, JDict sub) :: d) items
    = flatten_items rec parent_key d
        (dict_update items (rec (JDict sub) (child_key parent_key k))).
Proof. reflexivity. Qed.

Lemma entry_paths_leaf k x : is_dict x = false → entry_paths k x = [([k], x)].
Proof. by destruct x. Qed.

Lemma plain_parts_snoc p k :
  Forall (λ a, a ≠ "") p → plain_key k = true →
  Forall (λ a, a ≠ "") (p ++ [k]).
Proof.
  intros Hp Hk. apply Forall_app. split; [done|].
  constructor; [by apply plain_key_nonempty|constructor].
Qed.

Lemma entry_paths_keys p k x :
  map (λ qx, (PyStr.join ":" ((p ++ [k]) ++ fst qx), snd qx)) (leaf_paths x)
    = map (λ qx, (PyStr.join ":" (p ++ fst qx), snd qx))
        (map (λ qx, (k :: fst qx, snd qx)) (leaf_paths x)).
Proof.
  rewrite map_map. apply map_ext. intros [q y]. simpl.
  by rewrite <- app_assoc.
Qed.

(** [flatten_items] appends one item for every leaf, keyed by the
    joined path, as long as no two joined paths coincide. *)
Lemma flatten_items_entries d :
  Forall (λ kv, ∀ sub p,
            snd kv = JDict sub → regular_value (snd kv) = true →
            Forall (λ a, a ≠ "") p →
            NoDup (map (λ qx, PyStr.join ":" (p ++ fst qx))
                       (leaf_paths (snd kv))) →
            flatten_value (snd kv) (PyStr.join ":" p)
              = map (λ qx, (PyStr.join ":" (p ++ fst qx), snd qx))
                    (leaf_paths (snd kv))) d →
  regular_entries d →
  ∀ p items,
    Forall (λ a, a ≠ "") p →
    NoDup (map fst items
             ++ map (λ qx, PyStr.join ":" (p ++ fst qx))
                    (leaf_paths (JDict d))) →
    flatten_items flatten_value (PyStr.join ":" p) d items
      = items ++ map (λ qx, (PyStr.join ":" (p ++ fst qx), snd qx))
                     (leaf_paths (JDict d)).
Proof.
  induction d as [|[k x] d IH]; intros Hsub [Hnd Hall] p items Hp Hkeys.
  - simpl. by rewrite app_nil_r.
  - apply Forall_cons in Hsub as [Hx Hsub].
    apply Forall_cons in Hall as [[Hk Hregx] Hall].
    simpl in Hnd. apply NoDup_cons in Hnd as [_ Hnd].
    simpl in Hk, Hregx, Hx.
    rewrite leaf_paths_cons, map_app in Hkeys |- *.
    destruct (is_dict x) eqn:Hdict.
    + destruct x as [| | | | | |sub]; try discriminate Hdict.
      rewrite flatten_items_dict, child_key_join; [|done].
      assert (NoDup (map (λ qx, PyStr.join ":" ((p ++ [k]) ++ fst qx))
                         (leaf_paths (JDict sub)))) as Hsubkeys.
      { apply NoDup_app in Hkeys as (_ & _ & Hkeys).
        apply NoDup_app in Hkeys as (Hkeys & _ & _).
        unfold entry_paths in Hkeys. rewrite map_map in Hkeys.
        erewrite map_ext; [exact Hkeys|].
        intros [q y]. simpl. by rewrite <- app_assoc. }
      rewrite (Hx sub (p ++ [k]) eq_refl Hregx (plain_parts_snoc _ _ Hp Hk)
                  Hsubkeys).
      rewrite entry_paths_keys.
      change (map (λ qx, (k :: qx.1, qx.2)) (leaf_paths (JDict sub)))
        with (entry_paths k (JDict sub)).
      rewrite dict_update_fresh.
      * rewrite IH; [by rewrite <- app_assoc|done|done|done|].
        rewrite map_app, map_map. simpl. by rewrite <- app_assoc.
      * rewrite map_map. simpl.
        apply NoDup_app in Hkeys as (_ & _ & Hkeys).
        by apply NoDup_app in Hkeys as (Hkeys & _ & _).
      * rewrite map_map. simpl. intros key Hkey Hin.
        apply NoDup_app in Hkeys as (_ & Hdisj & _).
        apply (Hdisj key Hin). apply elem_of_app. by left.
    + rewrite flatten_items_leaf, child_key_join by done.
      rewrite (entry_paths_leaf k x Hdict) in Hkeys |- *. simpl in Hkeys |- *.
      rewrite dict_set_fresh.
      * rewrite IH; [by rewrite <- app_assoc|done|done|done|].
        rewrite map_app. simpl. rewrite <- app_assoc. exact Hkeys.
      * intros Hin. apply NoDup_app in Hkeys as (_ & Hdisj & _).
        apply (Hdisj _ Hin). apply list_elem_of_here.
Qed.

Lemma flatten_value_regular v :
  ∀ sub p,
    v = JDict sub → regular_value v = true →
    Forall (λ a, a ≠ "") p →
    NoDup (map (λ qx, PyStr.join ":" (p ++ fst qx)) (leaf_paths v)) →
    flatten_value v (PyStr.join ":" p)
      = map (λ qx, (PyStr.join ":" (p ++ fst qx), snd qx)) (leaf_paths v).
Proof.
  induction v as [v Hv|d IH] using json_dict_ind;
    intros sub p Heq Hreg Hp Hkeys; [by subst|].
  apply regular_value_entries in Hreg as [_ Hent].
  rewrite flatten_value_dict.
  by rewrite (flatten_items_entries d IH Hent p [] Hp Hkeys).
Qed.

End flatten_facts.

Section distinct_keys.

Lemma join_inj (l1 l2 : list string) :
  l1 ≠ [] → l2 ≠ [] →
  Forall (λ a, no_colon a = true) l1 →
  Forall (λ a, no_colon a = true) l2 →
  PyStr.join ":" l1 = PyStr.join ":" l2 → l1 = l2.
Proof.
  intros Hn1 Hn2 H1 H2 Heq.
  rewrite <- (split_join l1 Hn1 H1), <- (split_join l2 Hn2 H2).
  by rewrite Heq.
Qed.

(** The parts of every path of a regular tree are plain keys. *)
Lemma leaf_paths_plain v :
  ∀ d, v = JDict d → regular_entries d →
       Forall (λ qx, Forall (λ a, plain_key a = true) (fst qx)) (leaf_paths v).
Proof.
  induction v as [v Hv|d IH] using json_dict_ind; intros d' Heq Hent;
    [by subst|].
  injection Heq as <-. destruct Hent as [_ Hall].
  induction d as [|[k x] d IHd]; [constructor|].
  apply Forall_cons in IH as [IHx IH].
  apply Forall_cons in Hall as [[Hk Hregx] Hall]. simpl in Hk, Hregx, IHx.
  rewrite leaf_paths_cons. apply Forall_app. split; [|by apply IHd].
  unfold entry_paths.
  destruct x as [| | | | | |sub];
    try (constructor; [by repeat constructor|constructor]).
  apply Forall_forall. intros qx (qy & -> & Hqy)%list_elem_of_fmap. simpl.
  constructor; [done|].
  apply regular_value_entries in Hregx as [_ Hsub].
  pose proof (IHx sub eq_refl Hsub) as Hpaths.
  by apply (proj1 (Forall_forall _ _) Hpaths qy).
Qed.

(** No two leaves of a regular tree have the same path. *)
Lemma leaf_paths_NoDup v :
  ∀ d, v = JDict d → regular_entries d → NoDup (map fst (leaf_paths v)).
Proof.
  induction v as [v Hv|d IH] using json_dict_ind; intros d' Heq Hent;
    [by subst|].
  injection Heq as <-. destruct Hent as [Hnd Hall].
  induction d as [|[k x] d IHd]; [constructor|].
  apply Forall_cons in IH as [IHx IH].
  apply Forall_cons in Hall as [[Hk Hregx] Hall]. simpl in Hk, Hregx, IHx.
  simpl in Hnd. apply NoDup_cons in Hnd as [Hknew Hnd].
  rewrite leaf_paths_cons, map_app. apply NoDup_app. split; [|split].
  - unfold entry_paths.
    destruct x as [| | | | | |sub]; try apply NoDup_singleton.
    rewrite map_map. simpl.
    apply regular_value_entries in Hregx as [_ Hsub].
    rewrite <- (map_map fst (cons k)).
    apply NoDup_fmap_2_strong; [|by apply (IHx sub)].
    by intros q1 q2 _ _ [= ->].
  - intros q Hq Hq'.
    apply list_elem_of_fmap in Hq as (qx & -> & Hqx).
    apply list_elem_of_fmap in Hq' as (qy & Heq & Hqy).
    pose proof (proj1 (Forall_forall _ _) (entry_paths_heads k x) qx Hqx)
      as [q1 H1].
    pose proof (proj1 (Forall_forall _ _) (leaf_paths_heads d) qy Hqy)
      as (k' & q2 & H2 & Hk').
    rewrite H1, H2 in Heq. injection Heq as -> _. done.
  - by apply IHd.
Qed.

Lemma plain_parts_no_colon (q : list string) :
  Forall (λ a, plain_key a = true) q → Forall (λ a, no_colon a = true) q.
Proof.
  intros H. eapply Forall_impl; [exact H|]. apply plain_key_no_colon.
Qed.

(** So no two leaves get the same flat key. *)
Lemma leaf_keys_NoDup d :
  regular_entries d →
  NoDup (map (λ qx, PyStr.join ":" ([] ++ fst qx)) (leaf_paths (JDict d))).
Proof.
  intros Hent.
  rewrite (map_ext _ (λ qx, PyStr.join ":" (fst qx))) by done.
  rewrite <- (map_map fst (PyStr.join ":")).
  apply NoDup_fmap_2_strong; [|by eapply leaf_paths_NoDup].
  intros q1 q2 Hq1 Hq2 Heq.
  apply list_elem_of_fmap in Hq1 as (qx & -> & Hqx).
  apply list_elem_of_fmap in Hq2 as (qy & -> & Hqy).
  pose proof (leaf_paths_plain (JDict d) d eq_refl Hent) as Hplain.
  pose proof (leaf_paths_nonempty_path (JDict d)) as Hne.
  rewrite Forall_forall in Hplain, Hne.
  apply join_inj; [by apply Hne|by apply Hne| | |done];
    by apply plain_parts_no_colon, Hplain.
Qed.

(** On keys made by joining paths, [nest_items] is [nest_paths]. *)
Lemma nest_items_paths paths :
  Forall (λ qx, fst qx ≠ [] ∧ Forall (λ a, no_colon a = true) (fst qx)) paths →
  ∀ nested,
    nest_items (map (λ qx, (PyStr.join ":" (fst qx), snd qx)) paths) nested
      = fst (nest_paths paths nested).
Proof.
  induction paths as [|[q x] paths IH]; intros Hall nested; [done|].
  apply Forall_cons in Hall as [[Hq Hcol] Hall]. simpl in Hq, Hcol.
  cbn [map nest_items nest_paths fst snd]. rewrite split_join by done.
  destruct (insert_parts q x nested) as [nested' [|]]; [by apply IH|done].
Qed.

End distinct_keys.

(** C5, as the code has it.  For a tree of maps in which every key is
    non-empty, has no [":"] and is not a name followed by digits, the keys
    of each map are distinct, and no map below the root is empty, nesting
    the flattened tree gives the tree back, entry order included. *)
Theorem nest_flatten_round_trip (d : dict json) :
  regular_tree d = true →
  nest_parameters (flatten_dict d "") = JDict d.
Proof.
  intros Hent%regular_tree_entries.
  unfold nest_parameters, flatten_dict. rewrite flatten_value_dict.
  change "" with (PyStr.join ":" []).
  rewrite (flatten_items_entries d).
  - rewrite app_nil_l.
    rewrite (map_ext _ (λ qx, (PyStr.join ":" (fst qx), snd qx))) by done.
    rewrite nest_items_paths.
    + rewrite (nest_paths_entries d); [done| |done|].
      * apply Forall_forall. intros kv _. apply nest_paths_regular.
      * intros k _ Hin. by apply elem_of_nil in Hin.
    + pose proof (leaf_paths_plain (JDict d) d eq_refl Hent) as Hplain.
      pose proof (leaf_paths_nonempty_path (JDict d)) as Hne.
      rewrite Forall_forall in Hplain, Hne. apply Forall_forall.
      intros qx Hqx. split; [by apply Hne|].
      by apply plain_parts_no_colon, Hplain.
  - apply Forall_forall. intros kv _. apply flatten_value_regular.
  - done.
  - constructor.
  - by apply leaf_keys_NoDup.
Qed.

Lemma nest_flatten_round_trip_witness :
  nest_parameters (flatten_dict Samples.regular_sample "")
    = JDict Samples.regular_sample.
Proof.
  apply (nest_flatten_round_trip Samples.regular_sample).
  vm_compute. reflexivity.
Defined.

(** C5, as stated, fails: a tree of maps that holds an empty map, and one
    whose key reads as an array index (with no gap: index 0), do not come
    back. *)
Lemma nest_flatten_loses_trees :
  flatten_dict Samples.tree_with_empty_map "" = [] ∧
  nest_parameters (flatten_dict Samples.tree_with_empty_map "") = JDict [] ∧
  nest_parameters (flatten_dict Samples.tree_with_empty_map "")
    ≠ JDict Samples.tree_with_empty_map ∧
  nest_parameters (flatten_dict Samples.tree_with_index_key "")
    = JDict [("slot", JList [JInt 5])] ∧
  nest_parameters (flatten_dict Samples.tree_with_index_key "")
    ≠ JDict Samples.tree_with_index_key.
Proof.
  repeat split; try (vm_compute; reflexivity);
    intros H; vm_compute in H; discriminate H.
Qed.


(** * Further properties of the code *)

(** ** Characters and strings *)

Lemma lower_char_not_upper (c : ascii) :
  PyStr.is_upper (PyStr.lower_char c) = false.
Proof. destruct c as [[] [] [] [] [] [] [] []]; reflexivity. Qed.

Lemma all_chars_impl (p q : ascii → bool) (s : string) :
  (∀ c, p c = true → q c = true) →
  PyStr.all_chars p s = true → PyStr.all_chars q s = true.
Proof.
  intros Hpq. induction s as [|c s IH]; [done|]. simpl.
  intros [Hc Hs]%andb_true_iff. rewrite (Hpq c Hc). by apply IH.
Qed.

Lemma all_chars_append (p : ascii → bool) (s t : string) :
  PyStr.all_chars p (s +:+ t)
    = PyStr.all_chars p s && PyStr.all_chars p t.
Proof.
  induction s as [|c s IH]; [done|].
  rewrite append_cons. simpl. by rewrite IH, andb_assoc.
Qed.

Lemma all_chars_lower (s : string) :
  PyStr.all_chars (λ c, negb (PyStr.is_upper c)) (PyStr.lower s) = true.
Proof.
  induction s as [|c s IH]; [done|]. simpl.
  by rewrite lower_char_not_upper, IH.
Qed.

Lemma lower_fixed (s : string) :
  PyStr.all_chars (λ c, negb (PyStr.is_upper c)) s = true → PyStr.lower s = s.
Proof.
  induction s as [|c s IH]; [done|]. simpl.
  intros [Hc Hs]%andb_true_iff. apply negb_true_iff in Hc.
  unfold PyStr.lower_char. by rewrite Hc, IH.
Qed.

Lemma filter_chars_all (p : ascii → bool) (s : string) :
  PyStr.all_chars p (PyStr.filter_chars p s) = true.
Proof.
  induction s as [|c s IH]; [done|]. simpl.
  destruct (p c) eqn:Hc; [|done]. simpl. by rewrite Hc.
Qed.

Lemma filter_chars_fixed (p : ascii → bool) (s : string) :
  PyStr.all_chars p s = true → PyStr.filter_chars p s = s.
Proof.
  induction s as [|c s IH]; [done|]. simpl.
  intros [Hc Hs]%andb_true_iff. by rewrite Hc, IH.
Qed.

Lemma all_chars_split (p : ascii → bool) (sep : ascii) (s : string) :
  PyStr.all_chars p s = true →
  Forall (λ w, PyStr.all_chars p w = true) (PyStr.split_char sep s).
Proof.
  induction s as [|c s IH]; [by repeat constructor|]. simpl.
  intros [Hc Hs]%andb_true_iff. specialize (IH Hs).
  destruct (Ascii.eqb c sep); [by constructor|].
  destruct (PyStr.split_char sep s) as [|w ws].
  - constructor; [|constructor]. simpl. by rewrite Hc.
  - apply Forall_cons in IH as [Hw Hws]. constructor; [|done].
    simpl. by rewrite Hc.
Qed.

Lemma all_chars_join (p : ascii → bool) (sep : string) (l : list string) :
  PyStr.all_chars p sep = true →
  Forall (λ w, PyStr.all_chars p w = true) l →
  PyStr.all_chars p (PyStr.join sep l) = true.
Proof.
  intros Hsep. induction l as [|w l IH]; [done|].
  intros [Hw Hl]%Forall_cons. destruct l as [|w' l]; [done|].
  change (PyStr.join sep (w :: w' :: l))
    with (w +:+ sep +:+ PyStr.join sep (w' :: l)).
  rewrite !all_chars_append, Hw, Hsep. by apply IH.
Qed.

(** ** [normalize_segment] *)

Lemma alnum_not_upper (c : ascii) :
  PyStr.is_digit c || PyStr.is_lower c = true →
  negb (PyStr.is_upper c) = true.
Proof. destruct c as [[] [] [] [] [] [] [] []]; vm_compute; congruence. Qed.

(** X1.  [normalize_segment] keeps lower-case letters and digits only,
    and normalising a second time changes nothing. *)
Theorem normalize_segment_idempotent (seg : string) :
  PyStr.all_chars (λ c, PyStr.is_digit c || PyStr.is_lower c)
    (normalize_segment seg) = true ∧
  normalize_segment (normalize_segment seg) = normalize_segment seg.
Proof.
  assert (PyStr.all_chars (λ c, PyStr.is_digit c || PyStr.is_lower c)
            (normalize_segment seg) = true) as Hall
    by apply filter_chars_all.
  split; [done|]. unfold normalize_segment at 1.
  rewrite lower_fixed.
  - by apply filter_chars_fixed.
  - eapply all_chars_impl; [|exact Hall]. apply alnum_not_upper.
Qed.

(** ** [match_segment] *)

(** X2.  [match_segment] holds exactly when the normalised parts of the
    base path occur in the normalised segments as one contiguous run, in
    order, at any offset. *)
Theorem match_segment_contiguous (base_h : string) (segs : list string) :
  match_segment base_h segs = true ↔
  ∃ before after,
    map normalize_segment segs
      = before ++ map normalize_segment (PyStr.split_char ":" base_h) ++ after.
Proof.
  unfold match_segment.
  set (bp := map normalize_segment (PyStr.split_char ":" base_h)).
  set (sn := map normalize_segment segs).
  rewrite existsb_exists. split.
  - intros (i & _ & Hi). apply bool_decide_eq_true in Hi.
    exists (take i sn), (drop (length bp) (drop i sn)).
    rewrite <- Hi at 1. by rewrite !take_drop.
  - intros (before & after & Heq). exists (length before). split.
    + apply in_seq. rewrite Heq, !length_app. lia.
    + apply bool_decide_eq_true.
      by rewrite Heq, drop_app_length, take_app_length.
Qed.

(** ** [match_alias_candidate] *)

Lemma forallb_existsb_subset (l k : list string) :
  forallb (λ c, existsb (λ js, String.eqb c js) k) l = true ↔
  ∀ c, c ∈ l → c ∈ k.
Proof.
  rewrite forallb_forall. split.
  - intros H c Hc. apply list_elem_of_In in Hc.
    apply H, existsb_exists in Hc as (js & Hjs & Heq).
    apply String.eqb_eq in Heq as ->. by apply list_elem_of_In.
  - intros H c Hc. apply list_elem_of_In, H in Hc.
    apply existsb_exists. exists c. split; [by apply list_elem_of_In|].
    apply String.eqb_refl.
Qed.

(** X3.  An alias candidate matches a target exactly when it has a
    segment and each of its segments is among the target's segments, in
    any order; the typed-leaf rule for single-segment aliases adds no
    match of its own. *)
Theorem match_alias_candidate_superset (name candidate : string) :
  match_alias_candidate name candidate = true ↔
  extract_json_segments candidate ≠ [] ∧
  ∀ c, c ∈ extract_json_segments candidate → c ∈ extract_json_segments name.
Proof.
  unfold match_alias_candidate.
  destruct (extract_json_segments candidate) as [|c0 cs] eqn:Hc.
  - split; [done|]. by intros [? _].
  - rewrite <- forallb_existsb_subset.
    match goal with
    | |- context [if ?b then true else _] => destruct b eqn:Hleaf
    end; [|by split; [|intros [_ ?]]].
    split; [intros _|done]. split; [done|].
    destruct cs as [|? ?]; [|done].
    destruct (extract_json_segments name) as [|j0 [|j1 [|? ?]]]; try done.
    apply andb_true_iff in Hleaf as [Hj0 _].
    apply String.eqb_eq in Hj0 as ->.
    simpl. by rewrite String.eqb_refl.
Qed.

(** ** [strip_hson_type] *)

Lemma split_char_nonempty (sep : ascii) (s : string) :
  PyStr.split_char sep s ≠ [].
Proof.
  destruct s as [|c s]; [done|]. simpl.
  destruct (Ascii.eqb c sep); [done|].
  by destruct (PyStr.split_char sep s).
Qed.

Lemma split_char_snoc (b t : string) :
  no_colon t = true →
  PyStr.split_char ":" (b +:+ ":" +:+ t) = PyStr.split_char ":" b ++ [t].
Proof.
  intros Ht. induction b as [|c b IH].
  - change ("" +:+ ":" +:+ t) with (String ":" t). simpl.
    by rewrite split_char_no_colon.
  - rewrite append_cons. simpl. rewrite IH.
    destruct (Ascii.eqb c ":"); [done|].
    pose proof (split_char_nonempty ":" b) as Hne.
    by destruct (PyStr.split_char ":" b).
Qed.

Lemma join_split (s : string) :
  PyStr.join ":" (PyStr.split_char ":" s) = s.
Proof.
  induction s as [|c s IH]; [done|]. simpl.
  pose proof (split_char_nonempty ":" s) as Hne.
  destruct (Ascii.eqb_spec c ":") as [->|_].
  - destruct (PyStr.split_char ":" s) as [|w ws]; [done|].
    rewrite join_cons2, IH. done.
  - destruct (PyStr.split_char ":" s) as [|w ws]; [done|].
    destruct ws as [|w' ws].
    + simpl in IH |- *. by rewrite IH.
    + rewrite join_cons2 in IH |- *. by rewrite append_cons, IH.
Qed.

(** X4.  [strip_hson_type] removes the part after the last colon when,
    in lower case, it is one of [float], [int], [string], [bool] and
    [list], and only then; what is left is lower-cased and trimmed.  The
    suffixes [enum] and [vector] stay. *)
Theorem strip_hson_type_suffix (base tag : string) :
  no_colon tag = true →
  strip_hson_type (base +:+ ":" +:+ tag)
    = PyStr.strip
        (PyStr.lower
           (if in_strs (PyStr.lower tag) type_tags then base
            else base +:+ ":" +:+ tag)).
Proof.
  intros Htag. unfold strip_hson_type. rewrite (split_char_snoc _ _ Htag).
  pose proof (split_char_nonempty ":" base) as Hne.
  assert ((1 <? length (PyStr.split_char ":" base ++ [tag])) = true) as ->.
  { apply Nat.ltb_lt. rewrite length_app. simpl.
    destruct (PyStr.split_char ":" base); [done|simpl; lia]. }
  unfold PyStr.last_part. rewrite last_last, removelast_last, join_split.
  by destruct (in_strs (PyStr.lower tag) type_tags).
Qed.

Lemma strip_hson_type_suffix_witness :
  strip_hson_type ("Ring:Speed" +:+ ":" +:+ "Float") = "ring:speed" ∧
  strip_hson_type ("Mode" +:+ ":" +:+ "enum") = "mode:enum".
Proof.
  split.
  - rewrite (strip_hson_type_suffix "Ring:Speed" "Float"); reflexivity.
  - rewrite (strip_hson_type_suffix "Mode" "enum"); reflexivity.
Defined.

(** ** The exclusion list *)

Lemma segment_char_not_upper (c : ascii) :
  is_segment_char c = true → negb (PyStr.is_upper c) = true.
Proof. destruct c as [[] [] [] [] [] [] [] []]; vm_compute; congruence. Qed.

(** The segments of a name hold no capital letter. *)
Lemma extract_json_segments_lower (raw_name : string) :
  Forall (λ seg, PyStr.all_chars (λ c, negb (PyStr.is_upper c)) seg = true)
    (extract_json_segments raw_name).
Proof.
  unfold extract_json_segments.
  destruct (_ && _ && _).
  - apply Forall_forall. intros seg Hseg.
    apply list_elem_of_fmap in Hseg as (part & -> & _).
    apply all_chars_lower.
  - apply Forall_forall. intros seg Hseg.
    apply list_elem_of_In, filter_In in Hseg as [Hseg _].
    apply list_elem_of_In in Hseg. revert seg Hseg. apply Forall_forall.
    apply all_chars_split.
    eapply all_chars_impl; [apply segment_char_not_upper|].
    apply filter_chars_all.
Qed.

Lemma full_path_lower (name : string) :
  PyStr.lower (full_path name) = full_path name.
Proof.
  apply lower_fixed. unfold full_path.
  apply all_chars_join; [done|apply extract_json_segments_lower].
Qed.

(** X5.  The exclusion list is compared, entry by entry and letter for
    letter, with a path that is in lower case: an entry read by
    [load_excluded_parameters] excludes a target only if, trimmed, it
    is the target's slash-joined path, so an entry with a capital letter
    excludes nothing. *)
Theorem exclusion_entries_are_lower_case (excluded : list json) (name : string) :
  is_excluded (load_excluded_parameters excluded) name = true →
  ∃ s, JStr s ∈ excluded ∧
       PyStr.strip s = full_path name ∧
       PyStr.lower (PyStr.strip s) = PyStr.strip s.
Proof.
  unfold is_excluded, in_strs, load_excluded_parameters.
  intros (e & He & Heq)%existsb_exists.
  apply String.eqb_eq in Heq. subst e.
  apply list_elem_of_In, list_elem_of_omap in He as (p & Hp & Hsome).
  destruct p as [| | | |s| |]; try discriminate Hsome.
  injection Hsome as Hs. exists s. split; [done|]. split; [done|].
  rewrite Hs. apply full_path_lower.
Qed.

Lemma exclusion_entries_are_lower_case_witness :
  ∃ s, JStr s ∈ [JInt 3; JStr " velocity/value/float "] ∧
       PyStr.strip s = full_path "[Velocity/Value/Float]" ∧
       PyStr.lower (PyStr.strip s) = PyStr.strip s.
Proof.
  apply (exclusion_entries_are_lower_case
           [JInt 3; JStr " velocity/value/float "] "[Velocity/Value/Float]").
  vm_compute. reflexivity.
Defined.

(** ** The run of the transfer *)

Lemma transfer_to_grows ctx excluded_parameters h_item i st st' :
  transfer_to ctx excluded_parameters h_item i st = Ok st' →
  transferred st ⊆ transferred st' ∧ not_transferred st ⊆ not_transferred st'.
Proof.
  unfold transfer_to.
  destruct (json_parameters st !! i) as [j_item|]; [|by intros [= <-]].
  destruct (is_excluded _ _); [by intros [= <-]|].
  destruct (String.eqb _ ""); [intros [= <-]; simpl; set_solver|].
  destruct (String.eqb _ "enum").
  { destruct (transfer_enum_value _ _ _ _ _) as [j_item' ok].
    intros [= <-]. destruct (ok && _); cbn; set_solver. }
  destruct (copy_value_by_type _ _ _); try done; intros [= <-]; simpl;
    set_solver.
Qed.

Lemma transfer_to_decides ctx excluded_parameters h_item i st st' name :
  map j_name (json_parameters st) !! i = Some name →
  is_excluded excluded_parameters name = false →
  transfer_to ctx excluded_parameters h_item i st = Ok st' →
  p_name h_item ∈ transferred st' ∨ p_name h_item ∈ not_transferred st'.
Proof.
  rewrite list_lookup_fmap. unfold transfer_to.
  destruct (json_parameters st !! i) as [j_item|]; [|done].
  intros [= <-] ->.
  destruct (String.eqb _ ""); [intros [= <-]; simpl; set_solver|].
  destruct (String.eqb _ "enum").
  { destruct (transfer_enum_value _ _ _ _ _) as [j_item' ok].
    intros [= <-]. destruct (ok && _); cbn; set_solver. }
  destruct (copy_value_by_type _ _ _); try done; intros [= <-]; simpl;
    set_solver.
Qed.

Lemma transfer_matches_grow ctx excluded_parameters h_item matches st st' :
  for_each (transfer_to ctx excluded_parameters h_item) matches st = Ok st' →
  transferred st ⊆ transferred st' ∧ not_transferred st ⊆ not_transferred st'.
Proof.
  intros Hrun.
  apply (for_each_preserves
           (λ q, transferred st ⊆ transferred q ∧
                 not_transferred st ⊆ not_transferred q) _ matches)
    with (s' := st') in Hrun; [done| |done].
  intros i q1 q2 _ [Ht Hnt] Hstep.
  apply transfer_to_grows in Hstep as [Ht' Hnt']. set_solver.
Qed.

Lemma transfer_matches_decide ctx excluded_parameters h_item matches :
  ∀ st st' i name,
    i ∈ matches →
    map j_name (json_parameters st) !! i = Some name →
    is_excluded excluded_parameters name = false →
    for_each (transfer_to ctx excluded_parameters h_item) matches st = Ok st' →
    p_name h_item ∈ transferred st' ∨ p_name h_item ∈ not_transferred st'.
Proof.
  induction matches as [|m ms IH]; intros st st' i name Hi Hname Hex Hrun;
    [by apply elem_of_nil in Hi|].
  simpl in Hrun.
  destruct (transfer_to ctx excluded_parameters h_item m st)
    as [st1| | |] eqn:Hstep; try discriminate Hrun.
  simpl in Hrun. apply elem_of_cons in Hi as [->|Hi].
  - apply (transfer_to_decides _ _ _ _ _ _ name) in Hstep; [|done..].
    apply transfer_matches_grow in Hrun as [Ht Hnt]. set_solver.
  - apply transfer_to_frame in Hstep as (Hn & _ & _).
    eapply (IH st1 st' i name); [done|by rewrite Hn|done|done].
Qed.

Lemma transfer_item_grows ctx special_aliases excluded_parameters
    json_with_segs h_item st st' :
  transfer_item ctx special_aliases excluded_parameters json_with_segs
    h_item st = Ok st' →
  transferred st ⊆ transferred st' ∧ not_transferred st ⊆ not_transferred st'.
Proof.
  unfold transfer_item.
  destruct (find_matches _ _ _ _); [intros [= <-]; simpl; set_solver|].
  apply transfer_matches_grow.
Qed.

(** A list of matches that are not all excluded has one that is not. *)
Lemma some_match_not_excluded excluded_parameters (names : list string)
    (matches : list nat) :
  ¬ (∀ i name, i ∈ matches → names !! i = Some name →
               is_excluded excluded_parameters name = true) →
  ∃ i name, i ∈ matches ∧ names !! i = Some name ∧
            is_excluded excluded_parameters name = false.
Proof.
  induction matches as [|m ms IH]; intros Hnot.
  - exfalso. apply Hnot. intros i name Hi. by apply elem_of_nil in Hi.
  - destruct (names !! m) as [name|] eqn:Hm.
    + destruct (is_excluded excluded_parameters name) eqn:Hex.
      * destruct IH as (i & name' & Hi & Hname & Hex').
        { intros Hall. apply Hnot. intros i name' Hi Hname.
          apply elem_of_cons in Hi as [->|Hi]; [congruence|by eapply Hall]. }
        exists i, name'. split; [by apply list_elem_of_further|done].
      * exists m, name. split; [apply list_elem_of_here|done].
    + destruct IH as (i & name' & Hi & Hname & Hex').
      { intros Hall. apply Hnot. intros i name' Hi Hname.
        apply elem_of_cons in Hi as [->|Hi]; [congruence|by eapply Hall]. }
      exists i, name'. split; [by apply list_elem_of_further|done].
Qed.

Lemma execute_names_and_sources ctx special_aliases excluded_parameters
    hs js st' :
  execute ctx special_aliases excluded_parameters hs js = Ok st' →
  map j_name (json_parameters st') = map j_name js ∧
  length (json_parameters st') = length js ∧
  (∀ x, x ∈ transferred st' → ∃ h, h ∈ hs ∧ p_name h = x) ∧
  (∀ x, x ∈ not_transferred st' → ∃ h, h ∈ hs ∧ p_name h = x).
Proof.
  unfold execute. intros Hrun.
  apply (for_each_preserves
           (λ q, map j_name (json_parameters q) = map j_name js ∧
                 (∀ x, x ∈ transferred q → ∃ h, h ∈ hs ∧ p_name h = x) ∧
                 (∀ x, x ∈ not_transferred q → ∃ h, h ∈ hs ∧ p_name h = x))
           _ hs) with (s' := st') in Hrun.
  - destruct Hrun as (Hn & Ht & Hnt). repeat split; [done| |done|done].
    by rewrite <- (length_map j_name), Hn, length_map.
  - intros h q1 q2 Hh (Hn & Ht & Hnt) Hstep.
    apply transfer_item_frame in Hstep as (Hn' & Ht' & Hnt').
    split; [congruence|]. split.
    + intros x Hx. apply Ht' in Hx.
      apply elem_of_union in Hx as [->%elem_of_singleton|Hx]; [by exists h|auto].
    + intros x Hx. apply Hnt' in Hx.
      apply elem_of_union in Hx as [->%elem_of_singleton|Hx]; [by exists h|auto].
  - simpl. split; [done|]. split; intros x Hx; by apply not_elem_of_empty in Hx.
Qed.

Lemma execute_reports_field ctx special_aliases excluded_parameters
    hs js st' h :
  execute ctx special_aliases excluded_parameters hs js = Ok st' →
  h ∈ hs →
  ¬ only_excluded_matches special_aliases excluded_parameters
      (map j_name js) (p_name h) →
  p_name h ∈ transferred st' ∨ p_name h ∈ not_transferred st'.
Proof.
  unfold execute. rewrite execute_json_with_segs. intros Hrun Hh Hnot.
  apply list_elem_of_split in Hh as (hs1 & hs2 & ->).
  rewrite for_each_app in Hrun.
  destruct (for_each _ hs1 _) as [st1| | |] eqn:Hrun1; try discriminate Hrun.
  simpl in Hrun.
  destruct (transfer_item _ _ _ _ h st1) as [st2| | |] eqn:Hstep;
    try discriminate Hrun.
  simpl in Hrun.
  assert (map j_name (json_parameters st1) = map j_name js) as Hnames.
  { apply (for_each_preserves
             (λ q, map j_name (json_parameters q) = map j_name js) _ hs1)
      with (s' := st1) in Hrun1; [done| |done].
    intros h' q1 q2 _ Hq1 Hstep'.
    apply transfer_item_frame in Hstep' as (Hn & _ & _). congruence. }
  assert (p_name h ∈ transferred st2 ∨ p_name h ∈ not_transferred st2) as Hin.
  { unfold transfer_item in Hstep. rewrite Hnames in Hstep.
    unfold only_excluded_matches in Hnot.
    destruct (find_matches _ _ _ _) as [|m ms] eqn:Hm.
    - injection Hstep as <-. simpl. set_solver.
    - destruct (some_match_not_excluded excluded_parameters (map j_name js)
                  (m :: ms)) as (i & name & Hi & Hname & Hex).
      { intros Hall. apply Hnot. split; [done|exact Hall]. }
      eapply transfer_matches_decide; [exact Hi| |exact Hex|exact Hstep].
      by rewrite Hnames. }
  assert (transferred st2 ⊆ transferred st' ∧
          not_transferred st2 ⊆ not_transferred st') as [Ht Hnt].
  { apply (for_each_preserves
             (λ q, transferred st2 ⊆ transferred q ∧
                   not_transferred st2 ⊆ not_transferred q) _ hs2)
      with (s' := st') in Hrun; [done| |done].
    intros h' q1 q2 _ [Hq Hq'] Hstep'.
    apply transfer_item_grows in Hstep' as [? ?]. set_solver. }
  set_solver.
Qed.

(** X6.  Every transfer runs to its end, with or without enum fields
    among the sources; it changes no target's name and neither adds nor
    removes a target, and the two sets it reports hold names of source
    fields only. *)
Theorem execute_keeps_names_and_reports_sources
    ctx special_aliases excluded_parameters hs js :
  ∃ st',
    execute ctx special_aliases excluded_parameters hs js = Ok st' ∧
    map j_name (json_parameters st') = map j_name js ∧
    length (json_parameters st') = length js ∧
    (∀ x, x ∈ transferred st' → ∃ h, h ∈ hs ∧ p_name h = x) ∧
    (∀ x, x ∈ not_transferred st' → ∃ h, h ∈ hs ∧ p_name h = x).
Proof.
  destruct (execute_returns ctx special_aliases excluded_parameters hs js)
    as [st' Hrun].
  exists st'. split; [exact Hrun|]. by eapply execute_names_and_sources.
Qed.

Lemma execute_keeps_names_and_reports_sources_witness :
  ∃ st',
    execute TheObject Samples.speed_aliases []
      [Samples.speed_source; Samples.mode_source]
      [Samples.velocity_target; Samples.mode_target; Samples.state_target]
    = Ok st' ∧
    map j_name (json_parameters st')
    = ["velocity/value/float"; "mode/enum"; "state/mode/enum"] ∧
    length (json_parameters st') = 3.
Proof.
  destruct (execute_keeps_names_and_reports_sources TheObject
              Samples.speed_aliases []
              [Samples.speed_source; Samples.mode_source]
              [Samples.velocity_target; Samples.mode_target;
               Samples.state_target])
    as (st' & Hrun & Hn & Hl & _).
  exists st'. split; [exact Hrun|]. split; [exact Hn|exact Hl].
Defined.

(** X7.  Every transfer runs to its end, and in the state it ends in
    every source field is reported: its name is in the transferred set
    or in the not-transferred set, unless every target it matches is
    excluded.  A source with enum options is reported like any other. *)
Theorem every_source_field_is_reported
    ctx special_aliases excluded_parameters hs js h :
  h ∈ hs →
  ¬ only_excluded_matches special_aliases excluded_parameters
      (map j_name js) (p_name h) →
  ∃ st',
    execute ctx special_aliases excluded_parameters hs js = Ok st' ∧
    (p_name h ∈ transferred st' ∨ p_name h ∈ not_transferred st').
Proof.
  intros Hh Hnot.
  destruct (execute_returns ctx special_aliases excluded_parameters hs js)
    as [st' Hrun].
  exists st'. split; [exact Hrun|]. by eapply execute_reports_field.
Qed.

Lemma every_source_field_is_reported_witness :
  ∃ st',
    execute TheObject [] []
      [Samples.speed_source; Samples.mode_source]
      [Samples.velocity_target; Samples.mode_target; Samples.state_target]
    = Ok st' ∧
    ("Mode:enum" ∈ transferred st' ∨ "Mode:enum" ∈ not_transferred st').
Proof.
  apply (every_source_field_is_reported TheObject [] []
           [Samples.speed_source; Samples.mode_source]
           [Samples.velocity_target; Samples.mode_target;
            Samples.state_target] Samples.mode_source).
  - apply list_elem_of_further, list_elem_of_here.
  - intros [_ Hall].
    assert (is_excluded [] "state/mode/enum" = true) as Hex; [|done].
    apply (Hall 2); [|reflexivity].
    vm_compute. apply list_elem_of_further, list_elem_of_here.
Defined.

(** ** Enum resolution *)

Lemma dict_mem_true {V} (k : string) (d : dict V) :
  dict_mem k d = true ↔ k ∈ dict_keys d.
Proof.
  unfold dict_mem, dict_keys. induction d as [|[k' v] d IH]; simpl.
  - split; [done|]. by intros ?%elem_of_nil.
  - destruct (String.eqb_spec k k') as [->|Hne].
    + split; [intros _; apply list_elem_of_here|done].
    + rewrite IH. split; [by apply list_elem_of_further|].
      by intros [?|?]%elem_of_cons.
Qed.

Lemma match_raw_value_key (ev : dict enum_info) (s k : string) :
  match_raw_value ev s = Some k → k ∈ dict_keys ev.
Proof.
  unfold match_raw_value, dict_keys.
  induction ev as [|[k' info] ev IH]; simpl; [done|].
  destruct (String.eqb _ s); simpl.
  - intros [= <-]. apply list_elem_of_here.
  - intros H. apply list_elem_of_further. by apply IH.
Qed.

Lemma first_key_key (ev : dict enum_info) :
  ev ≠ [] → first_key ev ∈ dict_keys ev.
Proof. destruct ev as [|[k info] ev]; [done|]. intros _. apply list_elem_of_here. Qed.

Lemma resolve_enum_value_of_key (ev : dict enum_info) (k : string) :
  k ∈ dict_keys ev → resolve_enum_value ev (JStr k) = Ok (JStr k).
Proof.
  intros Hk%dict_mem_true. unfold resolve_enum_value. simpl.
  rewrite Hk. simpl. by rewrite Hk.
Qed.

(** X8.  When the enum resolution of lines 304-311 returns, for an enum
    with at least one option, the result is a key of the enum; a value
    that is a key already is returned as it is; and resolving the result
    again gives the same result. *)
Theorem resolve_enum_value_gives_key (ev : dict enum_info) (v r : json) :
  resolve_enum_value ev v = Ok r →
  (ev ≠ [] → ∃ k, r = JStr k ∧ k ∈ dict_keys ev) ∧
  (∀ k, v = JStr k → k ∈ dict_keys ev → r = v) ∧
  resolve_enum_value ev r = Ok r.
Proof.
  intros Hr.
  assert (∀ k, v = JStr k → k ∈ dict_keys ev → r = v) as Hkeep.
  { intros k -> Hk. rewrite (resolve_enum_value_of_key ev k Hk) in Hr.
    by injection Hr. }
  assert (r = JStr (first_key ev) ∨ ∃ k, r = JStr k ∧ k ∈ dict_keys ev)
    as Hshape.
  { unfold resolve_enum_value in Hr.
    destruct (key_in v ev) as [is_key| | |] eqn:Hin; try discriminate Hr.
    simpl in Hr. destruct is_key.
    - simpl in Hr. rewrite Hin in Hr. simpl in Hr. injection Hr as <-.
      right. destruct v; try discriminate Hin.
      injection Hin as Hin. eexists. split; [done|]. by apply dict_mem_true.
    - destruct (py_str v) as [s|]; [|discriminate Hr].
      destruct (dict_mem s ev); cbn [Py.bind] in Hr.
      + rewrite Hin in Hr. simpl in Hr. injection Hr as <-. by left.
      + destruct (match_raw_value ev s) as [k|] eqn:Hraw.
        * apply match_raw_value_key in Hraw.
          cbn [key_in] in Hr. rewrite (proj2 (dict_mem_true k ev) Hraw) in Hr.
          simpl in Hr. injection Hr as <-. right. by eexists.
        * rewrite Hin in Hr. simpl in Hr. injection Hr as <-. by left. }
  split; [|split; [done|]].
  - intros Hne. destruct Hshape as [->|?]; [|done].
    eexists. split; [done|]. by apply first_key_key.
  - destruct Hshape as [->|(k & -> & Hk)];
      [|by apply resolve_enum_value_of_key].
    destruct ev as [|[k0 info0] ev'];
      [reflexivity|apply resolve_enum_value_of_key, list_elem_of_here].
Qed.

Lemma resolve_enum_value_gives_key_witness :
  (Samples.mode_values ≠ [] →
   ∃ k, JStr "On" = JStr k ∧ k ∈ dict_keys Samples.mode_values) ∧
  (∀ k, JInt 1 = JStr k → k ∈ dict_keys Samples.mode_values →
        JStr "On" = JInt 1) ∧
  resolve_enum_value Samples.mode_values (JStr "On") = Ok (JStr "On").
Proof.
  apply (resolve_enum_value_gives_key Samples.mode_values (JInt 1) (JStr "On")).
  vm_compute. reflexivity.
Defined.



(** ** The keys of [params] and [types] *)

Lemma dict_keys_set {V} (k : string) (v : V) (d : dict V) :
  dict_keys (dict_set k v d)
  = if bool_decide (k ∈ dict_keys d) then dict_keys d else dict_keys d ++ [k].
Proof.
  unfold dict_keys. induction d as [|[k' v'] d IH]; cbn [dict_set map fst].
  - case_bool_decide as Hin; [|done]. by apply elem_of_nil in Hin.
  - destruct (String.eqb_spec k k') as [->|Hne]; cbn [map fst].
    + rewrite bool_decide_eq_true_2; [done|]. apply list_elem_of_here.
    + rewrite IH. destruct (decide (k ∈ map fst d)) as [Hin|Hout].
      * rewrite (bool_decide_eq_true_2 _ Hin).
        rewrite bool_decide_eq_true_2; [done|].
        by apply list_elem_of_further.
      * rewrite (bool_decide_eq_false_2 _ Hout).
        rewrite bool_decide_eq_false_2; [done|].
        by intros [?|?]%elem_of_cons.
Qed.

Lemma keys_kept_set keys0 k v w (p : dict json) (t : dict string) :
  keys_kept keys0 (p, t) → keys_kept keys0 (dict_set k v p, dict_set k w t).
Proof.
  unfold keys_kept. cbn [fst snd]. intros [Hpre Heq].
  rewrite !dict_keys_set, <-Heq.
  destruct (bool_decide (k ∈ dict_keys p)); [done|].
  split; [|done]. by apply prefix_app_r.
Qed.

Lemma process_sub_field_keys keys0 new_key src imported sub_field pt pt' :
  keys_kept keys0 pt →
  process_sub_field new_key src imported sub_field pt = Ok pt' →
  keys_kept keys0 pt'.
Proof.
  intros Hk H. unfold process_sub_field in H. outcome_cases H.
  injection H as <-. destruct pt. by apply keys_kept_set.
Qed.

Lemma process_field_keys keys0 fuel enums tobj imported f st st' :
  keys_kept keys0 (st_params st, st_types st) →
  process_field fuel enums tobj imported f st = Ok st' →
  keys_kept keys0 (st_params st', st_types st').
Proof.
  intros Hk H. unfold process_field in H.
  destruct (array_subtype f) as [subtype|].
  - unfold process_array_field in H.
    destruct (in_strs _ primitives).
    { outcome_cases H. injection H as <-. by apply keys_kept_set. }
    assert (∀ pt,
      process_struct_array (f_name f) (array_source tobj imported (f_name f))
        (default 1%Z (f_array_size f)) imported
        (default empty_struct (st_structs st !! subtype))
        (st_params st, st_types st) = Ok pt → keys_kept keys0 pt) as Harr.
    { intros pt. unfold process_struct_array.
      apply (for_each_preserves (keys_kept keys0)); [|done].
      intros idx s1 s2 _ Hs1.
      apply (for_each_preserves (keys_kept keys0)); [|done].
      intros sub_field s3 s4 _ Hs3. by apply process_sub_field_keys. }
    destruct (st_structs st !! subtype) as [sd|];
      [destruct (struct_truthy sd)|].
    + outcome_cases H. injection H as <-. cbn [st_params st_types].
      destruct a. by apply Harr.
    + injection H as <-. by apply keys_kept_set.
    + injection H as <-. by apply keys_kept_set.
  - destruct (is_plain_type (effective_type f)).
    + unfold process_plain_field in H. outcome_cases H.
      injection H as <-. by apply keys_kept_set.
    + unfold process_struct_field in H. outcome_cases H.
      injection H as <-. cbn [st_params st_types].
      destruct a0. revert E0.
      apply (for_each_preserves (keys_kept keys0)); [|done].
      intros sub_field s3 s4 _ Hs3. by apply process_sub_field_keys.
Qed.

Lemma process_fields_keys keys0 fuel enums tobj imported fs st st' :
  keys_kept keys0 (st_params st, st_types st) →
  process_fields fuel enums tobj imported fs st = Ok st' →
  keys_kept keys0 (st_params st', st_types st').
Proof.
  unfold process_fields.
  apply (for_each_preserves
           (λ s, keys_kept keys0 (st_params s, st_types s))).
  intros f s1 s2 _. apply process_field_keys.
Qed.

(** X10.  The field loop only adds keys at the end: whatever the fields
    are, when it returns the keys [params] had before are still its
    first keys, in the same order, and [params] and [types] have the
    same keys in the same order when they had at the start. *)
Theorem field_loop_appends_keys fuel enums tobj imported fs st st' :
  process_fields fuel enums tobj imported fs st = Ok st' →
  dict_keys (st_params st) = dict_keys (st_types st) →
  dict_keys (st_params st) `prefix_of` dict_keys (st_params st') ∧
  dict_keys (st_params st') = dict_keys (st_types st').
Proof.
  intros Hrun Heq.
  apply (process_fields_keys (dict_keys (st_params st)) fuel enums tobj
           imported fs st st'); [|done].
  by split.
Qed.

(** X11.  Every application of a template that returns parameters
    returns the two range-spawning parameters as the first two, before
    every field of the struct, in [params] and in [types] alike. *)
Theorem range_parameters_come_first fuel structs enums tobj imported st :
  apply_hson_template_to_object fuel structs enums tobj imported
  = Ok (Some st) →
  ∃ rest,
    dict_keys (st_params st) = range_in_key :: range_out_key :: rest ∧
    dict_keys (st_types st) = range_in_key :: range_out_key :: rest.
Proof.
  intros H. unfold apply_hson_template_to_object in H.
  destruct (dict_get "struct" tobj) as [[| | | |s| |]|];
    try discriminate H.
  destruct (String.eqb s ""); [discriminate H|].
  destruct (structs !! s) as [sd|]; [|discriminate H].
  destruct (struct_truthy sd); [|discriminate H].
  outcome_cases H. injection H as <-.
  apply (process_fields_keys [range_in_key; range_out_key]) in E0.
  - destruct E0 as [[rest Hrest] Heq]. cbn [fst snd] in Hrest, Heq.
    exists rest. by rewrite <-Heq, Hrest.
  - split; [|reflexivity]. reflexivity.
Qed.

Lemma field_loop_appends_keys_witness :
  ∃ st',
    process_fields 0 Samples.mode_enums [] None
      [Samples.fld "speed" "float"; Samples.fld "mode" "Ns::Mode"]
      (State ∅ (initial_params None) initial_types) = Ok st' ∧
    dict_keys (initial_params None) `prefix_of` dict_keys (st_params st') ∧
    dict_keys (st_params st') = dict_keys (st_types st').
Proof.
  eexists. split; [vm_compute; reflexivity|].
  apply (field_loop_appends_keys 0 Samples.mode_enums [] None
           [Samples.fld "speed" "float"; Samples.fld "mode" "Ns::Mode"]
           (State ∅ (initial_params None) initial_types)).
  - vm_compute. reflexivity.
  - reflexivity.
Defined.

Lemma range_parameters_come_first_witness :
  ∃ st rest,
    apply_hson_template_to_object 2 Samples.nested_structs ∅
      Samples.holder_object None = Ok (Some st) ∧
    dict_keys (st_params st) = range_in_key :: range_out_key :: rest ∧
    dict_keys (st_types st) = range_in_key :: range_out_key :: rest.
Proof.
  eexists.
  destruct (range_parameters_come_first 2 Samples.nested_structs ∅
              Samples.holder_object None
              (default (State ∅ [] [])
                 (match apply_hson_template_to_object 2 Samples.nested_structs
                          ∅ Samples.holder_object None with
                  | Ok (Some st) => Some st
                  | _ => None
                  end)))
    as (rest & Hp & Ht).
  - vm_compute. reflexivity.
  - exists rest. split; [vm_compute; reflexivity|]. split; [exact Hp|exact Ht].
Defined.

(** ** String and object-reference fields *)

(** X12.  A field whose type is [string] or [object_reference] (in any
    letter case) never raises and always resolves to a list: the
    imported value, else the object's default, else the empty string,
    kept when it is a list and wrapped in a one-element list otherwise.
    The struct table is left alone, and an [object_reference] is
    recorded with the type [string]. *)
Theorem string_field_resolves_to_list fuel enums tobj imported f st :
  PyStr.lower (f_type f) = "string"
  ∨ PyStr.lower (f_type f) = "object_reference" →
  ∃ l,
    process_field fuel enums tobj imported f st
    = Ok (State (st_structs st)
            (dict_set (f_name f) (JList l) (st_params st))
            (dict_set (f_name f) (effective_type f) (st_types st))) ∧
    l = match default (default (JStr "") (dict_get (f_name f) tobj))
                (imported_value imported (f_name f)) with
        | JList l0 => l0
        | v => [v]
        end ∧
    (PyStr.lower (f_type f) = "object_reference" →
     effective_type f = "string").
Proof.
  intros Htype.
  assert (PyStr.lower (effective_type f) = "string") as Hlow.
  { unfold effective_type. by destruct Htype as [Ht|Ht]; rewrite Ht. }
  assert (PyStr.contains "::" (effective_type f) = false) as Hcolons.
  { destruct (PyStr.contains "::" (effective_type f)) eqn:Hc; [|done].
    by apply enum_reference_not_string in Hc. }
  unfold process_field, array_subtype, is_plain_type. rewrite Hlow. simpl.
  unfold process_plain_field, plain_value. rewrite Hcolons, Hlow.
  cbn [Py.bind]. unfold plain_source.
  change (zero_value "string") with (JStr "").
  eexists. split; [|split; [reflexivity|]].
  - by destruct (default _ (imported_value imported (f_name f))).
  - intros Hobj. unfold effective_type. by rewrite Hobj.
Qed.

Lemma string_field_resolves_to_list_witness :
  ∃ l,
    process_field 0 ∅ [] (Some [("target", JStr "{ID}")])
      (Samples.fld "target" "Object_Reference")
      (State ∅ (initial_params None) initial_types)
    = Ok (State ∅
            (dict_set "target" (JList l) (initial_params None))
            (dict_set "target" "string" initial_types)) ∧
    l = [JStr "{ID}"] ∧
    (PyStr.lower "Object_Reference" = "object_reference" →
     effective_type (Samples.fld "target" "Object_Reference") = "string").
Proof.
  apply (string_field_resolves_to_list 0 ∅ []
           (Some [("target", JStr "{ID}")])
           (Samples.fld "target" "Object_Reference")
           (State ∅ (initial_params None) initial_types)).
  right. vm_compute. reflexivity.
Defined.

(** ** The [while parent] loop on a parent cycle *)

Lemma merge_parent_fields_cycle (C : list string) fuel :
  ∀ structs target tp fs parent p,
    structs !! target = Some (StructDef tp (Some fs)) →
    (∀ x, x ∈ C →
          ∃ sd y, structs !! x = Some sd ∧ struct_truthy sd = true ∧
                  truthy_name (s_parent sd) = Some y ∧ y ∈ C) →
    truthy_name parent = Some p → p ∈ C →
    merge_parent_fields fuel structs target parent = OutOfFuel.
Proof.
  induction fuel as [|fuel IH];
    intros structs target tp fs parent p Ht Hclosed Hp HpC;
    cbn [merge_parent_fields]; rewrite Hp.
  { done. }
  destruct (Hclosed p HpC) as (psd & y & Hpsd & Htruthy & Hy & HyC).
  rewrite Hpsd, Htruthy, Ht. cbn [s_fields s_parent].
  apply (IH _ target tp (fs ++ fields_or_empty psd) _ y); [|  |done|done].
  - by rewrite lookup_insert_eq.
  - intros x Hx. destruct (decide (x = target)) as [->|Hne].
    + destruct (Hclosed target Hx) as (sd & z & Hsd & _ & Hz & HzC).
      rewrite Ht in Hsd. injection Hsd as <-.
      eexists _, z. rewrite lookup_insert_eq.
      split; [reflexivity|]. split; [by destruct tp|]. by split.
    + rewrite lookup_insert_ne; [|done]. by apply Hclosed.
Qed.

(** X13.  The inline sub-struct branch has no guard against parent
    cycles: for a field whose type names a struct with a field list
    and whose chain of parents enters a set of structs [C] each of
    which has a non-empty parent in [C], the [while parent] loop of
    lines 319-326 runs more iterations than any bound, however much
    fuel is given (in Python it loops until it is stopped or memory
    runs out). *)
Theorem inline_struct_on_cycle_never_ends (C : list string)
    fuel enums tobj imported f st tp fs p :
  array_subtype f = None →
  is_plain_type (effective_type f) = false →
  st_structs st !! effective_type f = Some (StructDef tp (Some fs)) →
  truthy_name tp = Some p → p ∈ C →
  (∀ x, x ∈ C →
        ∃ sd y, st_structs st !! x = Some sd ∧ struct_truthy sd = true ∧
                truthy_name (s_parent sd) = Some y ∧ y ∈ C) →
  process_field fuel enums tobj imported f st = OutOfFuel.
Proof.
  intros Harr Hplain Ht Hp HpC Hclosed.
  unfold process_field. rewrite Harr, Hplain.
  unfold process_struct_field, inline_struct_fields. rewrite Ht.
  replace (struct_truthy (StructDef tp (Some fs))) with true
    by (by destruct tp).
  cbn [s_parent].
  by rewrite (merge_parent_fields_cycle C fuel _ _ tp fs tp p).
Qed.

Lemma inline_struct_on_cycle_never_ends_witness :
  process_field 1000 ∅ [] None (Samples.fld "sub" "A")
    (State Samples.cyclic_structs (initial_params None) initial_types)
  = OutOfFuel.
Proof.
  apply (inline_struct_on_cycle_never_ends ["A"; "B"] 1000 ∅ [] None
           (Samples.fld "sub" "A")
           (State Samples.cyclic_structs (initial_params None) initial_types)
           (Some "B") [Samples.fld "a" "int"] "B").
  - reflexivity.
  - reflexivity.
  - reflexivity.
  - reflexivity.
  - apply (bool_decide_unpack _). vm_compute. exact I.
  - intros x Hx. apply elem_of_cons in Hx as [->|Hx].
    + exists (StructDef (Some "B") (Some [Samples.fld "a" "int"])), "B".
      repeat split; try reflexivity.
      apply (bool_decide_unpack _). vm_compute. exact I.
    + apply elem_of_cons in Hx as [->|Hx]; [|by apply elem_of_nil in Hx].
      exists (StructDef (Some "A") (Some [Samples.fld "b" "int"])), "A".
      repeat split; try reflexivity.
      apply (bool_decide_unpack _). vm_compute. exact I.
Defined.

(** ** The options of an enum parameter *)

Lemma fold_left_invariant {A B} (P : A → Prop) (f : A → B → A) (l : list B) :
  (∀ a b, P a → P (f a b)) → ∀ a, P a → P (fold_left f l a).
Proof.
  intros Hstep. induction l as [|b l IH]; intros a Ha; simpl; [done|].
  by apply IH, Hstep.
Qed.

Lemma imap_values (f : nat → enum_item → enum_item) (l : list enum_item) :
  (∀ i it, ei_value (f i it) = ei_value it) →
  map ei_value (imap f l) = map ei_value l.
Proof.
  revert f. induction l as [|x l IH]; intros f Hf; [done|].
  rewrite imap_cons. cbn [map]. rewrite Hf, IH; [done|].
  intros i it. apply Hf.
Qed.

Lemma alter_values (f : enum_item → enum_item) (idx : nat)
    (l : list enum_item) :
  (∀ it, ei_value (f it) = ei_value it) →
  map ei_value (alter f idx l) = map ei_value l.
Proof.
  intros Hf. revert idx. induction l as [|x l IH]; intros [|idx]; try done.
  - cbn. by rewrite Hf.
  - cbn. f_equal. apply IH.
Qed.

Lemma set_selected_values ctx_is_obj idx flag p :
  map ei_value (enum_items (set_selected ctx_is_obj idx flag p))
  = map ei_value (enum_items p).
Proof.
  unfold set_selected, update_enum_selection.
  destruct ctx_is_obj; cbn [enum_items with_enum_items];
    [|by apply alter_values].
  destruct (_ !! idx) as [self|]; [|by apply alter_values].
  destruct (_ && _); cbn [enum_items with_enum_items with_string_value];
    [|by apply alter_values].
  rewrite imap_values; [by apply alter_values|].
  intros i it. by destruct (Nat.eqb i idx).
Qed.

Lemma set_selected_lookup ctx_is_obj idx p it :
  enum_items p !! idx = Some it →
  enum_items (set_selected ctx_is_obj idx true p) !! idx
  = Some (EnumItem true (ei_value it)).
Proof.
  intros Hit.
  assert (alter (λ it, EnumItem true (ei_value it)) idx (enum_items p) !! idx
          = Some (EnumItem true (ei_value it))) as Halter.
  { rewrite list_lookup_alter. destruct (decide (idx = idx)); [|done].
    by rewrite Hit. }
  unfold set_selected, update_enum_selection.
  destruct ctx_is_obj; cbn [enum_items with_enum_items]; [|done].
  rewrite Halter. cbn [ei_selected].
  destruct (_ && _); cbn [enum_items with_enum_items with_string_value];
    [|done].
  rewrite list_lookup_imap, Halter. cbn. by rewrite Nat.eqb_refl.
Qed.

Lemma add_enum_option_values ctx_is_obj imported_val kv acc :
  map ei_value (enum_items (add_enum_option ctx_is_obj imported_val kv acc).1)
  = map ei_value (enum_items acc.1) ++ [kv.1].
Proof.
  destruct acc as [item found]. unfold add_enum_option.
  destruct (_ || _); cbn [fst snd].
  - rewrite set_selected_values. cbn [enum_items with_enum_items].
    by rewrite map_app.
  - cbn [enum_items with_enum_items]. by rewrite map_app.
Qed.

Lemma add_enum_options_values ctx_is_obj imported_val ev :
  ∀ acc,
    map ei_value
      (enum_items
         (fold_left (λ acc kv, add_enum_option ctx_is_obj imported_val kv acc)
            ev acc).1)
    = map ei_value (enum_items acc.1) ++ dict_keys ev.
Proof.
  induction ev as [|kv ev IH]; intros acc; simpl.
  - by rewrite app_nil_r.
  - rewrite IH, add_enum_option_values. by rewrite <-app_assoc.
Qed.

Lemma select_enum_options_values ctx_is_obj ev item :
  map ei_value (enum_items (select_enum_options ctx_is_obj ev item))
  = dict_keys ev.
Proof.
  unfold select_enum_options.
  pose proof (add_enum_options_values ctx_is_obj
                (PyStr.lower (PyStr.strip (string_value item))) ev
                (with_enum_items [] item, false)) as Hvalues.
  destruct (fold_left _ ev _) as [item' found].
  cbn [fst snd enum_items with_enum_items map app] in Hvalues.
  destruct (_ && _); [by rewrite set_selected_values|done].
Qed.

Lemma add_enum_options_selected ctx_is_obj imported_val ev :
  ∀ acc,
    (acc.2 = true → ∃ it, it ∈ enum_items acc.1 ∧ ei_selected it = true) →
    let acc' :=
      fold_left (λ acc kv, add_enum_option ctx_is_obj imported_val kv acc)
        ev acc in
    acc'.2 = true → ∃ it, it ∈ enum_items acc'.1 ∧ ei_selected it = true.
Proof.
  intros acc Hacc.
  apply (fold_left_invariant
           (λ acc, acc.2 = true →
                   ∃ it, it ∈ enum_items acc.1 ∧ ei_selected it = true));
    [|done].
  clear. intros [item found] kv Hinv. unfold add_enum_option.
  destruct (_ || _); cbn [fst snd].
  - intros _. exists (EnumItem true kv.1). split; [|reflexivity].
    eapply list_elem_of_lookup_2.
    apply (set_selected_lookup _ _ _ (EnumItem false kv.1)).
    cbn [enum_items with_enum_items]. apply list_lookup_middle. reflexivity.
  - intros Hfound. destruct (Hinv Hfound) as (it & Hit & Hsel).
    exists it. split; [|done]. cbn [enum_items with_enum_items].
    apply elem_of_app. by left.
Qed.

(** X14.  Whatever the stored string and the context, the options built
    for an enum parameter are the keys of the enum, one option per key
    in the order of the template, and no option is selected only when
    the enum has no option at all. *)
Theorem enum_options_mirror_keys ctx_is_obj ev item :
  map ei_value (enum_items (select_enum_options ctx_is_obj ev item))
  = dict_keys ev ∧
  (selected_count (select_enum_options ctx_is_obj ev item) = 0 ↔ ev = []).
Proof.
  split; [apply select_enum_options_values|].
  split.
  - intros Hcount. destruct ev as [|kv ev]; [done|]. exfalso.
    assert (∃ it, it ∈ enum_items (select_enum_options ctx_is_obj (kv :: ev) item)
                  ∧ ei_selected it = true) as (it & Hit & Hsel).
    { pose proof (select_enum_options_values ctx_is_obj (kv :: ev) item)
        as Hvalues.
      revert Hvalues. unfold select_enum_options.
      pose proof (add_enum_options_selected ctx_is_obj
                    (PyStr.lower (PyStr.strip (string_value item))) (kv :: ev)
                    (with_enum_items [] item, false)) as Hsel.
      pose proof (add_enum_options_values ctx_is_obj
                    (PyStr.lower (PyStr.strip (string_value item))) (kv :: ev)
                    (with_enum_items [] item, false)) as Hkeys.
      cbv zeta in Hsel.
      destruct (fold_left _ (kv :: ev) _) as [item' found].
      cbn [fst snd enum_items with_enum_items map app] in Hsel, Hkeys.
      destruct found; cbn [negb andb].
      - intros _. by apply Hsel.
      - destruct (enum_items item') as [|it0 rest] eqn:Hitems;
          [discriminate Hkeys|].
        cbn [length Nat.ltb Nat.leb]. intros _.
        exists (EnumItem true (ei_value it0)). split; [|reflexivity].
        eapply list_elem_of_lookup_2.
        apply (set_selected_lookup _ 0 _ it0). by rewrite Hitems. }
    unfold selected_count in Hcount. apply length_zero_iff_nil in Hcount.
    by apply (filter_nil_not_elem_of _ _ it Hcount).
  - intros ->. reflexivity.
Qed.

Lemma filter_cleared (l : list enum_item) :
  filter (λ it, ei_selected it = true)
    (map (λ it, EnumItem false (ei_value it)) l) = [].
Proof.
  induction l as [|x l IH]; [done|]. cbn [map].
  rewrite filter_cons_False; [done|]. by cbn.
Qed.

(** Selecting the option after [l1], in the context of the owner:
    every other option is cleared and the parameter's string becomes
    the value of the option. *)
Lemma set_selected_owner p l1 x l2 :
  PyStr.contains "enum" (p_name p) = true →
  enum_items p = l1 ++ x :: l2 →
  set_selected true (length l1) true p
  = with_string_value (ei_value x)
      (with_enum_items
         (map (λ it, EnumItem false (ei_value it)) l1
          ++ EnumItem true (ei_value x)
          :: map (λ it, EnumItem false (ei_value it)) l2) p).
Proof.
  intros Hname Hitems. unfold set_selected. rewrite Hitems.
  replace (alter (λ it, EnumItem true (ei_value it)) (length l1)
             (l1 ++ x :: l2))
    with (l1 ++ EnumItem true (ei_value x) :: l2)
    by (by rewrite <-(Nat.add_0_r (length l1)), alter_app_r).
  unfold update_enum_selection. cbn [enum_items with_enum_items p_name].
  rewrite list_lookup_middle by done. rewrite Hname. cbn [ei_selected andb].
  unfold with_string_value, with_enum_items. cbn. f_equal.
  rewrite imap_app, imap_cons. f_equal; [|f_equal].
  - rewrite <-imap_const. apply imap_ext. intros i it Hi%lookup_lt_Some.
    destruct (Nat.eqb_spec i (length l1)) as [->|_]; [lia|done].
  - cbn. by rewrite Nat.add_0_r, Nat.eqb_refl.
  - rewrite <-imap_const. apply imap_ext. intros i it _. cbn.
    destruct (Nat.eqb_spec (length l1 + S i) (length l1)); [lia|done].
Qed.

Lemma add_enum_options_owner (name imported_val : string)
    (ev : dict enum_info) :
  PyStr.contains "enum" name = true →
  ∀ acc : hson_param * bool,
    (p_name acc.1 = name ∧
     filter (λ it, ei_selected it = true) (enum_items acc.1)
     = if acc.2 then [EnumItem true (string_value acc.1)] else []) →
    let acc' :=
      fold_left (λ acc kv, add_enum_option true imported_val kv acc) ev acc in
    p_name acc'.1 = name ∧
    filter (λ it, ei_selected it = true) (enum_items acc'.1)
    = if acc'.2 then [EnumItem true (string_value acc'.1)] else [].
Proof.
  intros Hname acc Hacc.
  apply (fold_left_invariant
           (λ acc : hson_param * bool, p_name acc.1 = name ∧
                   filter (λ it, ei_selected it = true) (enum_items acc.1)
                   = if acc.2 then [EnumItem true (string_value acc.1)]
                     else [])); [|done].
  clear acc Hacc. intros [item found] kv [Hn Hsel]. cbn [fst snd] in Hn, Hsel.
  unfold add_enum_option. destruct (_ || _); cbn [fst snd].
  - rewrite (set_selected_owner _ (enum_items item) (EnumItem false kv.1) []);
      [|cbn [p_name with_enum_items]; by rewrite Hn|done].
    cbn [p_name enum_items string_value with_string_value with_enum_items
         ei_value map].
    split; [done|].
    rewrite filter_app, filter_cleared. by rewrite filter_cons_True.
  - cbn [p_name enum_items string_value with_enum_items].
    split; [done|].
    rewrite filter_app, Hsel, filter_cons_False by (by cbn).
    by rewrite filter_nil, app_nil_r.
Qed.

(** X15.  When the options are built in the context of the object that
    owns the parameter (a parameter whose name contains [enum], as the
    records of enum fields do), the update callback keeps the selection
    exclusive: for an enum with at least one option exactly one option
    ends up selected, and the parameter's string is the value of that
    option, a key of the enum. *)
Theorem owner_context_selects_one ev item :
  PyStr.contains "enum" (p_name item) = true →
  ev ≠ [] →
  filter (λ it, ei_selected it = true)
    (enum_items (select_enum_options true ev item))
  = [EnumItem true (string_value (select_enum_options true ev item))] ∧
  selected_count (select_enum_options true ev item) = 1 ∧
  string_value (select_enum_options true ev item) ∈ dict_keys ev.
Proof.
  intros Hname Hev.
  assert (filter (λ it, ei_selected it = true)
            (enum_items (select_enum_options true ev item))
          = [EnumItem true (string_value (select_enum_options true ev item))])
    as Hone.
  { unfold select_enum_options.
    pose proof (add_enum_options_owner (p_name item)
                  (PyStr.lower (PyStr.strip (string_value item))) ev Hname
                  (with_enum_items [] item, false)) as Hinv.
    pose proof (add_enum_options_values true
                  (PyStr.lower (PyStr.strip (string_value item))) ev
                  (with_enum_items [] item, false)) as Hkeys.
    cbv zeta in Hinv.
    destruct (fold_left _ ev _) as [item' found].
    cbn [fst snd enum_items with_enum_items map app p_name] in Hinv, Hkeys.
    destruct Hinv as [Hn Hsel]; [by split|].
    destruct found; cbn [negb andb]; [done|].
    destruct (enum_items item') as [|x rest] eqn:Hitems.
    { destruct ev; [done|discriminate Hkeys]. }
    cbn [length Nat.ltb Nat.leb].
    change 0 with (length (@nil enum_item)).
    rewrite (set_selected_owner item' [] x rest); [|by rewrite Hn|done].
    cbn [enum_items string_value with_string_value with_enum_items map app].
    rewrite filter_cons_True by done. by rewrite filter_cleared. }
  split; [done|]. split; [unfold selected_count; by rewrite Hone|].
  rewrite <-(select_enum_options_values true ev item).
  apply (list_elem_of_fmap_2 ei_value _
           (EnumItem true (string_value (select_enum_options true ev item)))).
  eapply (proj1 (list_elem_of_filter _ _ _)). rewrite Hone.
  apply list_elem_of_here.
Qed.

Lemma owner_context_selects_one_witness :
  filter (λ it, ei_selected it = true)
    (enum_items
       (select_enum_options true Samples.level_values Samples.level_param))
  = [EnumItem true
       (string_value
          (select_enum_options true Samples.level_values
             Samples.level_param))] ∧
  selected_count
    (select_enum_options true Samples.level_values Samples.level_param) = 1 ∧
  string_value
    (select_enum_options true Samples.level_values Samples.level_param)
  ∈ dict_keys Samples.level_values.
Proof.
  apply (owner_context_selects_one Samples.level_values Samples.level_param).
  - vm_compute. reflexivity.
  - discriminate.
Defined.

(** ** What [flatten_dict] returns, for any tree *)

Lemma dict_set_NoDup {V} (k : string) (v : V) (d : dict V) :
  NoDup (dict_keys d) → NoDup (dict_keys (dict_set k v d)).
Proof.
  intros Hnd. rewrite dict_keys_set. case_bool_decide as Hin; [done|].
  apply NoDup_app. split; [done|]. split; [|apply NoDup_singleton].
  intros x Hx ->%list_elem_of_singleton. done.
Qed.

Lemma dict_update_NoDup {V} (d e : dict V) :
  NoDup (dict_keys d) → NoDup (dict_keys (dict_update d e)).
Proof.
  unfold dict_update.
  apply (fold_left_invariant (λ acc : dict V, NoDup (dict_keys acc))).
  intros acc kv. apply dict_set_NoDup.
Qed.

Lemma dict_set_Forall {V} (Q : string * V → Prop) (k : string) (v : V)
    (d : dict V) :
  Q (k, v) → Forall Q d → Forall Q (dict_set k v d).
Proof.
  intros Hkv. induction d as [|[k' v'] d IH]; intros Hd; simpl.
  - by constructor.
  - apply Forall_cons in Hd as [Hhd Htl].
    destruct (String.eqb k k'); constructor; auto.
Qed.

Lemma dict_update_Forall {V} (Q : string * V → Prop) (d e : dict V) :
  Forall Q e → Forall Q d → Forall Q (dict_update d e).
Proof.
  unfold dict_update. revert d.
  induction e as [|[k v] e IH]; intros d He Hd; simpl; [done|].
  apply Forall_cons in He as [Hkv He].
  apply IH; [done|]. by apply dict_set_Forall.
Qed.

Lemma flatten_value_output (v : json) :
  ∀ parent_key,
    NoDup (dict_keys (flatten_value v parent_key)) ∧
    Forall (λ kv : string * json,
              is_dict kv.2 = false ∧
              (parent_key = ""
               ∨ ∃ rest, kv.1 = parent_key +:+ ":" +:+ rest))
           (flatten_value v parent_key).
Proof.
  induction v as [v Hv|d IH] using json_dict_ind; intros parent_key.
  { destruct v; try discriminate Hv; split; constructor. }
  rewrite flatten_value_dict.
  assert (∀ items,
    NoDup (dict_keys items) →
    Forall (λ kv : string * json,
              is_dict kv.2 = false ∧
              (parent_key = ""
               ∨ ∃ rest, kv.1 = parent_key +:+ ":" +:+ rest)) items →
    NoDup (dict_keys (flatten_items flatten_value parent_key d items)) ∧
    Forall (λ kv : string * json,
              is_dict kv.2 = false ∧
              (parent_key = ""
               ∨ ∃ rest, kv.1 = parent_key +:+ ":" +:+ rest))
           (flatten_items flatten_value parent_key d items)) as Hgo.
  { induction d as [|[k x] d IHd]; intros items Hnd Hall; [done|].
    apply Forall_cons in IH as [IHx IH]. cbn [snd] in IHx.
    assert (parent_key = ""
            ∨ ∃ rest, child_key parent_key k = parent_key +:+ ":" +:+ rest)
      as Hchild.
    { unfold child_key. destruct (String.eqb_spec parent_key "");
        [by left|right; by eexists]. }
    destruct (is_dict x) eqn:Hx.
    - destruct x as [| | | | | |sub]; try discriminate Hx.
      rewrite flatten_items_dict. apply (IHd IH).
      + apply dict_update_NoDup, Hnd.
      + apply dict_update_Forall; [|done].
        destruct (IHx (child_key parent_key k)) as [_ Hsub].
        eapply Forall_impl; [exact Hsub|].
        intros [k' v'] [Hleaf Hpre]. split; [done|].
        destruct Hchild as [?|[r Hr]]; [by left|right].
        destruct Hpre as [Hempty|[rest Hrest]].
        * rewrite Hr in Hempty. by destruct parent_key.
        * exists (r +:+ ":" +:+ rest). cbn [fst] in *.
          rewrite Hrest, Hr. by rewrite !append_assoc.
    - rewrite (flatten_items_leaf _ _ _ _ _ _ Hx). apply (IHd IH).
      + apply dict_set_NoDup, Hnd.
      + by apply dict_set_Forall. }
  apply Hgo; constructor.
Qed.

(** X16.  For every tree, regular or not: the flattened form has no
    key twice, none of its values is a map, and when a parent key is
    given (the tags are flattened under [tags]) every key starts with
    the parent key and a colon. *)
Theorem flatten_dict_gives_leaves (d : dict json) (parent_key : string) :
  NoDup (dict_keys (flatten_dict d parent_key)) ∧
  ∀ k v,
    (k, v) ∈ flatten_dict d parent_key →
    is_dict v = false ∧
    (parent_key ≠ "" → ∃ rest, k = parent_key +:+ ":" +:+ rest).
Proof.
  destruct (flatten_value_output (JDict d) parent_key) as [Hnd Hall].
  split; [exact Hnd|].
  intros k v Hin.
  destruct (proj1 (Forall_forall _ _) Hall (k, v) Hin) as [Hleaf Hpre].
  split; [done|]. intros Hne. by destruct Hpre.
Qed.

(** ** The records of [update_hson_parameters] *)

Lemma flatten_dict_regular (d : dict json) :
  regular_entries d →
  flatten_dict d ""
  = map (λ qx, (PyStr.join ":" (fst qx), snd qx)) (leaf_paths (JDict d)).
Proof.
  intros Hent. unfold flatten_dict. rewrite flatten_value_dict.
  change "" with (PyStr.join ":" []).
  rewrite (flatten_items_entries d); [done| |done|constructor|].
  - apply Forall_forall. intros kv _. apply flatten_value_regular.
  - by apply leaf_keys_NoDup.
Qed.

Lemma leaf_paths_no_colon (d : dict json) :
  regular_entries d →
  Forall (λ qx, fst qx ≠ [] ∧ Forall (λ a, no_colon a = true) (fst qx))
         (leaf_paths (JDict d)).
Proof.
  intros Hent.
  pose proof (leaf_paths_plain (JDict d) d eq_refl Hent) as Hplain.
  pose proof (leaf_paths_nonempty_path (JDict d)) as Hne.
  rewrite Forall_forall in Hplain, Hne. apply Forall_forall.
  intros qx Hqx. split; [by apply Hne|].
  by apply plain_parts_no_colon, Hplain.
Qed.

Lemma nest_parameters_regular (d : dict json) :
  regular_entries d → nest_parameters (flatten_dict d "") = JDict d.
Proof.
  intros Hent. rewrite (flatten_dict_regular d Hent). unfold nest_parameters.
  rewrite nest_items_paths by (by apply leaf_paths_no_colon).
  rewrite (nest_paths_entries d); [done| |done|].
  - apply Forall_forall. intros kv _. apply nest_paths_regular.
  - intros k _ Hin. by apply elem_of_nil in Hin.
Qed.

Lemma record_names_cons types kv d parent_key :
  record_names types (JDict (kv :: d)) parent_key
  = entry_records (record_names types) types parent_key kv
    ++ record_names types (JDict d) parent_key.
Proof. reflexivity. Qed.

Lemma lookup_key_child (parent_key key : string) :
  no_bracket parent_key = true →
  lookup_key parent_key key = child_key parent_key key.
Proof.
  intros Hp. unfold lookup_key, child_key.
  by rewrite (filter_chars_fixed _ _ Hp).
Qed.

Lemma no_bracket_join (p : list string) :
  Forall (λ a, no_bracket a = true) p → no_bracket (PyStr.join ":" p) = true.
Proof. intros Hp. by apply all_chars_join. Qed.

Lemma record_name_child types (p : list string) (k : string) (x : json) :
  Forall (λ a, a ≠ "" ∧ no_bracket a = true) p →
  record_name types (PyStr.join ":" p) k x
  = record_name types "" (PyStr.join ":" (p ++ [k])) x.
Proof.
  intros Hp. unfold record_name.
  rewrite lookup_key_child.
  - rewrite child_key_join; [done|].
    eapply Forall_impl; [exact Hp|]. by intros a [? _].
  - apply no_bracket_join. eapply Forall_impl; [exact Hp|]. by intros a [_ ?].
Qed.

Lemma entry_records_leaf rec types parent_key k x :
  record_leaf x = true →
  entry_records rec types parent_key (k, x)
  = [record_name types parent_key k x].
Proof.
  destruct x as [| | | | |l|]; try done. cbn [record_leaf entry_records].
  intros Hl%negb_true_iff. by rewrite Hl.
Qed.

Lemma record_names_regular types (v : json) :
  ∀ d p,
    v = JDict d → regular_entries d →
    Forall (λ a, a ≠ "" ∧ no_bracket a = true) p →
    Forall (λ qx, record_leaf (snd qx) = true
                  ∧ Forall (λ a, no_bracket a = true) (fst qx))
           (leaf_paths v) →
    record_names types v (PyStr.join ":" p)
    = map (λ qx, record_name types "" (PyStr.join ":" (p ++ fst qx)) (snd qx))
          (leaf_paths v).
Proof.
  induction v as [v Hv|d IH] using json_dict_ind;
    intros d' p Heq Hent Hp Hleaves; [by subst|].
  injection Heq as <-. destruct Hent as [_ Hall].
  induction d as [|[k x] d IHd]; [done|].
  apply Forall_cons in IH as [IHx IH].
  apply Forall_cons in Hall as [[Hk Hregx] Hall]. cbn [fst snd] in *.
  rewrite leaf_paths_cons in Hleaves.
  apply Forall_app in Hleaves as [Hleaves_x Hleaves_d].
  rewrite record_names_cons, leaf_paths_cons, map_app.
  rewrite (IHd IH Hall Hleaves_d). f_equal.
  destruct (is_dict x) eqn:Hx.
  - destruct x as [| | | | | |sub]; try discriminate Hx.
    cbn [entry_records entry_paths].
    apply regular_value_entries in Hregx as Hsub. destruct Hsub as [_ Hsub].
    cbn [entry_paths] in Hleaves_x.
    assert (no_bracket k = true) as Hkb.
    { pose proof (leaf_paths_nonempty (JDict sub) sub eq_refl Hregx) as Hne.
      destruct (leaf_paths (JDict sub)) as [|qx l]; [done|].
      apply Forall_cons in Hleaves_x as [[_ Hpath] _].
      by apply Forall_cons in Hpath as [? _]. }
    rewrite child_key_join
      by (eapply Forall_impl; [exact Hp|]; by intros a [? _]).
    rewrite (IHx sub (p ++ [k]) eq_refl Hsub).
    + rewrite map_map. apply map_ext. intros qx. cbn [fst snd].
      by rewrite <-app_assoc.
    + apply Forall_app. split; [done|]. constructor; [|constructor].
      split; [by apply plain_key_nonempty|done].
    + rewrite Forall_fmap in Hleaves_x.
      eapply Forall_impl; [exact Hleaves_x|].
      intros qx [Hleaf Hpath]. split; [done|].
      by apply Forall_cons in Hpath as [_ ?].
  - rewrite (entry_paths_leaf _ _ Hx) in Hleaves_x |- *.
    apply Forall_cons in Hleaves_x as [[Hleaf _] _]. cbn [fst snd] in Hleaf.
    rewrite (entry_records_leaf _ _ _ _ _ Hleaf). cbn [map fst snd].
    by rewrite (record_name_child types p k x Hp).
Qed.

(** X17.  For parameters that are the flattened form of a regular tree
    (keys of inline sub-structs included), with no square bracket in a
    key and no value that is a list of maps or an empty list,
    [update_hson_parameters] adds exactly one record per parameter, in
    the order of the parameters, named by the key, a colon and the
    resolved type tag; the type is looked up under the whole key. *)
Theorem one_record_per_parameter (d : dict json) (types : dict string) :
  regular_tree d = true →
  Forall (λ kv, no_bracket (fst kv) = true ∧ record_leaf (snd kv) = true)
         (flatten_dict d "") →
  update_hson_parameters (flatten_dict d "") types
  = map (λ kv, fst kv +:+ ":"
               +:+ resolved_type (default "" (dict_get (fst kv) types))
                     (snd kv))
        (flatten_dict d "").
Proof.
  intros Hent%regular_tree_entries Hflat.
  unfold update_hson_parameters. rewrite (nest_parameters_regular d Hent).
  rewrite (flatten_dict_regular d Hent) in Hflat |- *.
  change "" with (PyStr.join ":" []) at 1.
  rewrite (record_names_regular types (JDict d) d [] eq_refl Hent);
    [by rewrite map_map|constructor|].
  rewrite Forall_fmap in Hflat.
  pose proof (leaf_paths_no_colon d Hent) as Hpaths.
  rewrite Forall_forall in Hflat, Hpaths. apply Forall_forall.
  intros qx Hqx. destruct (Hflat qx Hqx) as [Hkey Hleaf].
  destruct (Hpaths qx Hqx) as [Hne Hcolon]. cbn [fst snd] in *.
  split; [done|].
  rewrite <-(split_join (fst qx) Hne Hcolon). by apply all_chars_split.
Qed.

Lemma one_record_per_parameter_witness :
  update_hson_parameters
    (flatten_dict
       [("speed", JFloat "1.5"); ("sub", JDict [("x", JInt 2)]);
        ("label", JList [JStr "a"])] "")
    [("speed", "float"); ("sub:x", "int32"); ("label", "string")]
  = map (λ kv, fst kv +:+ ":"
               +:+ resolved_type
                     (default ""
                        (dict_get (fst kv)
                           [("speed", "float"); ("sub:x", "int32");
                            ("label", "string")]))
                     (snd kv))
        (flatten_dict
           [("speed", JFloat "1.5"); ("sub", JDict [("x", JInt 2)]);
            ("label", JList [JStr "a"])] "").
Proof.
  apply (one_record_per_parameter
           [("speed", JFloat "1.5"); ("sub", JDict [("x", JInt 2)]);
            ("label", JList [JStr "a"])]).
  - vm_compute. reflexivity.
  - apply (bool_decide_unpack _). vm_compute. exact I.
Defined.

(** X18.  The tag [update_hson_parameters] gives a record is one of
    six, never [string]; and the key under which the transfer looks for
    a target is the record's lookup key, trimmed and in lower case, for
    the tags [list], [int], [float] and [bool], while a record tagged
    [enum] or [vector] keeps its tag in that key. *)
Theorem record_tag_and_transfer_key (types : dict string)
    (parent_key key : string) (value : json) :
  resolved_type (default "" (dict_get (lookup_key parent_key key) types)) value
  ∈ ["enum"; "vector"; "list"; "int"; "float"; "bool"] ∧
  strip_hson_type (record_name types parent_key key value)
  = PyStr.strip
      (PyStr.lower
         (if in_strs
               (resolved_type
                  (default "" (dict_get (lookup_key parent_key key) types))
                  value)
               ["enum"; "vector"]
          then record_name types parent_key key value
          else lookup_key parent_key key)).
Proof.
  unfold record_name.
  generalize (lookup_key parent_key key). intros lk.
  generalize (default "" (dict_get lk types)). intros ft.
  assert (resolved_type ft value
          ∈ ["enum"; "vector"; "list"; "int"; "float"; "bool"]) as Htag.
  { unfold resolved_type.
    destruct value;
      repeat match goal with
             | |- context [if ?b then _ else _] => destruct b
             end;
      repeat first [apply list_elem_of_here | apply list_elem_of_further]. }
  split; [exact Htag|].
  assert (∀ tag, no_colon tag = true →
                 strip_hson_type (lk +:+ ":" +:+ tag)
                 = PyStr.strip
                     (PyStr.lower
                        (if in_strs (PyStr.lower tag) type_tags then lk
                         else lk +:+ ":" +:+ tag))) as Hstrip.
  { intros tag Hcolon. unfold strip_hson_type.
    rewrite (split_char_snoc _ _ Hcolon).
    pose proof (split_char_nonempty ":" lk) as Hne.
    assert ((1 <? length (PyStr.split_char ":" lk ++ [tag])) = true) as ->.
    { apply Nat.ltb_lt. rewrite length_app. simpl.
      destruct (PyStr.split_char ":" lk); [done|simpl; lia]. }
    unfold PyStr.last_part. rewrite last_last, removelast_last, join_split.
    by destruct (in_strs (PyStr.lower tag) type_tags). }
  revert Htag. generalize (resolved_type ft value). intros tag Htag.
  repeat (apply elem_of_cons in Htag as [->|Htag]);
    try (rewrite Hstrip by reflexivity; reflexivity).
  by apply elem_of_nil in Htag.
Qed.

(** ** The flattening of the XML import *)

Lemma flatten_entries_cons rec pk sep k v d flat :
  flatten_entries rec pk sep ((k, v) :: d) flat
  = flatten_entries rec pk sep d
      (match v with
       | JDict _ => dict_update flat (rec v (joined_key pk sep k))
       | _ => dict_set (joined_key pk sep k) v flat
       end).
Proof. reflexivity. Qed.

Lemma joined_key_no_colon (pk k : string) :
  no_colon pk = true → no_colon k = true →
  no_colon (joined_key pk "" k) = true.
Proof.
  intros Hpk Hk. unfold joined_key. destruct (String.eqb pk ""); [done|].
  unfold no_colon. rewrite all_chars_append. by apply andb_true_iff.
Qed.

Lemma flatten_node_no_colon (v : json) :
  ∀ pk,
    no_colon pk = true → colon_free_keys v = true →
    Forall (λ kv : string * json, no_colon (fst kv) = true)
           (flatten_node "" v pk).
Proof.
  induction v as [v Hv|d IH] using json_dict_ind; intros pk Hpk Hfree.
  { destruct v; try discriminate Hv; constructor. }
  change (flatten_node "" (JDict d) pk)
    with (flatten_entries (flatten_node "") pk "" d []).
  cbn [colon_free_keys] in Hfree.
  assert (∀ flat,
    Forall (λ kv : string * json, no_colon (fst kv) = true) flat →
    Forall (λ kv : string * json, no_colon (fst kv) = true)
           (flatten_entries (flatten_node "") pk "" d flat)) as Hgo.
  { induction d as [|[k x] d IHd]; intros flat Hflat; [done|].
    apply Forall_cons in IH as [IHx IH]. cbn [snd] in IHx.
    cbn [forallb fst snd] in Hfree.
    apply andb_true_iff in Hfree as [[Hk Hx]%andb_true_iff Hfree].
    rewrite flatten_entries_cons. apply (IHd IH Hfree).
    pose proof (joined_key_no_colon pk k Hpk Hk) as Hnk.
    destruct x; try (by apply dict_set_Forall).
    apply dict_update_Forall; [|done]. by apply IHx. }
  apply Hgo. constructor.
Qed.

(** X19.  The XML import flattens nested parameters with an empty
    separator.  When no tag of the file holds a colon, no flattened key
    does, so the template never finds an imported value under a key
    with a colon: the keys [field:subfield] of inline sub-structs are
    never read from the file, and the two range-spawning parameters
    always get their defaults. *)
Theorem xml_import_reads_no_nested_key (parameters : dict json)
    (key : string) :
  colon_free_keys (JDict parameters) = true →
  no_colon key = false →
  imported_value (Some (xml_flat_parameters parameters)) key = None ∧
  initial_params (Some (xml_flat_parameters parameters))
  = initial_params None.
Proof.
  intros Hfree Hkey.
  assert (∀ k, no_colon k = false →
               dict_get k (xml_flat_parameters parameters) = None) as Hnone.
  { intros k Hk. apply dict_get_fresh. intros Hin.
    apply list_elem_of_fmap in Hin as (kv & -> & Hkv).
    pose proof (flatten_node_no_colon (JDict parameters) "" eq_refl Hfree)
      as Hall.
    rewrite Forall_forall in Hall. specialize (Hall kv Hkv). congruence. }
  split; [by apply Hnone|].
  unfold initial_params, imported_value.
  by rewrite !Hnone.
Qed.

Lemma xml_import_reads_no_nested_key_witness :
  imported_value
    (Some (xml_flat_parameters [("Range", JDict [("In", JStr "30")])]))
    "Range:In" = None ∧
  initial_params
    (Some (xml_flat_parameters [("Range", JDict [("In", JStr "30")])]))
  = initial_params None.
Proof.
  apply (xml_import_reads_no_nested_key
           [("Range", JDict [("In", JStr "30")])] "Range:In");
    vm_compute; reflexivity.
Defined.

(** ** The template entry of an object *)

Lemma take_while_append (p : ascii → bool) (a : string) (c : ascii)
    (b : string) :
  PyStr.all_chars p a = true → p c = false →
  PyStr.take_while p (a +:+ String c b) = a ∧
  PyStr.drop_while p (a +:+ String c b) = String c b.
Proof.
  intros Ha Hc. induction a as [|x a IH].
  - rewrite append_nil. cbn [PyStr.take_while PyStr.drop_while].
    by rewrite Hc.
  - cbn [PyStr.all_chars] in Ha. apply andb_true_iff in Ha as [Hx Ha].
    destruct (IH Ha) as [IH1 IH2].
    rewrite append_cons. cbn [PyStr.take_while PyStr.drop_while].
    by rewrite Hx, IH1, IH2.
Qed.

Lemma take_while_all (p : ascii → bool) (a : string) :
  PyStr.all_chars p a = true →
  PyStr.take_while p a = a ∧ PyStr.drop_while p a = "".
Proof.
  induction a as [|x a IH]; [done|]. cbn.
  intros [Hx Ha]%andb_true_iff. destruct (IH Ha) as [IH1 IH2].
  by rewrite Hx, IH1, IH2.
Qed.

Lemma take_while_prefix_chars (s : string) :
  PyStr.all_chars is_prefix_char (PyStr.take_while is_prefix_char s) = true.
Proof.
  induction s as [|c s IH]; [done|]. cbn.
  destruct (is_prefix_char c) eqn:Hc; [|done]. cbn. by rewrite Hc.
Qed.

Lemma take_drop_while (p : ascii → bool) (s : string) :
  PyStr.take_while p s +:+ PyStr.drop_while p s = s.
Proof.
  induction s as [|c s IH]; [done|]. cbn.
  destruct (p c); [|done]. by rewrite append_cons, IH.
Qed.

(** X20.  [strip_template_prefix] removes a leading run of digits and
    capitals that is followed by an underscore, and only that: a name
    [prefix_rest] becomes [rest], and every name the function changes
    has this form (up to a newline at its end). *)
Theorem strip_template_prefix_removes_prefix (name : string) :
  (∀ prefix rest,
     name = prefix +:+ "_" +:+ rest →
     prefix ≠ "" →
     PyStr.all_chars is_prefix_char prefix = true →
     PyStr.all_chars not_newline rest = true →
     strip_template_prefix name = rest) ∧
  (strip_template_prefix name ≠ name →
   ∃ prefix,
     prefix ≠ "" ∧ PyStr.all_chars is_prefix_char prefix = true ∧
     PyStr.all_chars not_newline (strip_template_prefix name) = true ∧
     (name = prefix +:+ "_" +:+ strip_template_prefix name
      ∨ name = prefix +:+ "_" +:+ strip_template_prefix name
               +:+ String "010" "")).
Proof.
  split.
  - intros prefix rest -> Hne Hprefix Hrest. unfold strip_template_prefix.
    change ("_" +:+ rest) with (String "_" rest).
    destruct (take_while_append is_prefix_char prefix "_" rest Hprefix eq_refl)
      as [-> ->].
    destruct (String.eqb_spec prefix ""); [done|].
    cbn [Ascii.eqb Bool.eqb].
    destruct (take_while_all not_newline rest Hrest) as [-> ->].
    reflexivity.
  - unfold strip_template_prefix.
    pose proof (take_drop_while is_prefix_char name) as Hname.
    pose proof (take_while_prefix_chars name) as Hprefix.
    destruct (String.eqb_spec (PyStr.take_while is_prefix_char name) "")
      as [|Hne]; [done|].
    destruct (PyStr.drop_while is_prefix_char name) as [|c tail]; [done|].
    destruct (Ascii.eqb_spec c "_") as [->|]; [|done].
    pose proof (take_drop_while not_newline tail) as Htail.
    assert (PyStr.all_chars not_newline (PyStr.take_while not_newline tail)
            = true) as Hbody.
    { clear. induction tail as [|c s IH]; [done|]. cbn.
      destruct (not_newline c) eqn:Hc; [|done]. cbn. by rewrite Hc. }
    destruct (String.eqb_spec (PyStr.drop_while not_newline tail) "")
      as [Hafter|_]; cbn [orb].
    + intros _. exists (PyStr.take_while is_prefix_char name).
      split; [done|]. split; [done|]. split; [done|]. left.
      rewrite Hafter in Htail.
      rewrite <-Hname at 1. f_equal.
      change ("_" +:+ PyStr.take_while not_newline tail)
        with (String "_" (PyStr.take_while not_newline tail)).
      f_equal. rewrite <-Htail at 1.
      clear. induction (PyStr.take_while not_newline tail) as [|c s IH];
        [done|]. by rewrite append_cons, IH.
    + destruct (String.eqb_spec (PyStr.drop_while not_newline tail)
                  (String "010" "")) as [Hafter|_]; [|done].
      intros _. exists (PyStr.take_while is_prefix_char name).
      split; [done|]. split; [done|]. split; [done|]. right.
      rewrite Hafter in Htail.
      rewrite <-Hname at 1. f_equal.
      change ("_" +:+ PyStr.take_while not_newline tail +:+ String "010" "")
        with (String "_" (PyStr.take_while not_newline tail
                          +:+ String "010" "")).
      by rewrite Htail.
Qed.

Lemma strip_template_prefix_removes_prefix_witness :
  strip_template_prefix "03A_Ring" = "Ring".
Proof.
  destruct (strip_template_prefix_removes_prefix "03A_Ring") as [Hstrip _].
  apply (Hstrip "03A" "Ring"); vm_compute; try reflexivity. discriminate.
Defined.

Lemma find_first {A} (p : A → bool) (l : list A) (x : A) :
  find p l = Some x ↔
  ∃ before after,
    l = before ++ x :: after ∧ p x = true ∧
    Forall (λ y, p y = false) before.
Proof.
  induction l as [|a l IH]; cbn [find].
  - split; [done|]. intros (before & after & Heq & _).
    by destruct before.
  - destruct (p a) eqn:Ha.
    + split.
      * intros [= <-]. by exists [], l.
      * intros ([|b before] & after & Heq & Hx & Hbefore).
        -- by injection Heq as <- _.
        -- injection Heq as <- _.
           apply Forall_cons in Hbefore as [Hb _]. congruence.
    + rewrite IH. split.
      * intros (before & after & -> & Hx & Hbefore).
        exists (a :: before), after. split; [done|]. split; [done|].
        by constructor.
      * intros ([|b before] & after & Heq & Hx & Hbefore).
        -- injection Heq as <- _. congruence.
        -- injection Heq as <- ->.
           apply Forall_cons in Hbefore as [_ Hbefore]. by exists before, after.
Qed.

(** X21.  The template entry of an object type is the entry stored
    under the type itself when that is a non-empty map; otherwise it is
    the first entry, in the order of the template, whose key with its
    prefix stripped is the type, provided that entry is a non-empty
    map.  A first such entry that is empty hides every later one. *)
Theorem find_template_obj_first_match (objects_dict : dict (dict json))
    (object_type : string) (template_obj : dict json) :
  find_template_obj objects_dict object_type = Some template_obj ↔
  template_obj ≠ [] ∧
  (dict_get object_type objects_dict = Some template_obj
   ∨ (∀ e, dict_get object_type objects_dict = Some e → e = []) ∧
     ∃ before key after,
       objects_dict = before ++ (key, template_obj) :: after ∧
       strip_template_prefix key = object_type ∧
       Forall (λ kv, strip_template_prefix (fst kv) ≠ object_type) before).
Proof.
  unfold find_template_obj.
  assert (∀ o : option (dict json),
            non_empty_entry o = Some template_obj
            ↔ o = Some template_obj ∧ template_obj ≠ []) as Hentry.
  { intros [[|kv t]|]; cbn [non_empty_entry].
    - split; [done|]. by intros [[= <-] ?].
    - split; [by intros [= <-]|]. by intros [? _].
    - split; [done|]. by intros [? _]. }
  assert (∀ kv : string * dict json,
            String.eqb (strip_template_prefix (fst kv)) object_type = false
            ↔ strip_template_prefix (fst kv) ≠ object_type) as Hneq.
  { intros kv. by destruct (String.eqb_spec (strip_template_prefix kv.1)
                              object_type). }
  destruct (non_empty_entry (dict_get object_type objects_dict))
    as [found|] eqn:Hexact.
  - destruct (dict_get object_type objects_dict) as [[|kv t]|];
      try discriminate Hexact.
    injection Hexact as <-. split.
    + intros [= <-]. split; [done|by left].
    + intros [_ [[= <-]|[Hempty _]]]; [done|].
      by specialize (Hempty _ eq_refl).
  - rewrite Hentry. split.
    + intros [Hfind Hne]. split; [done|]. right. split.
      * intros e He. rewrite He in Hexact. by destruct e.
      * destruct (find _ objects_dict) as [[key val]|] eqn:Hf;
          [|discriminate Hfind].
        injection Hfind as ->.
        apply find_first in Hf as (before & after & -> & Hkey & Hbefore).
        exists before, key, after. split; [done|].
        split; [by apply String.eqb_eq in Hkey|].
        eapply Forall_impl; [exact Hbefore|]. intros kv. apply Hneq.
    + intros [Hne [Hget|[_ (before & key & after & -> & Hkey & Hbefore)]]].
      { rewrite Hget in Hexact. by destruct template_obj. }
      split; [|done].
      rewrite (proj2 (find_first _ _ (key, template_obj))); [done|].
      exists before, after. split; [done|].
      split; [by apply String.eqb_eq|].
      eapply Forall_impl; [exact Hbefore|]. intros kv. apply Hneq.
Qed.

(** ** The tuple the template application returns *)

(** X22.  The HSON import unpacks the result of the template
    application into three names.  For an object whose template entry
    is found, with a struct name that is a string or absent, that
    unpacking raises exactly when the entry names no struct or a struct
    the template does not define (or defines as an empty map): the
    function then returns a pair.  The XML import, which unpacks with a
    starred name, never raises there. *)
Theorem pair_return_breaks_hson_import fuel structs enums
    (objects_dict : dict (dict json)) (object_type : string) imported :
  ((let! n := returned_length fuel structs enums objects_dict object_type
                imported in
    unpack_triple n) = Raise
   ↔ ∃ template_obj,
       find_template_obj objects_dict object_type = Some template_obj ∧
       match dict_get "struct" template_obj with
       | None | Some JNull => True
       | Some (JStr s) =>
           s = "" ∨ ∀ sd, structs !! s = Some sd → struct_truthy sd = false
       | Some _ => False
       end) ∧
  (let! n := returned_length fuel structs enums objects_dict object_type
               imported in
   unpack_starred n) ≠ Raise.
Proof.
  unfold returned_length.
  destruct (find_template_obj objects_dict object_type) as [tobj|];
    [|split; [split; [done|by intros (? & ? & _)]|done]].
  assert ((∃ template_obj, Some tobj = Some template_obj ∧
               match dict_get "struct" template_obj with
               | None | Some JNull => True
               | Some (JStr s) =>
                   s = "" ∨
                   ∀ sd, structs !! s = Some sd → struct_truthy sd = false
               | Some _ => False
               end)
            ↔ match dict_get "struct" tobj with
              | None | Some JNull => True
              | Some (JStr s) =>
                  s = "" ∨
                  ∀ sd, structs !! s = Some sd → struct_truthy sd = false
              | Some _ => False
              end) as Hex.
  { split; [by intros (? & [= <-] & ?)|]. intros H. by exists tobj. }
  rewrite Hex. clear Hex.
  unfold apply_hson_template_to_object.
  destruct (dict_get "struct" tobj) as [[| | | |s| |]|]; cbn; try done;
    try (split; [split; [done|by intros []]|done]).
  destruct (String.eqb_spec s "") as [->|Hs]; cbn.
  { split; [|done]. split; [by left|done]. }
  destruct (structs !! s) as [sd|] eqn:Hsd; cbn.
  - destruct (struct_truthy sd) eqn:Htruthy; cbn.
    + assert (¬ (s = "" ∨ ∀ sd', Some sd = Some sd' →
                               struct_truthy sd' = false)) as Hno.
      { intros [?|Hall]; [done|]. specialize (Hall sd eq_refl). congruence. }
      destruct (get_struct_fields structs s) as [fs| | |]; cbn;
        try (split; [split; [done|by intros ?]|done]).
      destruct (process_fields _ _ _ _ _ _) as [st| | |]; cbn;
        split; try done; split; try done; by intros ?.
    + split; [|done]. split; [|done]. intros _. right.
      by intros sd' [= <-].
  - split; [|done]. split; [|done]. intros _. right. by intros sd' [=].
Qed.

(** ** The keys of struct arrays: [str] and [int] on indices *)


















(** ** How a record is shown and reported *)

Lemma rev_app_append (a b acc : string) :
  String.rev_app (a +:+ b) acc = String.rev_app b (String.rev_app a acc).
Proof.
  revert acc. induction a as [|c a IH]; intros acc; [done|].
  rewrite append_cons. cbn [String.rev_app]. apply IH.
Qed.

(** X24.  For every record [update_hson_parameters] writes: the panel
    labels it with its lookup key and draws it with the widget of its
    tag, never with the object field, the plain string field or the
    string field with the picker; and the report of the operator shows
    [(unknown)] as its value exactly when its tag is [int]. *)
Theorem record_is_shown_by_its_tag (types : dict string)
    (parent_key key : string) (value : json) :
  base_name (record_name types parent_key key value)
  = lookup_key parent_key key ∧
  drawn_widget (record_name types parent_key key value)
  ∈ [EnumBox; FloatField; IntField; BoolField; VectorField; ListBox] ∧
  (reported_value (record_name types parent_key key value) = UnknownValue
   ↔ resolved_type (default "" (dict_get (lookup_key parent_key key) types))
       value = "int").
Proof.
  unfold record_name.
  generalize (lookup_key parent_key key). intros lk.
  generalize (default "" (dict_get lk types)). intros ft.
  assert (resolved_type ft value
          ∈ ["enum"; "vector"; "list"; "int"; "float"; "bool"]) as Htag.
  { unfold resolved_type.
    destruct value;
      repeat match goal with
             | |- context [if ?b then _ else _] => destruct b
             end;
      repeat first [apply list_elem_of_here | apply list_elem_of_further]. }
  revert Htag. generalize (resolved_type ft value). intros tag Htag.
  assert (no_colon tag = true) as Hcolon.
  { repeat (apply elem_of_cons in Htag as [->|Htag]); try reflexivity.
    by apply elem_of_nil in Htag. }
  pose proof (split_char_nonempty ":" lk) as Hne.
  unfold base_name, drawn_widget, reported_value, PyStr.endswith,
    PyStr.last_part.
  rewrite (split_char_snoc _ _ Hcolon), last_last, removelast_last.
  rewrite join_split. split; [done|].
  change (lk +:+ ":" +:+ tag) with (lk +:+ String ":" tag).
  unfold String.rev. rewrite rev_app_append.
  generalize (String.rev_app lk ""). intros rlk.
  repeat (apply elem_of_cons in Htag as [->|Htag]);
    [..|by apply elem_of_nil in Htag];
    (split;
     [cbn; repeat first [apply list_elem_of_here | apply list_elem_of_further]
     |destruct rlk; vm_compute; split; intros H;
      first [discriminate H | reflexivity]]).
Qed.
